(** * Verification of the C# Portfolio Hugo theme scripts

    A shallow embedding of the theme's browser scripts
    (theme-toggle.js, the contact-form validator, accessibility.js,
    navigation.js, the typing animation and the service worker) together
    with the properties the design document states about them and further
    properties read off the code.

    Browser objects are modelled by explicit state: attributes are finite
    maps from attribute names to strings, class lists are finite sets,
    [localStorage] is a finite map that may be inaccessible, and calls that
    can raise a JavaScript exception live in a small state-and-exception
    monad so that [try]/[catch] is modelled as written. *)

From stdpp Require Import gmap strings list fin_maps pretty.
From Stdlib Require Import String Ascii.

Local Open Scope string_scope.

(* ===================================================================== *)
(** ** JavaScript prelude: outcomes, truthiness, string helpers          *)
(* ===================================================================== *)

Module Js.

(** Result of running a piece of script on a state of type [St]:
    normal completion with a value, or an exception carrying the state
    reached when it was thrown. *)
Inductive outcome (St A : Type) : Type :=
| Ret (a : A) (s : St)
| Throw (e : string) (s : St).
Arguments Ret {St A} a s.
Arguments Throw {St A} e s.

Definition M (St A : Type) : Type := St -> outcome St A.

Definition ret {St A} (a : A) : M St A := fun s => Ret a s.

Definition bind {St A B} (m : M St A) (k : A -> M St B) : M St B :=
  fun s => match m s with
           | Ret a s' => k a s'
           | Throw e s' => Throw e s'
           end.

(** [try { m } catch (error) { h error }] *)
Definition try_catch {St A} (m : M St A) (h : string -> M St A) : M St A :=
  fun s => match m s with
           | Ret a s' => Ret a s'
           | Throw e s' => h e s'
           end.

Definition modify {St} (f : St -> St) : M St unit := fun s => Ret tt (f s).
Definition gets {St A} (f : St -> A) : M St A := fun s => Ret (f s) s.

Definition completes {St A} (o : outcome St A) : Prop :=
  match o with Ret _ _ => True | Throw _ _ => False end.

Definition final {St A} (o : outcome St A) : St :=
  match o with Ret _ s => s | Throw _ s => s end.

(** Truthiness of a value that is a string or [null]: [null] and the
    empty string are falsy. *)
Definition truthy (v : option string) : bool :=
  match v with
  | Some s => negb (String.eqb s "")
  | None => false
  end.

(** [Boolean.prototype.toString] *)
Definition bool_toString (b : bool) : string :=
  if b then "true" else "false".

(** [a === b] on strings. *)
Definition seq (a b : string) : bool := String.eqb a b.

(** Strings are the UTF-8 encoding of the JavaScript string: a character
    of the Basic Multilingual Plane takes one to three bytes, any other
    character (a surrogate pair in JavaScript) four.  [encodeURIComponent]
    produces its escapes from these bytes; [length], [trim] and the
    class [\s] are read off them below.  (A string with an unpaired
    surrogate has no such encoding; the typing animation, which cuts its
    text between any two code units, has its texts as lists of code
    units instead.) *)
Definition string_of_bytes (l : list nat) : string :=
  fold_right (fun n s => String (ascii_of_nat n) s) EmptyString l.

(** The UTF-16 code units of a string whose first [pending] bytes continue
    a character already counted: a byte that starts a character counts one
    unit, two when it starts a four-byte character, and the bytes that
    continue it count nothing.  (A continuation byte with nothing to
    continue counts one unit, so that only the empty string has none.) *)
Fixpoint code_units (pending : nat) (s : string) : nat :=
  match s with
  | EmptyString => 0
  | String c s' =>
      let n := nat_of_ascii c in
      if Nat.ltb n 128 then 1 + code_units 0 s'
      else if Nat.ltb n 192 then
        match pending with
        | S k => code_units k s'
        | 0 => 1 + code_units 0 s'
        end
      else if Nat.ltb n 224 then 1 + code_units 1 s'
      else if Nat.ltb n 240 then 1 + code_units 2 s'
      else 2 + code_units 3 s'
  end.

(** [s.length] *)
Definition js_length (s : string) : nat := code_units 0 s.

(** The characters of [WhiteSpace] and [LineTerminator], which
    [String.prototype.trim] removes and the regular-expression class [\s]
    matches.  In one byte: U+0009 to U+000D and U+0020; in two bytes:
    U+00A0; in three bytes: U+1680, U+2000 to U+200A, U+2028, U+2029,
    U+202F, U+205F, U+3000 and U+FEFF. *)
Definition is_space (c : ascii) : bool :=
  let n := nat_of_ascii c in
  (Nat.eqb n 9 || Nat.eqb n 10 || Nat.eqb n 11 || Nat.eqb n 12 ||
   Nat.eqb n 13 || Nat.eqb n 32)%bool.

Definition is_space2 (c d : ascii) : bool :=
  (Nat.eqb (nat_of_ascii c) 194 && Nat.eqb (nat_of_ascii d) 160)%bool.

Definition is_space3 (c d e : ascii) : bool :=
  let '(c, d, e) := (nat_of_ascii c, nat_of_ascii d, nat_of_ascii e) in
  ((Nat.eqb c 225 && Nat.eqb d 154 && Nat.eqb e 128) ||
   (Nat.eqb c 226 && Nat.eqb d 128 &&
    ((Nat.leb 128 e && Nat.leb e 138) || Nat.eqb e 168 || Nat.eqb e 169 ||
     Nat.eqb e 175)) ||
   (Nat.eqb c 226 && Nat.eqb d 129 && Nat.eqb e 159) ||
   (Nat.eqb c 227 && Nat.eqb d 128 && Nat.eqb e 128) ||
   (Nat.eqb c 239 && Nat.eqb d 187 && Nat.eqb e 191))%bool.

(** The string after the white-space character it starts with, if it
    starts with one. *)
Definition after_space (s : string) : option string :=
  match s with
  | String c s1 =>
      if is_space c then Some s1
      else
        match s1 with
        | String d s2 =>
            if is_space2 c d then Some s2
            else
              match s2 with
              | String e s3 => if is_space3 c d e then Some s3 else None
              | EmptyString => None
              end
        | EmptyString => None
        end
  | EmptyString => None
  end.

(** [String.prototype.trimStart] *)
Fixpoint trimStart (s : string) : string :=
  match s with
  | String c s1 =>
      if is_space c then trimStart s1
      else
        match s1 with
        | String d s2 =>
            if is_space2 c d then trimStart s2
            else
              match s2 with
              | String e s3 => if is_space3 c d e then trimStart s3 else s
              | EmptyString => s
              end
        | EmptyString => s
        end
  | EmptyString => EmptyString
  end.

(** The string holds white space only. *)
Definition all_space (s : string) : bool := String.eqb (trimStart s) "".

(** [String.prototype.trimEnd]: the string is cut where what follows is
    white space only.  In UTF-8 no white-space character starts inside
    another character, so this is the longest such end. *)
Fixpoint trimEnd (s : string) : string :=
  match s with
  | String c s' => if all_space s then EmptyString else String c (trimEnd s')
  | EmptyString => EmptyString
  end.

(** [String.prototype.trim] *)
Definition trim (s : string) : string := trimEnd (trimStart s).

(** The string holds a character of the class [\s]. *)
Fixpoint has_space (s : string) : bool :=
  match s with
  | String _ s' =>
      (match after_space s with Some _ => true | None => false end
       || has_space s')%bool
  | EmptyString => false
  end.

(** [String.prototype.toUpperCase] on one character (ASCII letters). *)
Definition toUpperCase_char (c : ascii) : ascii :=
  let n := nat_of_ascii c in
  if (Nat.leb 97 n && Nat.leb n 122)%bool then ascii_of_nat (n - 32) else c.

(** [!s] for a string [s] *)
Definition falsy_string (s : string) : bool := String.eqb s "".

(** [s.includes(sub)] *)
Fixpoint includes (s sub : string) : bool :=
  (String.prefix sub s ||
   match s with
   | String _ s' => includes s' sub
   | EmptyString => false
   end)%bool.

Definition hex_digit (n : nat) : ascii :=
  ascii_of_nat (if Nat.ltb n 10 then 48 + n else 55 + n).

(** Characters [encodeURIComponent] leaves as they are. *)
Definition uri_unreserved (c : ascii) : bool :=
  let n := nat_of_ascii c in
  ((Nat.leb 65 n && Nat.leb n 90) || (Nat.leb 97 n && Nat.leb n 122) ||
   (Nat.leb 48 n && Nat.leb n 57) ||
   Nat.eqb n 45 || Nat.eqb n 95 || Nat.eqb n 46 || Nat.eqb n 33 ||
   Nat.eqb n 126 || Nat.eqb n 42 || Nat.eqb n 39 || Nat.eqb n 40 ||
   Nat.eqb n 41)%bool.

(** [encodeURIComponent] on a string of UTF-8 bytes. *)
Fixpoint encodeURIComponent (s : string) : string :=
  match s with
  | EmptyString => EmptyString
  | String c s' =>
      if uri_unreserved c then String c (encodeURIComponent s')
      else let n := nat_of_ascii c in
           String "%" (String (hex_digit (n / 16)) (String (hex_digit (n mod 16))
             (encodeURIComponent s')))
  end.

(** Value of a digit in the given radix, if it is one. *)
Definition digit_value (radix : nat) (c : ascii) : option nat :=
  let n := nat_of_ascii c in
  let v := if (Nat.leb 48 n && Nat.leb n 57)%bool then Some (n - 48)
           else if (Nat.leb 97 n && Nat.leb n 102)%bool then Some (n - 87)
           else if (Nat.leb 65 n && Nat.leb n 70)%bool then Some (n - 55)
           else None in
  match v with
  | Some d => if Nat.ltb d radix then Some d else None
  | None => None
  end.

Fixpoint parse_digits (radix : nat) (s : string) (acc : option Z) : option Z :=
  match s with
  | String c s' =>
      match digit_value radix c with
      | Some d =>
          parse_digits radix s'
            (Some (Z.of_nat radix * default 0%Z acc + Z.of_nat d)%Z)
      | None => acc
      end
  | EmptyString => acc
  end.

(** [parseInt(s)] without a radix argument; [None] stands for [NaN].  The
    result is the exact integer, where JavaScript rounds to the nearest
    double above 2^53. *)
Definition parseInt (s : string) : option Z :=
  let s1 := trimStart s in
  let '(sign, s2) :=
    match s1 with
    | String "-" r => ((-1)%Z, r)
    | String "+" r => (1%Z, r)
    | _ => (1%Z, s1)
    end in
  let '(radix, s3) :=
    match s2 with
    | String "0" (String "x" r) => (16, r)
    | String "0" (String "X" r) => (16, r)
    | _ => (10, s2)
    end in
  match parse_digits radix s3 None with
  | Some n => Some (sign * n)%Z
  | None => None
  end.

(** [n || null] for a number [n] that may be [NaN]: zero and [NaN] are
    falsy. *)
Definition number_or_null (n : option Z) : option Z :=
  match n with
  | Some z => if Z.eqb z 0 then None else Some z
  | None => None
  end.

(** The test of [/^[^\s@]+@[^\s@]+\.[^\s@]+$/]: no white space anywhere,
    one "@" with text before it, and after it a dot that has at least one
    character on each side. *)
Definition email_char (c : ascii) : bool :=
  negb (Ascii.eqb c "@").

Fixpoint all_chars (f : ascii -> bool) (s : string) : bool :=
  match s with
  | String c s' => f c && all_chars f s'
  | EmptyString => true
  end.

Fixpoint split_at_first (d : ascii) (s : string) : option (string * string) :=
  match s with
  | String c s' =>
      if Ascii.eqb c d then Some (EmptyString, s')
      else match split_at_first d s' with
           | Some (a, b) => Some (String c a, b)
           | None => None
           end
  | EmptyString => None
  end.

Fixpoint dot_before_more (s : string) : bool :=
  match s with
  | String c s' =>
      (Ascii.eqb c "." && negb (String.eqb s' "")) || dot_before_more s'
  | EmptyString => false
  end.

Definition email_regex_test (s : string) : bool :=
  negb (has_space s) &&
  match split_at_first "@" s with
  | Some (a, r) =>
      negb (String.eqb a "") && all_chars email_char a &&
      all_chars email_char r &&
      match r with
      | String _ r' => dot_before_more r'
      | EmptyString => false
      end
  | None => false
  end.

End Js.

Import Js.

Declare Scope js_scope.
Delimit Scope js_scope with js.
Notation "x ← y ; z" := (bind y (fun x => z))
  (at level 20, y at level 100, z at level 200, only parsing) : js_scope.
Notation "x ;; z" := (bind x (fun _ => z))
  (at level 100, z at level 200, only parsing, right associativity) : js_scope.

(* ===================================================================== *)
(** ** theme-toggle.js : class ThemeToggle                               *)
(* ===================================================================== *)

Module ThemeToggle.

(** An element of the document, as far as the theme manager touches it:
    its attributes, its class list, and the text of the optional
    [.theme-toggle__text] and [.theme-toggle__icon] children. *)
Record element := Element {
  attrs : gmap string string;
  classList : gset string;
  text_child : option string;
  icon_child : option string;
}.

(** The part of the browser the theme manager reads and writes.

    - [storage]: the contents of [localStorage], or [None] when access
      to it raises (disabled storage, security error);
    - [quota_exceeded]: [localStorage.setItem] raises;
    - [prefers_dark]: [None] when [window.matchMedia] is missing,
      otherwise the [matches] flag of [(prefers-color-scheme: dark)];
    - [root_attrs]: attributes of [document.documentElement];
    - [elements]: the elements of the document, in document order;
    - [console]: warnings logged with [console.warn];
    - [dispatched]: [detail.theme] of every [themechange] event;
    - [setItem_calls]: every [localStorage.setItem(key, value)] call made,
      in order (a trace kept to state what is written). *)
Record page := Page {
  storage : option (gmap string string);
  quota_exceeded : bool;
  prefers_dark : option bool;
  root_attrs : gmap string string;
  elements : list element;
  console : list string;
  dispatched : list string;
  setItem_calls : list (string * string);
}.

Definition set_storage (f : option (gmap string string) -> option (gmap string string))
    (p : page) : page :=
  Page (f (storage p)) (quota_exceeded p) (prefers_dark p) (root_attrs p)
       (elements p) (console p) (dispatched p) (setItem_calls p).
Definition set_prefers_dark (m : option bool) (p : page) : page :=
  Page (storage p) (quota_exceeded p) m (root_attrs p)
       (elements p) (console p) (dispatched p) (setItem_calls p).
Definition set_root_attrs (f : gmap string string -> gmap string string)
    (p : page) : page :=
  Page (storage p) (quota_exceeded p) (prefers_dark p) (f (root_attrs p))
       (elements p) (console p) (dispatched p) (setItem_calls p).
Definition set_elements (f : list element -> list element) (p : page) : page :=
  Page (storage p) (quota_exceeded p) (prefers_dark p) (root_attrs p)
       (f (elements p)) (console p) (dispatched p) (setItem_calls p).
Definition log_warn (msg : string) (p : page) : page :=
  Page (storage p) (quota_exceeded p) (prefers_dark p) (root_attrs p)
       (elements p) (console p ++ [msg]) (dispatched p) (setItem_calls p).
Definition log_event (theme : string) (p : page) : page :=
  Page (storage p) (quota_exceeded p) (prefers_dark p) (root_attrs p)
       (elements p) (console p) (dispatched p ++ [theme]) (setItem_calls p).
Definition log_setItem (k v : string) (p : page) : page :=
  Page (storage p) (quota_exceeded p) (prefers_dark p) (root_attrs p)
       (elements p) (console p) (dispatched p) (setItem_calls p ++ [(k, v)]).

Local Open Scope js_scope.

(** *** The constructor's constants *)

Definition storageKey : string := "csharp-portfolio-theme".
Definition LIGHT : string := "light".
Definition DARK : string := "dark".
Definition AUTO : string := "auto".
(** [Object.values(this.themes)] *)
Definition themes_values : list string := [LIGHT; DARK; AUTO].

(** *** Browser primitives *)

(** [localStorage.getItem(key)] *)
Definition getItem (key : string) : M page (option string) :=
  fun p => match storage p with
           | None => Throw "SecurityError" p
           | Some m => Ret (m !! key) p
           end.

(** [localStorage.setItem(key, value)] *)
Definition setItem (key value : string) : M page unit :=
  fun p => let p1 := log_setItem key value p in
           match storage p1 with
           | None => Throw "SecurityError" p1
           | Some m =>
               if quota_exceeded p1 then Throw "QuotaExceededError" p1
               else Ret tt (set_storage (fun _ => Some (<[key := value]> m)) p1)
           end.

Definition console_warn (msg : string) : M page unit := modify (log_warn msg).

(** *** Methods of the class, in source order *)

(** [getStoredTheme()] *)
Definition getStoredTheme : M page (option string) :=
  try_catch (getItem storageKey)
    (fun error =>
       console_warn ("Failed to read theme from localStorage: " ++ error) ;;
       ret None).

(** [storeTheme(theme)] *)
Definition storeTheme (theme : string) : M page unit :=
  try_catch (setItem storageKey theme)
    (fun error =>
       console_warn ("Failed to store theme in localStorage: " ++ error)).

(** [getSystemTheme()] *)
Definition getSystemTheme : M page string :=
  gets (fun p => match prefers_dark p with
                 | Some true => DARK
                 | _ => LIGHT
                 end).

(** [button.setAttribute(name, value)] *)
Definition setAttribute (name value : string) (b : element) : element :=
  Element (<[name := value]> (attrs b)) (classList b) (text_child b) (icon_child b).

(** [button.classList.toggle(name, force)] *)
Definition classList_toggle (name : string) (force : bool) (b : element) : element :=
  Element (attrs b)
          (if force then {[name]} ∪ classList b else classList b ∖ {[name]})
          (text_child b) (icon_child b).

(** [updateButtonAria(button, theme)] *)
Definition updateButtonAria (button : element) (theme : string) : element :=
  let isDark := seq theme DARK in
  setAttribute "aria-label"
    (if isDark then "Switch to light theme" else "Switch to dark theme")
    (setAttribute "aria-pressed" (bool_toString isDark) button).

(** The two icon strings, byte for byte as they stand in the source. *)
Definition icon_dark : string :=
  string_of_bytes [195; 176; 197; 184; 197; 146; 226; 132; 162].
Definition icon_light : string :=
  string_of_bytes [195; 162; 203; 156; 226; 130; 172; 195; 175; 194; 184].

(** [updateButtonVisual(button, theme)] *)
Definition updateButtonVisual (button : element) (theme : string) : element :=
  let isDark := seq theme DARK in
  let b1 := classList_toggle "theme-toggle--dark" isDark button in
  let b2 := classList_toggle "theme-toggle--light" (negb isDark) b1 in
  Element (attrs b2) (classList b2)
    (match text_child b2 with
     | Some _ => Some (if isDark then "false" else "true")
     | None => None
     end)
    (match icon_child b2 with
     | Some _ => Some (if isDark then icon_dark else icon_light)
     | None => None
     end).

(** Does the element match the selector [[data-theme-toggle]]? *)
Definition is_toggle (b : element) : bool :=
  bool_decide (is_Some (attrs b !! "data-theme-toggle")).

(** [updateToggleButtons(theme)] *)
Definition updateToggleButtons (theme : string) : M page unit :=
  modify (set_elements
    (map (fun button =>
            if is_toggle button
            then updateButtonVisual (updateButtonAria button theme) theme
            else button))).

(** [dispatchThemeChangeEvent(theme)] (the timestamp is not recorded) *)
Definition dispatchThemeChangeEvent (theme : string) : M page unit :=
  modify (log_event theme).

(** [applyTheme(theme)] *)
Definition applyTheme (theme : string) : M page unit :=
  modify (set_root_attrs (delete "data-theme")) ;;
  (if seq theme AUTO then ret tt
   else modify (set_root_attrs (<["data-theme" := theme]>))) ;;
  updateToggleButtons theme ;;
  dispatchThemeChangeEvent theme.

(** [getCurrentTheme()] *)
Definition getCurrentTheme : M page string :=
  dataTheme ← gets (fun p => root_attrs p !! "data-theme") ;
  if truthy dataTheme then ret (default "" dataTheme)
  else getSystemTheme.

(** [toggle()] *)
Definition toggle : M page unit :=
  currentTheme ← getCurrentTheme ;
  let newTheme := if seq currentTheme LIGHT then DARK else LIGHT in
  applyTheme newTheme ;;
  storeTheme newTheme.

(** [setTheme(theme)] *)
Definition setTheme (theme : string) : M page unit :=
  if bool_decide (theme ∈ themes_values) then
    applyTheme theme ;;
    storeTheme theme
  else
    console_warn ("Invalid theme: " ++ theme).

(** [setInitialTheme()] *)
Definition setInitialTheme : M page unit :=
  storedTheme ← getStoredTheme ;
  systemTheme ← getSystemTheme ;
  if truthy storedTheme then
    applyTheme (default "" storedTheme)
  else
    applyTheme systemTheme ;;
    storeTheme systemTheme.

(** [handleSystemThemeChange(e)], with [e.matches] as argument *)
Definition handleSystemThemeChange (e_matches : bool) : M page unit :=
  storedTheme ← getStoredTheme ;
  if negb (truthy storedTheme) || bool_decide (storedTheme = Some AUTO) then
    let newTheme := if e_matches then DARK else LIGHT in
    applyTheme newTheme
  else ret tt.

(** [initToggleButtons()]: besides registering the click listeners it
    sets the initial ARIA attributes of every toggle. *)
Definition initToggleButtons : M page unit :=
  current ← getCurrentTheme ;
  modify (set_elements
    (map (fun button =>
            if is_toggle button then updateButtonAria button current
            else button))).

(** [init()]: [watchSystemTheme] and [initKeyboardShortcuts] only
    register listeners; the events they listen to are the operations
    [SystemThemeChange] and [Toggle] below. *)
Definition init : M page unit :=
  setInitialTheme ;;
  initToggleButtons.

(** *** Operations on a page with a theme manager *)

Inductive operation :=
| Init                                (* new ThemeToggle() *)
| Toggle                              (* click on a toggle, Ctrl+Shift+T *)
| SetTheme (theme : string)           (* window.themeToggle.setTheme(theme) *)
| SystemThemeChange (matches : bool). (* media query change event *)

Definition perform (o : operation) : M page unit :=
  match o with
  | Init => init
  | Toggle => toggle
  | SetTheme theme => setTheme theme
  | SystemThemeChange matches =>
      modify (set_prefers_dark (Some matches)) ;;
      handleSystemThemeChange matches
  end.

Fixpoint perform_all (os : list operation) : M page unit :=
  match os with
  | [] => ret tt
  | o :: os' => perform o ;; perform_all os'
  end.

(** *** Observations used to state the properties *)

(** The value of the root element's [data-theme] attribute: the theme
    that is applied to the document. *)
Definition applied_theme (p : page) : option string :=
  root_attrs p !! "data-theme".

(** The operating system's colour scheme as the manager resolves it. *)
Definition system_theme (p : page) : string :=
  match prefers_dark p with Some true => DARK | _ => LIGHT end.

(** What [localStorage] holds under [k]; [None] also when the storage
    cannot be read. *)
Definition stored (k : string) (p : page) : option string :=
  match storage p with Some m => m !! k | None => None end.

(** The state [applyTheme theme] leaves behind. *)
Definition applied (theme : string) (p : page) : page :=
  log_event theme
    (set_elements
       (map (fun button =>
               if is_toggle button
               then updateButtonVisual (updateButtonAria button theme) theme
               else button))
       (if seq theme AUTO
        then set_root_attrs (delete "data-theme") p
        else set_root_attrs (<["data-theme" := theme]>)
               (set_root_attrs (delete "data-theme") p))).

(** The state [storeTheme theme] leaves behind. *)
Definition stored_state (theme : string) (p : page) : page :=
  let p1 := log_setItem storageKey theme p in
  match storage p with
  | None => log_warn "Failed to store theme in localStorage: SecurityError" p1
  | Some m =>
      if quota_exceeded p
      then log_warn "Failed to store theme in localStorage: QuotaExceededError" p1
      else set_storage (fun _ => Some (<[storageKey := theme]> m)) p1
  end.

(** A [setItem] call the data model allows: the theme key, with one of
    the three theme names as value. *)
Definition valid_write (kv : string * string) : Prop :=
  kv.1 = storageKey /\ kv.2 ∈ themes_values.

(** [p'] differs from [p], as far as the storage goes, only by valid
    writes. *)
Definition only_valid_writes (p p' : page) : Prop :=
  exists written,
    setItem_calls p' = (setItem_calls p ++ written)%list /\
    Forall valid_write written /\
    (forall k, k <> storageKey -> stored k p' = stored k p) /\
    (stored storageKey p' = stored storageKey p \/
     exists v, stored storageKey p' = Some v /\ v ∈ themes_values).

End ThemeToggle.


(* ===================================================================== *)
(** ** The contact form as the scripts see it                            *)
(* ===================================================================== *)

Module Form.

(** An [input] or [textarea] of the form. *)
Record input := Input {
  id : string;
  name : string;
  type : string;
  value : string;
  defaultValue : string;
  attributes : gmap string string;
  classList : gset string;
}.

(** An element that shows a field's error message. *)
Record error_element := ErrorElement {
  textContent : string;
  classes : gset string;
}.

(** The element with id [formStatus]. *)
Record status_element := StatusElement {
  status_text : string;
  className : string;
  status_attributes : gmap string string;
}.

(** The submit button, [.contact-submit-btn]. *)
Record button := Button {
  disabled : bool;
  innerHTML : string;
}.

(** A [label]: its own text and the text of its [.code-property] span,
    when it has one. *)
Record label := Label {
  label_text : string;
  code_property : option string;
}.

(** The form [#contactForm]:
    - [inputs]: its [input] and [textarea] elements in document order
      (what [querySelectorAll("input, textarea")] returns); an input is
      identified by its position in this list;
    - [errors]: the message elements, by id;
    - [formStatus], [submitButton]: present or not;
    - [labels]: labels by the id in their [for] attribute. *)
Record form := Form {
  inputs : list input;
  errors : gmap string error_element;
  formStatus : option status_element;
  submitButton : option button;
  labels : gmap string label;
}.

Definition set_inputs (f : list input -> list input) (fm : form) : form :=
  Form (f (inputs fm)) (errors fm) (formStatus fm) (submitButton fm) (labels fm).
Definition set_errors
    (f : gmap string error_element -> gmap string error_element) (fm : form) : form :=
  Form (inputs fm) (f (errors fm)) (formStatus fm) (submitButton fm) (labels fm).
Definition set_formStatus (f : option status_element -> option status_element)
    (fm : form) : form :=
  Form (inputs fm) (errors fm) (f (formStatus fm)) (submitButton fm) (labels fm).
Definition set_submitButton (f : option button -> option button) (fm : form) : form :=
  Form (inputs fm) (errors fm) (formStatus fm) (f (submitButton fm)) (labels fm).

Definition set_classList (f : gset string -> gset string) (i : input) : input :=
  Input (id i) (name i) (type i) (value i) (defaultValue i) (attributes i)
        (f (classList i)).
Definition set_attributes (f : gmap string string -> gmap string string)
    (i : input) : input :=
  Input (id i) (name i) (type i) (value i) (defaultValue i) (f (attributes i))
        (classList i).
Definition set_value (v : string) (i : input) : input :=
  Input (id i) (name i) (type i) v (defaultValue i) (attributes i) (classList i).

(** Update the input at position [n]. *)
Definition update_input (n : nat) (f : input -> input) (fm : form) : form :=
  set_inputs (alter f n) fm.

(** [form.querySelector("#" + id)] among the inputs: the position of the
    first input with that id. *)
Definition querySelector_id (i : string) (fm : form) : option nat :=
  fst <$> list_find (fun x => id x = i) (inputs fm).

End Form.


(* ===================================================================== *)
(** ** Contact form validation and submission: class ContactFormValidator *)
(* ===================================================================== *)

Module ContactFormValidator.
Import Form.
Local Open Scope js_scope.

(** How a [fetch] call ends: the promise rejects (network error) or
    resolves with a response whose [ok] flag is given. *)
Inductive fetch_outcome :=
| NetworkError
| Response (ok : bool).

(** The browser around the form: the page's URL and host name, and what
    the network answers to the [n]-th [fetch] call of the page, made to a
    given URL. *)
Record browser := Browser {
  location_href : string;
  location_hostname : string;
  network : nat -> string -> fetch_outcome;
}.

(** What the validator does to the world outside the form, in order. *)
Inductive effect :=
| Fetch (endpoint method : string) (body : gmap string string)
| ConsoleWarn (msg : string)
| ConsoleError (msg : string)
| Navigate (href : string)
| UnhandledRejection (e : string).

(** The validator object with its form. *)
Record validator := Validator {
  form : Form.form;
  isSubmitting : bool;
  effects : list effect;
}.

Definition on_form (f : Form.form -> Form.form) (v : validator) : validator :=
  Validator (f (form v)) (isSubmitting v) (effects v).
Definition set_isSubmitting (b : bool) (v : validator) : validator :=
  Validator (form v) b (effects v).
Definition log_effect (e : effect) (v : validator) : validator :=
  Validator (form v) (isSubmitting v) (effects v ++ [e]).

(** The rules a field is validated against; [None] is a missing property. *)
Record rules := Rules {
  required : bool;
  rtype : option string;
  minLength : option Z;
  maxLength : option Z;
}.

(** [showFormStatus(message, type)] *)
Definition showFormStatus (message type : string) (fm : Form.form) : Form.form :=
  set_formStatus
    (fmap (fun st => StatusElement message ("form-status show " ++ type)
                       (status_attributes st))) fm.

(** [hideFormStatus()] *)
Definition hideFormStatus (fm : Form.form) : Form.form :=
  set_formStatus
    (fmap (fun st => StatusElement "" "form-status" (status_attributes st))) fm.

(** [handleReset(event)] *)
Definition handleReset (fm : Form.form) : Form.form :=
  let fm1 :=
    set_errors
      (fmap (fun e =>
               if bool_decide ("error-message" ∈ classes e)
               then ErrorElement "" (classes e ∖ {["show"]})
               else e)) fm in
  let fm2 := hideFormStatus fm1 in
  set_inputs (map (set_classList (fun c => c ∖ {["error"]} ∖ {["valid"]}))) fm2.

(** [clearFieldError(input)] *)
Definition clearFieldError (n : nat) (fm : Form.form) : Form.form :=
  match inputs fm !! n with
  | None => fm
  | Some input =>
      let fm1 :=
        set_errors
          (alter (fun e =>
                    ErrorElement ""
                      (classes e ∖ {["show"]} ∖ {["required-error"]}
                         ∖ {["email-error"]} ∖ {["length-error"]}))
             (id input ++ "-error")) fm in
      update_input n (set_classList (fun c => c ∖ {["error"]})) fm1
  end.

(** [showFieldError(input, errorElement, message, errorClass)] *)
Definition showFieldError (n : nat) (errorId message errorClass : string)
    (fm : Form.form) : Form.form :=
  let fm1 :=
    update_input n (set_classList (fun c => ({["error"]} ∪ c) ∖ {["valid"]})) fm in
  set_errors
    (alter (fun e =>
              ErrorElement message
                (if falsy_string errorClass then {["show"]} ∪ classes e
                 else {[errorClass]} ∪ ({["show"]} ∪ classes e)))
       errorId) fm1.

(** [isValidEmail(email)] *)
Definition isValidEmail (email : string) : bool := email_regex_test email.

(** [capitalize(str)] *)
Definition capitalize (str : string) : string :=
  match str with
  | String c rest => String (toUpperCase_char c) rest
  | EmptyString => EmptyString
  end.

(** [getFieldRules(input)] *)
Definition getFieldRules (input : Form.input) : rules :=
  let r :=
    Rules (bool_decide (is_Some (attributes input !! "required")))
          (Some (type input))
          (number_or_null
             (parseInt (default "null" (attributes input !! "minlength"))))
          (number_or_null
             (parseInt (default "null" (attributes input !! "maxlength")))) in
  let defaults (lo hi : Z) :=
    Rules (required r) (rtype r)
          (Some (default lo (minLength r))) (Some (default hi (maxLength r))) in
  if String.eqb (id input) "name" then defaults 2%Z 100%Z
  else if String.eqb (id input) "subject" then defaults 5%Z 200%Z
  else if String.eqb (id input) "message" then defaults 10%Z 2000%Z
  else r.

(** Truthiness of a numeric rule. *)
Definition rule_set (n : option Z) : bool :=
  match number_or_null n with Some _ => true | None => false end.

(** [validateField(input, rules = null)]; [input] is [None] for [null].
    The ids of the inputs are taken to be CSS identifiers, so that the
    selector [#<id>-error] is one [querySelector] accepts. *)
Definition validateField (input : option nat) (rules0 : option rules)
    (fm : Form.form) : bool * Form.form :=
  match input ≫= (fun n => (fun i => (n, i)) <$> inputs fm !! n) with
  | None => (true, fm)
  | Some (n, input) =>
      let value := trim (value input) in
      let fieldName := if falsy_string (name input) then id input else name input in
      let errorId := id input ++ "-error" in
      match errors fm !! errorId with
      | None => (true, fm)
      | Some _ =>
          let fm1 := clearFieldError n fm in
          let rules := match rules0 with
                       | Some r => r
                       | None => getFieldRules input
                       end in
          if required rules && falsy_string value then
            (false, showFieldError n errorId
                      (capitalize fieldName ++ " is required") "required-error" fm1)
          else if falsy_string value && negb (required rules) then
            (true, fm1)
          else if bool_decide (rtype rules = Some "email")
                  && negb (isValidEmail value) then
            (false, showFieldError n errorId "Invalid email format"
                      "email-error" fm1)
          else if rule_set (minLength rules)
                  && (Z.of_nat (js_length value) <? default 0 (minLength rules))%Z
          then
            (false, showFieldError n errorId
                      (capitalize fieldName ++ " must be at least "
                         ++ pretty (default 0%Z (minLength rules)) ++ " characters")
                      "length-error" fm1)
          else if rule_set (maxLength rules)
                  && (default 0 (maxLength rules) <? Z.of_nat (js_length value))%Z
          then
            (false, showFieldError n errorId
                      (capitalize fieldName ++ " must be no more than "
                         ++ pretty (default 0%Z (maxLength rules)) ++ " characters")
                      "length-error" fm1)
          else
            (true, update_input n (set_classList (fun c => {["valid"]} ∪ c)) fm1)
      end
  end.

(** The [fields] table of [validateForm]. *)
Definition fields : list (string * rules) :=
  [ ("name", Rules true None (Some 2%Z) None);
    ("email", Rules true (Some "email") None None);
    ("subject", Rules true None (Some 5%Z) None);
    ("message", Rules true None (Some 10%Z) None) ].

(** The [forEach] loop of [validateForm], from a given [isValid]. *)
Fixpoint validate_each (fs : list (string * rules)) (isValid : bool)
    (fm : Form.form) : bool * Form.form :=
  match fs with
  | [] => (isValid, fm)
  | field :: rest =>
      let input := querySelector_id field.1 fm in
      let '(ok, fm1) := validateField input (Some field.2) fm in
      validate_each rest (if negb ok then false else isValid) fm1
  end.

(** [validateForm()] *)
Definition validateForm (fm : Form.form) : bool * Form.form :=
  validate_each fields true fm.

(** *** Submission *)

Definition newline : string := String (ascii_of_nat 10) EmptyString.
Definition quote : string := String (ascii_of_nat 34) EmptyString.

(** The markup shown in the submit button while sending. *)
Definition sending_innerHTML : string :=
  newline ++ "            <span class=" ++ quote ++ "btn-return-type" ++ quote
    ++ ">Task&lt;bool&gt;</span>"
  ++ newline ++ "            <span class=" ++ quote ++ "btn-method" ++ quote
    ++ ">Sending</span>"
  ++ newline ++ "            <span class=" ++ quote ++ "btn-params" ++ quote
    ++ ">...</span>"
  ++ newline ++ "        ".

(** [Object.fromEntries(new FormData(form).entries())]: the named
    controls with their current values, a later control of the same name
    replacing an earlier one. *)
Definition formData (fm : Form.form) : gmap string string :=
  fold_left
    (fun data input =>
       if falsy_string (name input) then data
       else <[name input := value input]> data)
    (inputs fm) ∅.

(** A form submission service. *)
Record service := Service {
  service_name : string;
  endpoint : string;
  method : string;
}.

(** The [services] table of [submitFormData]. *)
Definition services (env : browser) : list service :=
  [ Service "Formspree" "https://formspree.io/f/YOUR_FORM_ID" "POST";
    Service "Netlify Forms" (location_href env) "POST" ].

(** What [submitFormData] resolves with: [{ success, service }]. *)
Record submission := Submission {
  success : bool;
  service_used : string;
}.

(** The requests made, in order. *)
Definition fetched (es : list effect) : list string :=
  omap (fun e => match e with Fetch u _ _ => Some u | _ => None end) es.

(** [await fetch(endpoint, { method, headers, body })]: resolves with the
    response's [ok] flag or throws. *)
Definition fetch (env : browser) (endpoint method : string)
    (body : gmap string string) : M validator bool :=
  fun v =>
    let n := List.length (fetched (effects v)) in
    let v1 := log_effect (Fetch endpoint method body) v in
    match network env n endpoint with
    | NetworkError => Throw "TypeError: Failed to fetch" v1
    | Response ok => Ret ok v1
    end.

(** The [for (const service of services)] loop: [Some] when a [return]
    inside the loop was reached. *)
Fixpoint try_services (env : browser) (ss : list service)
    (data : gmap string string) : M validator (option submission) :=
  match ss with
  | [] => ret None
  | service :: rest =>
      returned ←
        try_catch
          (ok ← fetch env (endpoint service) (method service) data ;
           if ok then ret (Some (Submission true (service_name service)))
           else ret None)
          (fun error =>
             modify (log_effect
                       (ConsoleWarn (service_name service ++ " failed: " ++ error))) ;;
             ret None) ;
      match returned with
      | Some r => ret (Some r)
      | None => try_services env rest data
      end
  end.

(** [data.key] inside a template literal. *)
Definition field_text (data : gmap string string) (key : string) : string :=
  default "undefined" (data !! key).

(** The link [fallbackToMailto] opens. *)
Definition mailtoLink (data : gmap string string) : string :=
  let subject :=
    encodeURIComponent
      (if truthy (data !! "subject") then default "" (data !! "subject")
       else "Contact Form Submission") in
  let body :=
    encodeURIComponent
      ("Name: " ++ field_text data "name" ++ newline
       ++ "Email: " ++ field_text data "email" ++ newline ++ newline
       ++ "Message:" ++ newline ++ field_text data "message") in
  "mailto:sadaruwan12@gmail.com?subject=" ++ subject ++ "&body=" ++ body.

(** [fallbackToMailto(data)] *)
Definition fallbackToMailto (data : gmap string string) : M validator unit :=
  modify (log_effect (Navigate (mailtoLink data))).

(** [submitFormData(data)] *)
Definition submitFormData (env : browser) (data0 : gmap string string)
    : M validator submission :=
  let data :=
    if includes (location_hostname env) "netlify"
    then <["form-name" := "contact"]> data0
    else data0 in
  returned ← try_services env (services env) data ;
  match returned with
  | Some r => ret r
  | None =>
      fallbackToMailto data ;;
      ret (Submission true "mailto")
  end.

(** [form.reset()]: the [reset] event reaches the listener registered in
    [init], then the controls take their default values. *)
Definition form_reset (fm : Form.form) : Form.form :=
  set_inputs (map (fun i => set_value (defaultValue i) i)) (handleReset fm).

Definition success_message : string :=
  "Message sent successfully! I'll get back to you soon.".
Definition failure_message : string :=
  "Failed to send message. Please try again or contact me directly.".

(** [submitForm()].  The asynchronous body is run to completion: the
    state it returns is the one reached once the awaited promise has
    settled and the [finally] block has run. *)
Definition submitForm (env : browser) : M validator unit :=
  modify (set_isSubmitting true) ;;
  submitButton ← gets (fun v => submitButton (form v)) ;
  match submitButton with
  | None =>
      fun v => Throw "TypeError: Cannot read properties of null" v
  | Some button =>
      let originalText := innerHTML button in
      modify (on_form (set_submitButton
                         (fun _ => Some (Button true sending_innerHTML)))) ;;
      modify (on_form (showFormStatus "Sending your message..." "loading")) ;;
      try_catch
        (data ← gets (fun v => formData (form v)) ;
         result ← submitFormData env data ;
         modify (on_form (showFormStatus success_message "success")) ;;
         modify (on_form form_reset) ;;
         modify (on_form handleReset))
        (fun error =>
           modify (log_effect (ConsoleError ("Form submission error: " ++ error))) ;;
           modify (on_form (showFormStatus failure_message "error"))) ;;
      modify (set_isSubmitting false) ;;
      modify (on_form (set_submitButton
                         (fun _ => Some (Button false originalText))))
  end.

(** [handleSubmit(event)].  [submitForm()] is called without [await]: if
    its promise rejects, the rejection is unhandled and the handler
    itself still returns. *)
Definition handleSubmit (env : browser) (v : validator) : validator :=
  if isSubmitting v then v
  else
    let '(isValid, fm) := validateForm (form v) in
    let v1 := on_form (fun _ => fm) v in
    if isValid then
      match submitForm env v1 with
      | Ret _ v2 => v2
      | Throw e v2 => log_effect (UnhandledRejection e) v2
      end
    else
      on_form (showFormStatus "Please fix the validation errors above." "error") v1.

(** *** Observations used to state the properties *)

(** The links opened, in order. *)
Definition navigated (es : list effect) : list string :=
  omap (fun e => match e with Navigate u => Some u | _ => None end) es.

(** An input without its classes: what validation leaves as it is. *)
Definition without_classes (i : Form.input) : Form.input :=
  set_classList (fun _ => ∅) i.

(** [fm'] is [fm] up to what validating the input at position [n], whose
    error element has id [k], may change: the classes of that input, and the
    text and classes of that error element. *)
Definition validated_only (n : nat) (k : string) (fm fm' : Form.form) : Prop :=
  (forall j, j <> n -> inputs fm' !! j = inputs fm !! j) /\
  (forall j, without_classes <$> inputs fm' !! j =
             without_classes <$> inputs fm !! j) /\
  (forall k', k' <> k -> errors fm' !! k' = errors fm !! k') /\
  (forall k', is_Some (errors fm' !! k') <-> is_Some (errors fm !! k')) /\
  formStatus fm' = formStatus fm /\
  submitButton fm' = submitButton fm.

(** The same, whatever the input validated. *)
Definition same_controls (fm fm' : Form.form) : Prop :=
  (forall j, without_classes <$> inputs fm' !! j =
             without_classes <$> inputs fm !! j) /\
  (forall k', is_Some (errors fm' !! k') <-> is_Some (errors fm !! k')) /\
  formStatus fm' = formStatus fm /\
  submitButton fm' = submitButton fm.

(** The name [validateField] gives a field in its messages. *)
Definition fieldName (input : Form.input) : string :=
  if falsy_string (name input) then id input else name input.

(** The input at position [n] is marked as failing the required check:
    it carries the class [error] and not [valid], and the error element [k]
    shows the message with the classes [show] and [required-error]. *)
Definition marked_required (n : nat) (k message : string) (fm : Form.form) : Prop :=
  (exists input, inputs fm !! n = Some input /\
     "error" ∈ classList input /\ "valid" ∉ classList input) /\
  (exists e, errors fm !! k = Some e /\
     textContent e = message /\
     "show" ∈ classes e /\ "required-error" ∈ classes e).

(** The first endpoint. *)
Definition formspree_endpoint : string := "https://formspree.io/f/YOUR_FORM_ID".

(** The data [submitFormData] sends: the form's, with [form-name] added
    on a Netlify host. *)
Definition payload (env : browser) (data : gmap string string)
    : gmap string string :=
  if includes (location_hostname env) "netlify"
  then <["form-name" := "contact"]> data
  else data.

(** An effect of a submission that ran without an error being reported:
    a POST request, a warning, or the opening of a link. *)
Definition quiet_effect (e : effect) : Prop :=
  match e with
  | Fetch _ m _ => m = "POST"
  | ConsoleWarn _ | Navigate _ => True
  | ConsoleError _ | UnhandledRejection _ => False
  end.

(** A [fetch] attempt fails when the network rejects it or answers with a
    response that is not [ok]. *)
Definition attempt_fails (o : fetch_outcome) : bool :=
  match o with
  | NetworkError => true
  | Response ok => negb ok
  end.

End ContactFormValidator.


(* ===================================================================== *)
(** ** navigation.js and the focus management of accessibility.js        *)
(* ===================================================================== *)

Module Navigation.

(** Where the keyboard focus is: on the [i]-th [.mobile-nav-link] of the
    mobile navigation, on the toggle button, on another element inside
    the mobile navigation, or outside of both. *)
Inductive focus_target :=
| OnLink (i : nat)
| OnToggle
| OtherInNav
| Outside.

#[global] Instance focus_target_eq_dec : EqDecision focus_target.
Proof. solve_decision. Defined.

(** Callbacks handed to [setTimeout]. *)
Inductive task :=
| ResetAnimating      (* isAnimating = false *)
| FocusFirstLink.     (* focus the first .mobile-nav-link, if any *)

(** The page as the navigation scripts see it:
    - [toggle_attrs]: attributes of [.mobile-nav-toggle];
    - [nav_attrs]: attributes of [.mobile-navigation];
    - [links]: how many [.mobile-nav-link] elements the navigation holds;
    - [body_overflow], [body_classes]: [document.body.style.overflow] and
      [document.body.classList];
    - [isAnimating]: the flag of [initMobileNavigation]'s closure;
    - [activeElement]: [document.activeElement];
    - [timers]: pending [setTimeout] callbacks with their delays. *)
Record page := Page {
  toggle_attrs : gmap string string;
  nav_attrs : gmap string string;
  links : nat;
  body_overflow : string;
  body_classes : gset string;
  isAnimating : bool;
  activeElement : focus_target;
  timers : list (nat * task);
}.

Definition set_aria (expanded hidden : string) (p : page) : page :=
  Page (<["aria-expanded" := expanded]> (toggle_attrs p))
       (<["aria-hidden" := hidden]> (nav_attrs p))
       (links p) (body_overflow p) (body_classes p) (isAnimating p)
       (activeElement p) (timers p).
Definition set_body (overflow : string) (f : gset string -> gset string)
    (p : page) : page :=
  Page (toggle_attrs p) (nav_attrs p) (links p) overflow (f (body_classes p))
       (isAnimating p) (activeElement p) (timers p).
Definition set_body_classes (f : gset string -> gset string) (p : page) : page :=
  Page (toggle_attrs p) (nav_attrs p) (links p) (body_overflow p)
       (f (body_classes p)) (isAnimating p) (activeElement p) (timers p).
Definition set_isAnimating (b : bool) (p : page) : page :=
  Page (toggle_attrs p) (nav_attrs p) (links p) (body_overflow p)
       (body_classes p) b (activeElement p) (timers p).
Definition focus (t : focus_target) (p : page) : page :=
  Page (toggle_attrs p) (nav_attrs p) (links p) (body_overflow p)
       (body_classes p) (isAnimating p) t (timers p).
Definition setTimeout (t : task) (delay : nat) (p : page) : page :=
  Page (toggle_attrs p) (nav_attrs p) (links p) (body_overflow p)
       (body_classes p) (isAnimating p) (activeElement p)
       (timers p ++ [(delay, t)]).
Definition set_timers (l : list (nat * task)) (p : page) : page :=
  Page (toggle_attrs p) (nav_attrs p) (links p) (body_overflow p)
       (body_classes p) (isAnimating p) (activeElement p) l.

(** [mobileToggle.getAttribute("aria-expanded") === "true"] *)
Definition isExpanded (p : page) : bool :=
  bool_decide (toggle_attrs p !! "aria-expanded" = Some "true").

(** *** navigation.js, [initMobileNavigation] *)

(** [toggleMobileNav()] *)
Definition toggleMobileNav (p : page) : page :=
  if isAnimating p then p
  else
    let newState := negb (isExpanded p) in
    let p1 := set_isAnimating true p in
    let p2 := set_aria (bool_toString newState) (bool_toString (negb newState)) p1 in
    let p3 :=
      if newState
      then set_body "hidden" (fun c => {["mobile-nav-open"]} ∪ c) p2
      else set_body "" (fun c => c ∖ {["mobile-nav-open"]}) p2 in
    setTimeout ResetAnimating 300 p3.

(** [closeMobileNav()] *)
Definition closeMobileNav (p : page) : page :=
  if isAnimating p then p
  else set_body "" (fun c => c ∖ {["mobile-nav-open"]}) (set_aria "false" "true" p).

(** A keyboard event; its target is the focused element. *)
Record keydown_event := Keydown {
  key : string;
  shiftKey : bool;
}.

(** Is the focused element inside [.mobile-navigation]? *)
Definition target_in_nav (p : page) : bool :=
  match activeElement p with
  | OnLink _ | OtherInNav => true
  | OnToggle | Outside => false
  end.

(** The [keydown] listener on [document]: close on Escape. *)
Definition document_keydown (e : keydown_event) (p : page) : page :=
  if String.eqb (key e) "Escape" then closeMobileNav p else p.

(** *** The focus trap, written the same way in [initFocusManagement] of
    navigation.js and of accessibility.js.  The result says whether
    [preventDefault] was called. *)
Definition trap_focus (e : keydown_event) (p : page) : bool * page :=
  if String.eqb (key e) "Tab" then
    let firstElement := if Nat.ltb 0 (links p) then Some (OnLink 0) else None in
    let lastElement :=
      if Nat.ltb 0 (links p) then Some (OnLink (links p - 1)) else None in
    if shiftKey e then
      if bool_decide (Some (activeElement p) = firstElement)
      then (true, focus (default Outside lastElement) p)
      else (false, p)
    else
      if bool_decide (Some (activeElement p) = lastElement)
      then (true, focus (default Outside firstElement) p)
      else (false, p)
  else (false, p).

(** The [click] listeners of the toggle that focus the first link once
    the menu is open (one in each script). *)
Definition focus_first_on_open (p : page) : page :=
  if isExpanded p then setTimeout FocusFirstLink 100 p else p.

(** [mobileToggle.click()]: the listeners on the toggle, in the order the
    scripts add them; the [document] listener that closes the menu on an
    outside click does nothing, since the target is the toggle. *)
Definition click_toggle (with_accessibility : bool) (p : page) : page :=
  let p1 := toggleMobileNav p in
  let p2 := focus_first_on_open p1 in
  if with_accessibility then focus_first_on_open p2 else p2.

(** The [keydown] listener accessibility.js adds to the mobile
    navigation: the trap, then Escape. *)
Definition accessibility_nav_keydown (e : keydown_event) (p : page)
    : bool * page :=
  let '(prevented, p1) := trap_focus e p in
  if String.eqb (key e) "Escape"
  then (prevented, focus OnToggle (click_toggle true p1))
  else (prevented, p1).

(** The [keydown] listener accessibility.js adds to [document]
    ([initKeyboardDetection]). *)
Definition keyboard_detection (e : keydown_event) (p : page) : page :=
  if String.eqb (key e) "Tab"
  then set_body_classes (fun c => ({["keyboard-user"]} ∪ c) ∖ {["mouse-user"]}) p
  else p.

(** What the browser does with a Tab key that no listener prevented, for
    a focus on a link of the navigation: the next (with Shift, the
    previous) link takes the focus, and from the last (first) one the focus
    leaves the navigation.  This is the page's tab order when the links
    follow one another in it; it is the browser's part, not the scripts'. *)
Definition default_tab (e : keydown_event) (p : page) : page :=
  if String.eqb (key e) "Tab" then
    match activeElement p with
    | OnLink i =>
        if shiftKey e
        then (if Nat.eqb i 0 then focus Outside p else focus (OnLink (i - 1)) p)
        else (if Nat.ltb (i + 1) (links p) then focus (OnLink (i + 1)) p
              else focus Outside p)
    | _ => p
    end
  else p.

(** A [keydown] event on the focused element: the listeners of the mobile
    navigation when the target is inside it, then those of [document],
    then the default action unless a listener prevented it. *)
Definition keydown (with_accessibility : bool) (e : keydown_event) (p : page)
    : page :=
  let inside := target_in_nav p in
  let '(prevented1, p1) := if inside then trap_focus e p else (false, p) in
  let '(prevented2, p2) :=
    if inside && with_accessibility then accessibility_nav_keydown e p1
    else (false, p1) in
  let p3 := document_keydown e p2 in
  let p4 := if with_accessibility then keyboard_detection e p3 else p3 in
  if prevented1 || prevented2 then p4 else default_tab e p4.

(** A timer fires: the [n]-th pending callback runs and is removed. *)
Definition run_task (t : task) (p : page) : page :=
  match t with
  | ResetAnimating => set_isAnimating false p
  | FocusFirstLink => if Nat.ltb 0 (links p) then focus (OnLink 0) p else p
  end.

Definition timer_fires (n : nat) (p : page) : page :=
  match timers p !! n with
  | Some (_, t) => run_task t (set_timers (delete n (timers p)) p)
  | None => p
  end.

(** *** Observations used to state the properties *)

(** The mobile navigation is closed: [aria-expanded] is "false" on the
    toggle and [aria-hidden] is "true" on the navigation. *)
Definition closed (p : page) : Prop :=
  toggle_attrs p !! "aria-expanded" = Some "false" /\
  nav_attrs p !! "aria-hidden" = Some "true".

(** The focus is on one of the navigation's links. *)
Definition focus_on_link (p : page) : Prop :=
  exists i, activeElement p = OnLink i /\ i < links p.

Definition Tab : keydown_event := Keydown "Tab" false.
Definition ShiftTab : keydown_event := Keydown "Tab" true.
Definition Escape : keydown_event := Keydown "Escape" false.

End Navigation.


(* ===================================================================== *)
(** ** accessibility.js : form validation feedback                       *)
(* ===================================================================== *)

Module Accessibility.
Import Form.

Section Validation.

(** The comparison [n < s] of a number with an attribute value, which
    JavaScript makes after converting the string to a number. *)
Variable number_lt_string : nat -> string -> bool.

(** [getFieldLabel(field)] *)
Definition getFieldLabel (field : Form.input) (fm : Form.form) : string :=
  match labels fm !! id field with
  | Some label =>
      match code_property label with
      | Some text => text
      | None => trim (label_text label)
      end
  | None => if falsy_string (name field) then "Field" else name field
  end.

(** The first part of [validateField(field)]: the verdict and the error
    message. *)
Definition check_field (field : Form.input) (fm : Form.form) : bool * string :=
  let value := trim (value field) in
  let fieldType := type field in
  let isRequired := bool_decide (is_Some (attributes field !! "required")) in
  if isRequired && falsy_string value then
    (false, getFieldLabel field fm ++ " is required.")
  else if String.eqb fieldType "email" && negb (falsy_string value) then
    if negb (email_regex_test value)
    then (false, "Please enter a valid email address.")
    else (true, "")
  else
    match attributes field !! "minlength" with
    | Some minlength =>
        if number_lt_string (js_length value) minlength
        then (false, getFieldLabel field fm ++ " must be at least "
                       ++ minlength ++ " characters.")
        else (true, "")
    | None => (true, "")
    end.

(** [validateField(field)], for the input at position [n]. *)
Definition validateField (n : nat) (fm : Form.form) : bool * Form.form :=
  match inputs fm !! n with
  | None => (true, fm)
  | Some field =>
      let value := trim (value field) in
      let fieldType := type field in
      let isRequired := bool_decide (is_Some (attributes field !! "required")) in
      let '(isValid, errorMessage) := check_field field fm in
      let fm1 :=
        update_input n
          (fun i =>
             set_classList
               (fun c => if negb isValid then {["error"]} ∪ c else c ∖ {["error"]})
               (set_attributes
                  (<["aria-invalid" := if isValid then "false" else "true"]>) i))
          fm in
      (* document.getElementById(null) looks for the id "null" *)
      let errorId := default "null" (attributes field !! "aria-describedby") in
      let fm2 :=
        set_errors
          (alter (fun _ =>
                    ErrorElement errorMessage
                      (if isValid then {["error-message"]}
                       else
                         {[ if String.eqb fieldType "email" then "email-error"
                            else if isRequired && falsy_string value
                                 then "required-error"
                                 else "length-error" ]}
                         ∪ ({["show"]} ∪ {["error-message"]})))
             errorId) fm1 in
      (isValid, fm2)
  end.

(** [showFormStatus(type, message)] (the timer that hides a success
    message after five seconds is not modelled). *)
Definition showFormStatus (type message : string) (fm : Form.form) : Form.form :=
  set_formStatus
    (fmap (fun st => StatusElement message ("form-status " ++ type ++ " show")
                       (<["aria-live" := "polite"]> (status_attributes st)))) fm.

(** The loop of the [submit] listener over the inputs, from position [n]. *)
Fixpoint validate_inputs (count n : nat) (isValid : bool) (fm : Form.form)
    : bool * Form.form :=
  match count with
  | 0 => (isValid, fm)
  | S count' =>
      let '(ok, fm1) := validateField n fm in
      validate_inputs count' (S n) (if negb ok then false else isValid) fm1
  end.

(** The [submit] listener of [initFormAccessibility] (moving the focus to
    the status or to the first invalid field is not modelled). *)
Definition submit_listener (fm : Form.form) : Form.form :=
  let '(isValid, fm1) := validate_inputs (List.length (inputs fm)) 0 true fm in
  if isValid then showFormStatus "success" "Message sent successfully!" fm1
  else showFormStatus "error" "Please correct the errors above." fm1.

End Validation.

(** The comparison for attribute values that are plain decimal numbers,
    as HTML requires of [minlength]: a string of decimal digits converts
    to the number it writes and the empty string to 0; any other string is
    taken to convert to [NaN], which compares as false.  (JavaScript also
    converts strings with a sign, a fraction, an exponent, a radix prefix
    or white space around the number; these are not modelled.) *)
Definition decimal_lt (n : nat) (s : string) : bool :=
  if all_chars (fun c => bool_decide (is_Some (digit_value 10 c))) s then
    match parse_digits 10 s None with
    | Some z => (Z.of_nat n <? z)%Z
    | None => false
    end
  else false.

End Accessibility.

(* ===================================================================== *)
(** ** The service worker                                                *)
(* ===================================================================== *)

Module ServiceWorker.
Local Open Scope js_scope.

Record response := Response {
  status : nat;
  rtype : string;     (* response.type *)
  body : string;
}.

Record request := Request {
  method : string;
  url : string;
  mode : string;
}.

(** The worker's view of the browser:
    - [origin]: [self.location.origin];
    - [caches]: the cache storage, the named caches in creation order,
      each a map from request URL to response;
    - [skippedWaiting], [claimed]: [self.skipWaiting()] and
      [self.clients.claim()] were called. *)
Record worker := Worker {
  origin : string;
  caches : list (string * gmap string response);
  skippedWaiting : bool;
  claimed : bool;
}.

Definition set_caches
    (f : list (string * gmap string response) -> list (string * gmap string response))
    (w : worker) : worker :=
  Worker (origin w) (f (caches w)) (skippedWaiting w) (claimed w).

Definition CACHE_NAME : string := "csharp-portfolio-v1".
Definition STATIC_CACHE_URLS : list string :=
  ["/"; "/css/main.css"; "/js/bundle.js"; "/offline.html"].

(** The network: the response to a GET of a URL, or [None] when the
    request fails. *)
Definition network := string -> option response.

(** A URL resolved against the worker's origin. *)
Definition resolve (w : worker) (u : string) : string :=
  if String.prefix "/" u then origin w ++ u else u.

(** The cache named [name], if there is one. *)
Fixpoint lookup_cache (name : string)
    (cs : list (string * gmap string response)) : option (gmap string response) :=
  match cs with
  | [] => None
  | (n, c) :: rest => if String.eqb n name then Some c else lookup_cache name rest
  end.

(** [caches.open(name)]: creates the cache when it is missing. *)
Definition caches_open (name : string)
    (cs : list (string * gmap string response))
    : list (string * gmap string response) :=
  match lookup_cache name cs with
  | Some _ => cs
  | None => cs ++ [(name, ∅)]
  end.

(** [cache.put] / the writes of [cache.addAll] on the cache [name]. *)
Fixpoint update_cache (name : string)
    (f : gmap string response -> gmap string response)
    (cs : list (string * gmap string response))
    : list (string * gmap string response) :=
  match cs with
  | [] => []
  | (n, c) :: rest =>
      if String.eqb n name then (n, f c) :: rest
      else (n, c) :: update_cache name f rest
  end.

(** [caches.match(request)]: the first cache, in creation order, that
    holds the URL answers. *)
Fixpoint caches_match (u : string)
    (cs : list (string * gmap string response)) : option response :=
  match cs with
  | [] => None
  | (_, c) :: rest =>
      match c !! u with
      | Some r => Some r
      | None => caches_match u rest
      end
  end.

(** [caches.keys()] *)
Definition caches_keys (cs : list (string * gmap string response)) : list string :=
  map fst cs.

(** [caches.delete(name)] *)
Definition caches_delete (name : string)
    (cs : list (string * gmap string response))
    : list (string * gmap string response) :=
  filter (fun nc => nc.1 <> name) cs.

(** [response.ok] *)
Definition ok (r : response) : bool :=
  Nat.leb 200 (status r) && Nat.leb (status r) 299.

(** The fetches of [cache.addAll(urls)]: all the responses, or [None] as
    soon as a request fails or a response is not [ok]. *)
Fixpoint fetch_all (net : network) (urls : list string)
    : option (list (string * response)) :=
  match urls with
  | [] => Some []
  | u :: rest =>
      match net u with
      | Some r =>
          if ok r then
            match fetch_all net rest with
            | Some l => Some ((u, r) :: l)
            | None => None
            end
          else None
      | None => None
      end
  end.

(** The [install] listener: the promise handed to [event.waitUntil]. *)
Definition install (net : network) : M worker unit :=
  modify (set_caches (caches_open CACHE_NAME)) ;;
  w ← gets (fun w => w) ;
  match fetch_all net (map (resolve w) STATIC_CACHE_URLS) with
  | None => fun w => Throw "TypeError: Request failed" w
  | Some entries =>
      modify (set_caches
                (update_cache CACHE_NAME
                   (fun c => fold_left (fun c ur => <[ur.1 := ur.2]> c) entries c))) ;;
      modify (fun w => Worker (origin w) (caches w) true (claimed w))
  end.

(** The [activate] listener. *)
Definition activate : M worker unit :=
  cacheNames ← gets (fun w => caches_keys (caches w)) ;
  modify (set_caches
            (fun cs =>
               fold_left (fun cs cacheName => caches_delete cacheName cs)
                 (filter (fun cacheName => cacheName <> CACHE_NAME) cacheNames)
                 cs)) ;;
  modify (fun w => Worker (origin w) (caches w) (skippedWaiting w) true).

(** What the [fetch] listener does with an event: it leaves it to the
    browser, or calls [event.respondWith] with a promise that resolves with
    a response or with [undefined]. *)
Inductive handling :=
| NotHandled
| RespondWith (r : option response).

(** The [fetch] listener, with the promise it hands to
    [event.respondWith] run to its end before anything else happens;
    [ServiceWorkerRuns] below has the callbacks one at a time. *)
Definition on_fetch (net : network) (req : request) (w : worker)
    : handling * worker :=
  if negb (String.eqb (method req) "GET") then (NotHandled, w)
  else if negb (String.prefix (origin w) (url req)) then (NotHandled, w)
  else
    match caches_match (url req) (caches w) with
    | Some cachedResponse => (RespondWith (Some cachedResponse), w)
    | None =>
        match net (url req) with
        | Some response =>
            if negb (Nat.eqb (status response) 200)
               || negb (String.eqb (rtype response) "basic")
            then (RespondWith (Some response), w)
            else
              (RespondWith (Some response),
               set_caches
                 (fun cs => update_cache CACHE_NAME (<[url req := response]>)
                              (caches_open CACHE_NAME cs)) w)
        | None =>
            if String.eqb (mode req) "navigate"
            then (RespondWith (caches_match (resolve w "/offline.html") (caches w)), w)
            else (RespondWith None, w)
        end
    end.

(** *** Observations used to state the properties *)

(** The cache named by the version string (empty when it does not
    exist). *)
Definition version_cache (w : worker) : gmap string response :=
  default ∅ (lookup_cache CACHE_NAME (caches w)).

(** Cache names are unique in a cache storage. *)
Definition well_formed (w : worker) : Prop :=
  NoDup (caches_keys (caches w)).

(** Every cache in the storage is named by the version string: the state
    the [activate] listener leaves, in which [fetch] events are served. *)
Definition only_version_cache (w : worker) : Prop :=
  well_formed w /\ Forall (fun nc => nc.1 = CACHE_NAME) (caches w).

End ServiceWorker.


(* ===================================================================== *)
(** ** The contact form: what validation decides and leaves behind       *)
(* ===================================================================== *)

Module ContactFormChecks.
Import Form ContactFormValidator.

(** Does the field, with its value trimmed, satisfy the rules?  The
    order of the tests is that of [validateField]. *)
Definition field_passes (r : rules) (input : Form.input) : bool :=
  let value := trim (value input) in
  if required r && falsy_string value then false
  else if falsy_string value && negb (required r) then true
  else if bool_decide (rtype r = Some "email") && negb (isValidEmail value)
  then false
  else if rule_set (minLength r)
          && (Z.of_nat (js_length value) <? default 0 (minLength r))%Z
  then false
  else if rule_set (maxLength r)
          && (default 0 (maxLength r) <? Z.of_nat (js_length value))%Z
  then false
  else true.

(** The verdict [validateForm] reaches on one entry of its table, read on
    the form as it stands: a field that is missing, or whose error element
    is missing, is passed over. *)
Definition field_verdict (field : string * rules) (fm : Form.form) : bool :=
  match querySelector_id field.1 fm with
  | None => true
  | Some n =>
      match inputs fm !! n with
      | None => true
      | Some input =>
          match errors fm !! (id input ++ "-error") with
          | None => true
          | Some _ => field_passes field.2 input
          end
      end
  end.

(** The marks a validated field carries: the classes [error] and [valid]
    of the input at position [n], and the text and the class [show] of the
    error element [k], for a verdict [ok]. *)
Definition field_marks (ok : bool) (n : nat) (k : string) (fm : Form.form) : Prop :=
  (exists input, inputs fm !! n = Some input /\
     ("error" ∈ classList input <-> ok = false) /\
     ("valid" ∈ classList input <-> ok = true)) /\
  (exists e, errors fm !! k = Some e /\
     ("show" ∈ classes e <-> ok = false) /\
     (textContent e = "" <-> ok = true)).

(** The field with id [i] is in the form, at position [n], together with
    its error element. *)
Definition present (i : string) (n : nat) (input : Form.input) (fm : Form.form)
    : Prop :=
  querySelector_id i fm = Some n /\
  inputs fm !! n = Some input /\
  is_Some (errors fm !! (i ++ "-error")).

(** The characters [encodeURIComponent] can produce: the ones it leaves
    alone, the percent sign and the hexadecimal digits. *)
Definition uri_safe (c : ascii) : bool :=
  uri_unreserved c || Ascii.eqb c "%".

End ContactFormChecks.


(* ===================================================================== *)
(** ** Theme manager: debugging information and observations            *)
(* ===================================================================== *)

Module ThemeInfo.
Import ThemeToggle.
Local Open Scope js_scope.

(** The object [getThemeInfo()] returns; [supportsSystemTheme] is
    [None] for [undefined]. *)
Record theme_info := ThemeInfoOf {
  current : string;
  stored_theme : option string;
  system : string;
  supportsSystemTheme : option bool;
}.

(** [getThemeInfo()] *)
Definition getThemeInfo : M page theme_info :=
  current ← getCurrentTheme ;
  stored ← getStoredTheme ;
  system ← getSystemTheme ;
  supports ← gets (fun p => match prefers_dark p with
                            | None => None
                            | Some _ => Some true
                            end) ;
  ret (ThemeInfoOf current stored system supports).

(** The listener [initKeyboardShortcuts] registers, on a [keydown]
    event; the result tells whether [preventDefault] was called. *)
Definition shortcut_keydown (ctrlKey shiftKey : bool) (key : string) : M page bool :=
  if ctrlKey && shiftKey && seq key "T" then
    toggle ;; ret true
  else ret false.

(** What [getCurrentTheme] returns on a page. *)
Definition current_theme (p : page) : string :=
  if truthy (applied_theme p) then default "" (applied_theme p)
  else system_theme p.

(** The state [initToggleButtons] leaves behind. *)
Definition initialised (p : page) : page :=
  set_elements
    (map (fun button =>
            if is_toggle button then updateButtonAria button (current_theme p)
            else button)) p.

(** The last [themechange] event, if there was one, announced the theme
    that is applied now. *)
Definition events_in_sync (p : page) : Prop :=
  match last (dispatched p) with
  | None => True
  | Some theme => applied_theme p = if seq theme AUTO then None else Some theme
  end.

(** [b'] is [b] up to what the theme manager owns: nothing when [b] is
    no toggle; otherwise the attributes [aria-pressed] and [aria-label],
    the classes [theme-toggle--dark] and [theme-toggle--light], and the
    texts of the two children. *)
Definition same_but_theme (b b' : element) : Prop :=
  is_toggle b' = is_toggle b /\
  (is_toggle b = false -> b' = b) /\
  (forall k, k <> "aria-pressed" -> k <> "aria-label" ->
     attrs b' !! k = attrs b !! k) /\
  (forall c, c <> "theme-toggle--dark" -> c <> "theme-toggle--light" ->
     c ∈ classList b' <-> c ∈ classList b) /\
  (is_Some (text_child b') <-> is_Some (text_child b)) /\
  (is_Some (icon_child b') <-> is_Some (icon_child b)).

(** A toggle shows one state: exactly one of the two classes, and a
    label that fits [aria-pressed]. *)
Definition shows_one_state (b : element) : Prop :=
  ("theme-toggle--dark" ∈ classList b <-> "theme-toggle--light" ∉ classList b) /\
  exists pressed : bool,
    attrs b !! "aria-pressed" = Some (bool_toString pressed) /\
    attrs b !! "aria-label" =
      Some (if pressed then "Switch to light theme" else "Switch to dark theme").

(** The storage can be read and written. *)
Definition writable (p : page) : Prop :=
  is_Some (storage p) /\ quota_exceeded p = false.

(** A non-empty preference is stored and it is the one in force: a
    stored theme other than "auto" is the [data-theme] attribute, and with
    "auto" the current theme is the system's. *)
Definition preference_in_force (p : page) : Prop :=
  exists s,
    stored storageKey p = Some s /\ s <> "" /\
    if seq s AUTO then current_theme p = system_theme p
    else applied_theme p = Some s.

End ThemeInfo.


(* ===================================================================== *)
(** ** navigation.js and accessibility.js: the other listeners           *)
(* ===================================================================== *)

Module NavigationEvents.
Import Navigation.

(** [handleViewportChange()] of [initMobileOptimizations]: the menu is
    closed whatever [isAnimating] says. *)
Definition handleViewportChange (p : page) : page :=
  set_body "" (fun c => c ∖ {["mobile-nav-open"]}) (set_aria "false" "true" p).

(** The [click] listener [initSmoothScrolling] adds to a link whose
    [href] starts with "#", when the target element exists, as far as the
    menu goes: the attributes and the overflow are reset, the class of
    [document.body] is left alone. *)
Definition smooth_scroll_close (p : page) : page :=
  set_body "" (fun c => c) (set_aria "false" "true" p).

(** A click on a [.mobile-nav-link]: the listeners of the link in the
    order they were added ([closeMobileNav], then the smooth scrolling one
    for an anchor with a target); the [document] listener does nothing,
    the target being inside the navigation. *)
Definition link_click (anchor_with_target : bool) (p : page) : page :=
  let p1 := closeMobileNav p in
  if anchor_with_target then smooth_scroll_close p1 else p1.

(** A click outside of the toggle and the navigation, possibly on an
    anchor link with a target: the link's listener, then the [document]
    listener. *)
Definition outside_click (anchor_with_target : bool) (p : page) : page :=
  let p1 := if anchor_with_target then smooth_scroll_close p else p in
  closeMobileNav p1.

(** The callback the [resize] and [orientationchange] listeners of
    [initMobileNavigation] hand to [setTimeout], when it runs. *)
Definition resize_settled (innerWidth : Z) (p : page) : page :=
  if (768 <=? innerWidth)%Z then closeMobileNav p else p.

(** The [keydown] listener [initKeyboardNavigation] adds to every link;
    the result says whether [preventDefault] was called. *)
Definition link_keydown (e : keydown_event) (anchor_with_target : bool) (p : page)
    : bool * page :=
  if String.eqb (key e) "Enter" || String.eqb (key e) " "
  then (true, link_click anchor_with_target p)
  else (false, p).

(** [initKeyboardDetection] of accessibility.js: the [mousedown] and
    [touchstart] listeners. *)
Definition mousedown (p : page) : page :=
  set_body_classes (fun c => ({["mouse-user"]} ∪ c) ∖ {["keyboard-user"]}) p.
Definition touchstart (p : page) : page :=
  set_body_classes (fun c => {["touch-user"]} ∪ c) p.

(** What can happen to the page. *)
Inductive event :=
| ToggleClick
| LinkClick (anchor_with_target : bool)
| OutsideClick (anchor_with_target : bool)
| Key (e : keydown_event) (anchor_with_target : bool)
| TimerFires (n : nat)
| ResizeSettled (innerWidth : Z)
| ViewportChange
| MouseDown
| TouchStart.

(** The listeners that run on an event; [with_accessibility] tells
    whether accessibility.js is loaded besides navigation.js.  A key
    pressed on a link first reaches the link's own listener. *)
Definition handle (with_accessibility : bool) (ev : event) (p : page) : page :=
  match ev with
  | ToggleClick => click_toggle with_accessibility p
  | LinkClick a => link_click a p
  | OutsideClick a => outside_click a p
  | Key e a =>
      let p1 := match activeElement p with
                | OnLink _ => (link_keydown e a p).2
                | _ => p
                end in
      keydown with_accessibility e p1
  | TimerFires n => timer_fires n p
  | ResizeSettled w => resize_settled w p
  | ViewportChange => handleViewportChange p
  | MouseDown => if with_accessibility then mousedown p else p
  | TouchStart => if with_accessibility then touchstart p else p
  end.

Fixpoint run (with_accessibility : bool) (evs : list event) (p : page) : page :=
  match evs with
  | [] => p
  | ev :: evs' => run with_accessibility evs' (handle with_accessibility ev p)
  end.

(** *** Observations *)

(** The four places that say whether the menu is open agree, up to the
    class of [document.body], which an open menu has. *)
Definition coherent (p : page) : Prop :=
  exists b : bool,
    toggle_attrs p !! "aria-expanded" = Some (bool_toString b) /\
    nav_attrs p !! "aria-hidden" = Some (bool_toString (negb b)) /\
    body_overflow p = (if b then "hidden" else "") /\
    (b = true -> "mobile-nav-open" ∈ body_classes p).

(** While [isAnimating] is set, the callback that clears it is pending. *)
Definition reset_pending (p : page) : Prop :=
  isAnimating p = true -> (300, ResetAnimating) ∈ timers p.

(** At most one of the classes [keyboard-user] and [mouse-user] is on
    [document.body]. *)
Definition one_input_kind (p : page) : Prop :=
  ~ ("keyboard-user" ∈ body_classes p /\ "mouse-user" ∈ body_classes p).

(** The same menu: everything but the pending timers. *)
Definition same_menu (p p' : page) : Prop :=
  toggle_attrs p' = toggle_attrs p /\ nav_attrs p' = nav_attrs p /\
  links p' = links p /\ body_overflow p' = body_overflow p /\
  body_classes p' = body_classes p /\ isAnimating p' = isAnimating p /\
  activeElement p' = activeElement p.

(** *** [initActiveLinks] *)

(** A [.nav-link] or [.mobile-nav-link]: the path of its [href] as
    [new URL(link.href).pathname] gives it, and its classes. *)
Record nav_link := NavLink {
  pathname : string;
  link_classes : gset string;
}.

(** The test of [initActiveLinks]. *)
Definition paths_match (currentPath linkPath : string) : bool :=
  seq currentPath linkPath ||
  (negb (seq currentPath "/") && negb (seq linkPath "/") &&
   String.prefix linkPath currentPath).

(** [initActiveLinks()] *)
Definition initActiveLinks (currentPath : string) (navLinks : list nav_link)
    : list nav_link :=
  map (fun link =>
         let c := link_classes link ∖ {["active"]} in
         NavLink (pathname link)
           (if paths_match currentPath (pathname link) then {["active"]} ∪ c else c))
      navLinks.

End NavigationEvents.


(* ===================================================================== *)
(** ** accessibility.js: the listeners of the form's inputs              *)
(* ===================================================================== *)

Module AccessibilityEvents.
Import Form.



(** What [validateField] does to the field itself, for a verdict. *)
Definition marked (isValid : bool) (i : Form.input) : Form.input :=
  set_classList
    (fun c => if negb isValid then {["error"]} ∪ c else c ∖ {["error"]})
    (set_attributes
       (<["aria-invalid" := if isValid then "false" else "true"]>) i).

End AccessibilityEvents.


(* ===================================================================== *)
(** ** The submit event of the contact form, with its two listeners      *)
(* ===================================================================== *)

Module SubmitEvent.
Import Form ContactFormValidator.
Local Open Scope js_scope.

(** Two scripts listen to [submit] on the contact form:
    experience-calculator.js with [handleSubmit] and accessibility.js with
    the listener of [initFormAccessibility].  They run one after the
    other, in the order in which they were registered.  [handleSubmit]
    returns as soon as [submitForm] reaches its first [await], and what is
    left of [submitForm] runs after the other listener. *)

(** [submitForm()] when the listener [later] runs after [handleSubmit].
    [submitForm] is suspended inside [submitFormData], at its first
    [fetch]; [submitFormData] neither reads nor writes the form and
    [later] does nothing but to the form, so that [later] is run here
    before [submitFormData] as a whole. *)
Definition submitForm_then (later : Form.form -> Form.form) (env : browser)
    : M validator unit :=
  modify (set_isSubmitting true) ;;
  submitButton ← gets (fun v => submitButton (form v)) ;
  match submitButton with
  | None =>
      fun v => Throw "TypeError: Cannot read properties of null" v
  | Some button =>
      let originalText := innerHTML button in
      modify (on_form (set_submitButton
                         (fun _ => Some (Button true sending_innerHTML)))) ;;
      modify (on_form (showFormStatus "Sending your message..." "loading")) ;;
      try_catch
        (data ← gets (fun v => formData (form v)) ;
         modify (on_form later) ;;
         result ← submitFormData env data ;
         modify (on_form (showFormStatus success_message "success")) ;;
         modify (on_form form_reset) ;;
         modify (on_form handleReset))
        (fun error =>
           modify (log_effect (ConsoleError ("Form submission error: " ++ error))) ;;
           modify (on_form (showFormStatus failure_message "error"))) ;;
      modify (set_isSubmitting false) ;;
      modify (on_form (set_submitButton
                         (fun _ => Some (Button false originalText))))
  end.

(** [handleSubmit(event)] followed by the listener [later].  When
    [submitForm] throws for want of a button it has not reached an
    [await]: its promise is rejected, and [later] runs on the form as it
    is then. *)
Definition handleSubmit_then (later : Form.form -> Form.form) (env : browser)
    (v : validator) : validator :=
  if isSubmitting v then on_form later v
  else
    let '(isValid, fm) := validateForm (form v) in
    let v1 := on_form (fun _ => fm) v in
    if isValid then
      match submitForm_then later env v1 with
      | Ret _ v2 => v2
      | Throw e v2 => log_effect (UnhandledRejection e) (on_form later v2)
      end
    else
      on_form later
        (on_form (showFormStatus "Please fix the validation errors above." "error")
           v1).

(** A [submit] event on the contact form, with the listener of
    accessibility.js registered first or second. *)
Definition submit_event (accessibility_first : bool)
    (number_lt_string : nat -> string -> bool) (env : browser)
    (v : validator) : validator :=
  if accessibility_first
  then handleSubmit env (on_form (Accessibility.submit_listener number_lt_string) v)
  else handleSubmit_then (Accessibility.submit_listener number_lt_string) env v.

(** The id of the element accessibility.js writes the error message of a
    field to: [document.getElementById(null)] looks for the id "null". *)
Definition described_by (field : Form.input) : string :=
  default "null" (attributes field !! "aria-describedby").

End SubmitEvent.


(* ===================================================================== *)
(** ** The typing animation: class TypingAnimation                       *)
(* ===================================================================== *)

Module TypingAnimation.

(** The texts of the animation are JavaScript strings, given as the list
    of their UTF-16 code units: these are what [length] counts and where
    [substring] cuts.  A character outside the Basic Multilingual Plane is
    two units, and the animation shows the first of them alone for one
    step. *)
Definition js_string := list nat.

(** The code units of a text of ASCII characters. *)
Definition units_of (s : string) : js_string :=
  nat_of_ascii <$> list_ascii_of_string s.

(** [text.substring(0, k)] *)
Definition substring_to (k : nat) (s : js_string) : js_string := take k s.

(** The [.hero-cursor] element: whether it has the class [visible], and
    its [style.opacity]. *)
Record cursor_element := CursorElement {
  visible : bool;
  opacity : string;
}.

(** The element to animate, as the constructor finds it: the attribute
    [data-typing-text], the text, and the first [.hero-cursor] of the
    parent that lies outside of the element, if any.  (A cursor inside the
    element is gone once [init] has cleared the element's text, so that
    the branch of [init] that moves it out never runs.) *)
Record element := Element {
  data_typing_text : option js_string;
  element_text : js_string;
  cursor_outside : option cursor_element;
}.

(** The [options] argument; [None] stands for a missing property. *)
Record options := Options {
  o_text : option js_string;
  o_speed : option nat;
  o_delay : option nat;
  o_cursor : option js_string;
  o_loop : option bool;
  o_deleteSpeed : option nat;
  o_deleteDelay : option nat;
}.

(** Callbacks handed to [setTimeout]. *)
Inductive task :=
| Begin (show_cursor : bool)  (* of init (true) and of start (false) *)
| Tick                        (* () => this.type() *)
| StartDeleting               (* of type(), when a loop is complete *)
| HideCursor.                 (* of type(), when typing is complete *)

(** An instance, with the element's text, the cursor element and the
    pending timers. *)
Record animation := Animation {
  text : js_string;
  speed : nat;
  delay : nat;
  cursor : js_string;
  loop : bool;
  deleteSpeed : nat;
  deleteDelay : nat;
  currentIndex : nat;
  isDeleting : bool;
  isComplete : bool;
  textContent : js_string;
  cursorElement : option cursor_element;
  timers : list (nat * task);
}.

Definition set_currentIndex (n : nat) (a : animation) : animation :=
  Animation (text a) (speed a) (delay a) (cursor a) (loop a) (deleteSpeed a)
    (deleteDelay a) n (isDeleting a) (isComplete a) (textContent a)
    (cursorElement a) (timers a).
Definition set_isDeleting (b : bool) (a : animation) : animation :=
  Animation (text a) (speed a) (delay a) (cursor a) (loop a) (deleteSpeed a)
    (deleteDelay a) (currentIndex a) b (isComplete a) (textContent a)
    (cursorElement a) (timers a).
Definition set_isComplete (b : bool) (a : animation) : animation :=
  Animation (text a) (speed a) (delay a) (cursor a) (loop a) (deleteSpeed a)
    (deleteDelay a) (currentIndex a) (isDeleting a) b (textContent a)
    (cursorElement a) (timers a).
Definition set_textContent (s : js_string) (a : animation) : animation :=
  Animation (text a) (speed a) (delay a) (cursor a) (loop a) (deleteSpeed a)
    (deleteDelay a) (currentIndex a) (isDeleting a) (isComplete a) s
    (cursorElement a) (timers a).
Definition set_cursorElement (f : cursor_element -> cursor_element)
    (a : animation) : animation :=
  Animation (text a) (speed a) (delay a) (cursor a) (loop a) (deleteSpeed a)
    (deleteDelay a) (currentIndex a) (isDeleting a) (isComplete a) (textContent a)
    (f <$> cursorElement a) (timers a).
Definition set_timers (l : list (nat * task)) (a : animation) : animation :=
  Animation (text a) (speed a) (delay a) (cursor a) (loop a) (deleteSpeed a)
    (deleteDelay a) (currentIndex a) (isDeleting a) (isComplete a) (textContent a)
    (cursorElement a) l.
Definition setTimeout (t : task) (ms : nat) (a : animation) : animation :=
  set_timers (timers a ++ [(ms, t)]) a.

(** [n || d] for a number that may be missing: 0 is falsy. *)
Definition number_or (n : option nat) (d : nat) : nat :=
  match n with
  | Some (S k) => S k
  | _ => d
  end.

(** [s || d] for a string that may be missing: "" is falsy. *)
Definition string_or (s : option js_string) (d : js_string) : js_string :=
  match s with
  | Some (c :: s') => c :: s'
  | _ => d
  end.

(** [init()] *)
Definition init (a : animation) : animation :=
  let a1 := set_textContent [] a in
  let a2 := set_cursorElement (fun c => CursorElement false (opacity c)) a1 in
  setTimeout (Begin true) (delay a2) a2.

(** [new TypingAnimation(element, options)] *)
Definition new_TypingAnimation (e : element) (o : options) : animation :=
  init
    (Animation
       (string_or (o_text o) (string_or (data_typing_text e) (element_text e)))
       (number_or (o_speed o) 100)
       (number_or (o_delay o) 1000)
       (string_or (o_cursor o) (units_of "|"))
       (match o_loop o with Some true => true | _ => false end)
       (number_or (o_deleteSpeed o) 50)
       (number_or (o_deleteDelay o) 2000)
       0 false false (element_text e) (cursor_outside e) []).

(** [type()] *)
Definition type (a : animation) : animation :=
  if isDeleting a then
    if Nat.ltb 0 (currentIndex a) then
      let a1 := set_currentIndex (currentIndex a - 1) a in
      let a2 := set_textContent (substring_to (currentIndex a1) (text a1)) a1 in
      setTimeout Tick (deleteSpeed a2) a2
    else
      setTimeout Tick (speed a) (set_isDeleting false a)
  else
    if Nat.ltb (currentIndex a) (List.length (text a)) then
      let a1 := set_currentIndex (currentIndex a + 1) a in
      let a2 := set_textContent (substring_to (currentIndex a1) (text a1)) a1 in
      setTimeout Tick (speed a2) a2
    else
      let a1 := set_isComplete true a in
      if loop a1 then setTimeout StartDeleting (deleteDelay a1) a1
      else
        match cursorElement a1 with
        | Some _ => setTimeout HideCursor 2000 a1
        | None => a1
        end.

(** [reset()] *)
Definition reset (a : animation) : animation :=
  set_cursorElement (fun c => CursorElement (visible c) "1")
    (set_textContent []
       (set_isComplete false (set_isDeleting false (set_currentIndex 0 a)))).

(** [start()] *)
Definition start (a : animation) : animation :=
  let a1 := reset a in
  setTimeout (Begin false) (delay a1) a1.

(** [stop()] *)
Definition stop (a : animation) : animation :=
  set_cursorElement (fun c => CursorElement (visible c) "0")
    (set_textContent (text a) (set_isComplete true a)).

(** What a callback does when its timer fires. *)
Definition run_task (t : task) (a : animation) : animation :=
  match t with
  | Begin show_cursor =>
      type (if show_cursor
            then set_cursorElement (fun c => CursorElement true (opacity c)) a
            else a)
  | Tick => type a
  | StartDeleting => type (set_isComplete false (set_isDeleting true a))
  | HideCursor => set_cursorElement (fun c => CursorElement (visible c) "0") a
  end.

(** The [n]-th pending timer fires: its callback runs and it is removed. *)
Definition fire (n : nat) (a : animation) : animation :=
  match timers a !! n with
  | Some (_, t) => run_task t (set_timers (delete n (timers a)) a)
  | None => a
  end.

(** What can happen to an animation. *)
Inductive event :=
| Fire (n : nat)
| Reset
| Start
| Stop.

Definition handle (ev : event) (a : animation) : animation :=
  match ev with
  | Fire n => fire n a
  | Reset => reset a
  | Start => start a
  | Stop => stop a
  end.

Fixpoint run (evs : list event) (a : animation) : animation :=
  match evs with
  | [] => a
  | ev :: evs' => run evs' (handle ev a)
  end.

(** *** Observations *)

(** The element shows a beginning of the text, as long as the index says
    or all of it. *)
Definition shows_prefix (a : animation) : Prop :=
  currentIndex a <= List.length (text a) /\
  (textContent a = substring_to (currentIndex a) (text a) \/
   textContent a = text a).

(** The state of an animation that types, at index [i]. *)
Definition typing_at (i : nat) (a : animation) : animation :=
  set_timers [(speed a, Tick)]
    (set_textContent (substring_to i (text a)) (set_currentIndex i a)).

(** The state of an animation that deletes, at index [i]. *)
Definition deleting_at (i : nat) (a : animation) : animation :=
  set_timers [(deleteSpeed a, Tick)]
    (set_textContent (substring_to i (text a)) (set_currentIndex i a)).

(** The options [initTypingAnimations] passes for a [.code-method]
    element. *)
Definition method_options : options :=
  Options None (Some 100) (Some 1000) None (Some false) None None.

End TypingAnimation.


(* ===================================================================== *)
(** ** The service worker over its life                                  *)
(* ===================================================================== *)

Module ServiceWorkerRuns.
Import ServiceWorker.

(** The [fetch] listener returns at once.  The promise it hands to
    [event.respondWith] settles later, one callback at a time, and between
    two callbacks of one event those of other events may run.  The stage
    an event has reached: *)
Inductive stage :=
| Ignored                        (* the listener returned without respondWith *)
| Matching                       (* caches.match(event.request) is pending *)
| Fetching                       (* fetch(event.request) is pending *)
| Opening (response : response)  (* answered; caches.open(CACHE_NAME) is pending *)
| Putting (response : response)  (* answered; cache.put(...) is pending *)
| MatchingOffline                (* caches.match("/offline.html") is pending *)
| Done (answer : option response).

(** What the promise of [event.respondWith] has resolved with, once it
    has: the response is returned before it is put into the cache. *)
Definition answer (st : stage) : option (option response) :=
  match st with
  | Opening response | Putting response => Some (Some response)
  | Done a => Some a
  | Ignored | Matching | Fetching | MatchingOffline => None
  end.

(** The worker and the [fetch] events it has received so far. *)
Record state := State {
  sw : worker;
  events : list (request * stage);
}.

(** A [fetch] event arrives and the listener runs. *)
Definition arrive (req : request) (s : state) : state :=
  let st :=
    if negb (String.eqb (method req) "GET") then Ignored
    else if negb (String.prefix (origin (sw s)) (url req)) then Ignored
    else Matching in
  State (sw s) (events s ++ [(req, st)]).

(** The operation an event waits for completes, on the cache storage as
    it is then and with the network as [fetch] finds it, and the callback
    registered on it runs. *)
Definition advance (net : network) (req : request) (st : stage) (w : worker)
    : stage * worker :=
  match st with
  | Ignored => (Ignored, w)
  | Matching =>
      match caches_match (url req) (caches w) with
      | Some cachedResponse => (Done (Some cachedResponse), w)
      | None => (Fetching, w)
      end
  | Fetching =>
      match net (url req) with
      | Some response =>
          if negb (Nat.eqb (status response) 200)
             || negb (String.eqb (rtype response) "basic")
          then (Done (Some response), w)
          else (Opening response, w)
      | None =>
          if String.eqb (mode req) "navigate" then (MatchingOffline, w)
          else (Done None, w)
      end
  | Opening response =>
      (Putting response, set_caches (caches_open CACHE_NAME) w)
  | Putting response =>
      (Done (Some response),
       set_caches (update_cache CACHE_NAME (<[url req := response]>)) w)
  | MatchingOffline =>
      (Done (caches_match (resolve w "/offline.html") (caches w)), w)
  | Done a => (Done a, w)
  end.

(** The next callback of the [i]-th event runs. *)
Definition callback (i : nat) (net : network) (s : state) : state :=
  match events s !! i with
  | Some (req, st) =>
      let '(st', w') := advance net req st (sw s) in
      State w' (<[i := (req, st')]> (events s))
  | None => s
  end.

(** What happens to a worker that serves. *)
Inductive step :=
| Arrive (req : request)
| Callback (i : nat) (net : network).

Definition handle (x : step) (s : state) : state :=
  match x with
  | Arrive req => arrive req s
  | Callback i net => callback i net s
  end.

Fixpoint run (steps : list step) (s : state) : state :=
  match steps with
  | [] => s
  | x :: rest => run rest (handle x s)
  end.

(** What the listener has done with an event whose promise has settled. *)
Definition handling_of (st : stage) : option handling :=
  match st with
  | Ignored => Some NotHandled
  | Done a => Some (RespondWith a)
  | _ => None
  end.

(** An event has not got further than its cache lookup, or was answered
    with [r]. *)
Definition served_from_cache (r : response) (st : stage) : Prop :=
  st = Ignored \/ st = Matching \/ st = Done (Some r).

(** The invariant of a worker whose cache holds [r] for [u] and that has
    no request for [u] under way past its cache lookup. *)
Definition holds_entry (u : string) (r : response) (s : state) : Prop :=
  only_version_cache (sw s) /\
  version_cache (sw s) !! u = Some r /\
  forall req st, (req, st) ∈ events s -> url req = u -> served_from_cache r st.

(** A GET request of the page with the given URL. *)
Definition get (u mode : string) : request := Request "GET" u mode.

(** One of the static assets cannot be installed. *)
Definition asset_missing (net : network) (w : worker) : Prop :=
  exists u, u ∈ STATIC_CACHE_URLS /\
    match net (resolve w u) with
    | Some r => ok r = false
    | None => True
    end.

End ServiceWorkerRuns.


(* ===================================================================== *)
(** ** Concrete pages                                                    *)
(* ===================================================================== *)

Module Examples.
Import Form.

Definition newline : string := ContactFormValidator.newline.
Definition quote : string := ContactFormValidator.quote.

(** A control of the contact form of [content/contact.md]. *)
Definition contact_input (i t v : string) (lengths : list (string * string))
    : Form.input :=
  Input i i t v ""
    (list_to_map (("required", "") :: lengths)) ∅.

(** The contact form of [content/contact.md], filled with the given
    values. *)
Definition contact_form (name email subject message : string) : Form.form :=
  Form
    [ contact_input "name" "text" name [("minlength", "2"); ("maxlength", "100")];
      contact_input "email" "email" email [];
      contact_input "subject" "text" subject
        [("minlength", "5"); ("maxlength", "200")];
      contact_input "message" "textarea" message
        [("minlength", "10"); ("maxlength", "2000")] ]
    (list_to_map
       [ ("name-error", ErrorElement "" {["error-message"]});
         ("email-error", ErrorElement "" {["error-message"]});
         ("subject-error", ErrorElement "" {["error-message"]});
         ("message-error", ErrorElement "" {["error-message"]}) ])
    (Some (StatusElement "" "form-status" ∅))
    (Some (Button false
             (newline ++ "<span class=" ++ quote ++ "btn-return-type" ++ quote
                ++ ">Task&lt;bool&gt;</span>"
              ++ newline ++ "<span class=" ++ quote ++ "btn-method" ++ quote
                ++ ">SubmitMessage</span>"
              ++ newline ++ "<span class=" ++ quote ++ "btn-params" ++ quote
                ++ ">()</span>" ++ newline)))
    (list_to_map
       [ ("name", Label "Your Name" None);
         ("email", Label "Email Address" None);
         ("subject", Label "Subject" None);
         ("message", Label "Message" None) ]).

(** The same form without the error element of the name field. *)
Definition contact_form_without_name_error
    (name email subject message : string) : Form.form :=
  set_errors (delete "name-error") (contact_form name email subject message).

(** A browser whose network rejects every request. *)
Definition offline : ContactFormValidator.browser :=
  ContactFormValidator.Browser "https://example.org/contact/" "example.org"
    (fun _ _ => ContactFormValidator.NetworkError).

(** A browser in which the first endpoint answers with an error status
    and the second accepts. *)
Definition second_endpoint_up : ContactFormValidator.browser :=
  ContactFormValidator.Browser "https://example.org/contact/" "example.org"
    (fun n _ => ContactFormValidator.Response (Nat.eqb n 1)).

(** A fresh validator on a form. *)
Definition fresh (fm : Form.form) : ContactFormValidator.validator :=
  ContactFormValidator.Validator fm false [].

(** A page of a system that prefers dark, with one theme toggle and one
    other element, and the given storage. *)
Definition page_with_storage (m : gmap string string) : ThemeToggle.page :=
  ThemeToggle.Page (Some m) false (Some true) ∅
    [ ThemeToggle.Element {["data-theme-toggle" := ""]} ∅ (Some "") None;
      ThemeToggle.Element ∅ ∅ None None ]
    [] [] [].

(** The same page in a browser that denies access to the storage. *)
Definition page_without_storage : ThemeToggle.page :=
  ThemeToggle.Page None false (Some true) ∅
    [ ThemeToggle.Element {["data-theme-toggle" := ""]} ∅ (Some "") None;
      ThemeToggle.Element ∅ ∅ None None ]
    [] [] [].

(** A page whose mobile navigation holds three links and is closed. *)
Definition nav_closed : Navigation.page :=
  Navigation.Page {["aria-expanded" := "false"]} {["aria-hidden" := "true"]} 3
    "" ∅ false Navigation.OnToggle [].

(** A worker whose cache storage holds a cache of an older version. *)
Definition worker_with_old_cache : ServiceWorker.worker :=
  ServiceWorker.Worker "https://example.org"
    [ ("csharp-portfolio-v0",
       {["https://example.org/" := ServiceWorker.Response 200 "basic" "old"]}) ]
    false false.

(** A network that answers every request with a basic response of status
    200 whose body is the URL. *)
Definition network_up : ServiceWorker.network :=
  fun u => Some (ServiceWorker.Response 200 "basic" u).

End Examples.


(* ===================================================================== *)
(** * Part II: properties                                                *)
(* ===================================================================== *)

(** ** The JavaScript helpers on concrete inputs *)

Section HelperExamples.

Example trim_spaces : trim "  Ada Lovelace  " = "Ada Lovelace".
Proof. reflexivity. Qed.

Example trim_only_spaces : trim "   " = "".
Proof. reflexivity. Qed.

(** U+00A0, "A", U+2003 and a space: the no-break space and the em space
    are trimmed with the ASCII one. *)
Example trim_unicode_spaces :
  trim (string_of_bytes [194; 160; 65; 226; 128; 131; 32]) = "A".
Proof. reflexivity. Qed.

Example trim_only_no_break_spaces :
  trim (string_of_bytes [194; 160; 194; 160]) = "".
Proof. reflexivity. Qed.

(** U+200B, the zero-width space, is no white space; and white space
    inside the text stays. *)
Example trim_keeps_zero_width_space :
  trim (string_of_bytes [226; 128; 139; 32]) = string_of_bytes [226; 128; 139].
Proof. reflexivity. Qed.

Example trim_keeps_inner_space :
  trim (string_of_bytes [32; 65; 194; 160; 66; 32]) =
  string_of_bytes [65; 194; 160; 66].
Proof. reflexivity. Qed.

(** "h", U+00E9, "llo" has five code units in six bytes; U+1F600 has two
    in four. *)
Example js_length_accented :
  js_length (string_of_bytes [104; 195; 169; 108; 108; 111]) = 5.
Proof. reflexivity. Qed.

Example js_length_surrogate_pair :
  js_length (string_of_bytes [240; 159; 152; 128]) = 2.
Proof. reflexivity. Qed.

Example js_length_ascii : js_length "Ada Lovelace" = 12.
Proof. reflexivity. Qed.

Example parseInt_decimal : parseInt "100" = Some 100%Z.
Proof. reflexivity. Qed.

Example parseInt_prefix : parseInt " 12px" = Some 12%Z.
Proof. reflexivity. Qed.

Example parseInt_hex : parseInt "0x1f" = Some 31%Z.
Proof. reflexivity. Qed.

Example parseInt_null : parseInt "null" = None.
Proof. reflexivity. Qed.

Example email_accepted : email_regex_test "ada@example.org" = true.
Proof. reflexivity. Qed.

Example email_without_dot : email_regex_test "ada@example" = false.
Proof. reflexivity. Qed.

Example email_with_space : email_regex_test "ada lovelace@example.org" = false.
Proof. reflexivity. Qed.

(** "ada", U+00A0, "@example.org" *)
Example email_with_no_break_space :
  email_regex_test
    (string_of_bytes [97; 100; 97; 194; 160] ++ "@example.org") = false.
Proof. reflexivity. Qed.

(** "ad", U+00E9, "@example.org" *)
Example email_with_accent :
  email_regex_test
    (string_of_bytes [97; 100; 195; 169] ++ "@example.org") = true.
Proof. reflexivity. Qed.

Example email_two_ats : email_regex_test "ada@love@example.org" = false.
Proof. reflexivity. Qed.

Example encode_text : encodeURIComponent "Name: Ada & co." = "Name%3A%20Ada%20%26%20co.".
Proof. reflexivity. Qed.

Example capitalize_name : ContactFormValidator.capitalize "name" = "Name".
Proof. reflexivity. Qed.

Example includes_netlify : includes "my-site.netlify.app" "netlify" = true.
Proof. reflexivity. Qed.

End HelperExamples.


(** ** Properties of the theme manager *)

Section ThemeToggleProperties.
Import ThemeToggle.
Local Open Scope js_scope.

Lemma applyTheme_ret theme p : applyTheme theme p = Ret tt (applied theme p).
Proof.
  unfold applyTheme, applied, updateToggleButtons, dispatchThemeChangeEvent,
    bind, modify, ret.
  destruct (seq theme AUTO); reflexivity.
Qed.

Lemma applied_storage theme p : storage (applied theme p) = storage p.
Proof. unfold applied. destruct (seq theme AUTO); reflexivity. Qed.

Lemma applied_quota theme p : quota_exceeded (applied theme p) = quota_exceeded p.
Proof. unfold applied. destruct (seq theme AUTO); reflexivity. Qed.

Lemma applied_calls theme p : setItem_calls (applied theme p) = setItem_calls p.
Proof. unfold applied. destruct (seq theme AUTO); reflexivity. Qed.

Lemma applied_console theme p : console (applied theme p) = console p.
Proof. unfold applied. destruct (seq theme AUTO); reflexivity. Qed.

Lemma applied_prefers theme p : prefers_dark (applied theme p) = prefers_dark p.
Proof. unfold applied. destruct (seq theme AUTO); reflexivity. Qed.

Lemma applied_theme_applied theme p :
  applied_theme (applied theme p) = if seq theme AUTO then None else Some theme.
Proof.
  unfold applied, applied_theme. destruct (seq theme AUTO); simpl.
  - apply lookup_delete_eq.
  - apply lookup_insert_eq.
Qed.

Lemma applied_elements theme p :
  elements (applied theme p) =
  map (fun button =>
         if is_toggle button
         then updateButtonVisual (updateButtonAria button theme) theme
         else button) (elements p).
Proof. unfold applied. destruct (seq theme AUTO); reflexivity. Qed.

Lemma storeTheme_ret theme p : storeTheme theme p = Ret tt (stored_state theme p).
Proof.
  unfold storeTheme, stored_state, try_catch, setItem, console_warn, modify.
  simpl. destruct (storage p); [destruct (quota_exceeded p)|]; reflexivity.
Qed.

Lemma getStoredTheme_ret p :
  getStoredTheme p =
  match storage p with
  | Some m => Ret (m !! storageKey) p
  | None =>
      Ret None (log_warn "Failed to read theme from localStorage: SecurityError" p)
  end.
Proof.
  unfold getStoredTheme, try_catch, getItem, console_warn, bind, modify, ret.
  destruct (storage p); reflexivity.
Qed.

Lemma getCurrentTheme_ret p :
  getCurrentTheme p =
  Ret (if truthy (applied_theme p) then default "" (applied_theme p)
       else system_theme p) p.
Proof.
  unfold getCurrentTheme, getSystemTheme, bind, gets, ret, applied_theme,
    system_theme.
  destruct (truthy (root_attrs p !! "data-theme")); reflexivity.
Qed.

Lemma seq_eq a b : seq a b = true <-> a = b.
Proof. unfold seq. apply String.eqb_eq. Qed.

Lemma seq_neq a b : seq a b = false <-> a <> b.
Proof. unfold seq. apply String.eqb_neq. Qed.

Lemma getSystemTheme_ret p : getSystemTheme p = Ret (system_theme p) p.
Proof. reflexivity. Qed.

Lemma truthy_Some s : truthy (Some s) = true <-> s <> "".
Proof.
  unfold truthy. rewrite negb_true_iff. apply String.eqb_neq.
Qed.

Lemma setInitialTheme_ret p :
  setInitialTheme p =
  match storage p with
  | Some m =>
      if truthy (m !! storageKey)
      then Ret tt (applied (default "" (m !! storageKey)) p)
      else Ret tt (stored_state (system_theme p) (applied (system_theme p) p))
  | None =>
      let p1 := log_warn "Failed to read theme from localStorage: SecurityError" p in
      Ret tt (stored_state (system_theme p) (applied (system_theme p) p1))
  end.
Proof.
  unfold setInitialTheme, bind. rewrite getStoredTheme_ret.
  destruct (storage p) as [m|]; rewrite getSystemTheme_ret.
  - destruct (truthy (m !! storageKey)).
    + apply applyTheme_ret.
    + rewrite applyTheme_ret, storeTheme_ret. reflexivity.
  - simpl. rewrite applyTheme_ret, storeTheme_ret. reflexivity.
Qed.

Lemma stored_state_root theme p : root_attrs (stored_state theme p) = root_attrs p.
Proof.
  unfold stored_state. destruct (storage p); [destruct (quota_exceeded p)|];
    reflexivity.
Qed.

Lemma stored_state_calls theme p :
  setItem_calls (stored_state theme p) =
  (setItem_calls p ++ [(storageKey, theme)])%list.
Proof.
  unfold stored_state. destruct (storage p); [destruct (quota_exceeded p)|];
    reflexivity.
Qed.

Lemma stored_state_elements theme p : elements (stored_state theme p) = elements p.
Proof.
  unfold stored_state. destruct (storage p); [destruct (quota_exceeded p)|];
    reflexivity.
Qed.

Lemma stored_state_prefers theme p :
  prefers_dark (stored_state theme p) = prefers_dark p.
Proof.
  unfold stored_state. destruct (storage p); [destruct (quota_exceeded p)|];
    reflexivity.
Qed.

Lemma initToggleButtons_ret p :
  exists p', initToggleButtons p = Ret tt p' /\
    root_attrs p' = root_attrs p /\ storage p' = storage p /\
    quota_exceeded p' = quota_exceeded p /\
    setItem_calls p' = setItem_calls p /\ console p' = console p /\
    prefers_dark p' = prefers_dark p /\ dispatched p' = dispatched p.
Proof.
  unfold initToggleButtons, bind. rewrite getCurrentTheme_ret.
  eexists. split; [reflexivity|]. repeat split.
Qed.

Lemma system_theme_cases p : system_theme p = DARK \/ system_theme p = LIGHT.
Proof.
  unfold system_theme. destruct (prefers_dark p) as [[]|]; auto.
Qed.

Lemma system_theme_not_auto p : seq (system_theme p) AUTO = false.
Proof. destruct (system_theme_cases p) as [-> | ->]; reflexivity. Qed.

(** C6. A failing [localStorage] never makes the theme manager throw:
    [getStoredTheme] and [storeTheme] always complete normally; when the
    read fails [getStoredTheme] returns [null] and logs a warning; when the
    write fails [storeTheme] logs a warning and leaves the storage as it
    was; with an inaccessible storage, initialisation completes and applies
    the operating system's colour scheme; and no sequence of operations
    throws to its caller. *)
Theorem storage_failures_are_contained (p : page) (theme : string) :
  (exists v p', getStoredTheme p = Ret v p') /\
  (exists p', storeTheme theme p = Ret tt p') /\
  (storage p = None ->
   exists p', getStoredTheme p = Ret None p' /\
     console p' =
       (console p ++ ["Failed to read theme from localStorage: SecurityError"])%list) /\
  (storage p = None \/ quota_exceeded p = true ->
   exists p' e, storeTheme theme p = Ret tt p' /\
     storage p' = storage p /\
     console p' =
       (console p ++ [("Failed to store theme in localStorage: " ++ e)%string])%list) /\
  (storage p = None ->
   exists p', init p = Ret tt p' /\ applied_theme p' = Some (system_theme p)) /\
  (forall os, completes (perform_all os p)).
Proof.
  split; [|split; [|split; [|split; [|split]]]].
  - rewrite getStoredTheme_ret. destruct (storage p); eauto.
  - rewrite storeTheme_ret. eauto.
  - intros H. rewrite getStoredTheme_ret, H. eexists. split; reflexivity.
  - intros H. rewrite storeTheme_ret. unfold stored_state.
    destruct (storage p) as [m|] eqn:Hs.
    + destruct H as [H|H]; [discriminate|]. rewrite H.
      exists (log_warn "Failed to store theme in localStorage: QuotaExceededError"
                (log_setItem storageKey theme p)), "QuotaExceededError".
      simpl. rewrite Hs. auto.
    + exists (log_warn "Failed to store theme in localStorage: SecurityError"
                (log_setItem storageKey theme p)), "SecurityError".
      simpl. rewrite Hs. auto.
  - intros H. unfold init, bind. rewrite setInitialTheme_ret, H. simpl.
    match goal with |- context [initToggleButtons ?q] =>
      destruct (initToggleButtons_ret q) as (p' & -> & Hr & _) end.
    exists p'. split; [reflexivity|]. unfold applied_theme. rewrite Hr.
    rewrite stored_state_root. fold (applied_theme (applied (system_theme p)
      (log_warn "Failed to read theme from localStorage: SecurityError" p))).
    rewrite applied_theme_applied, system_theme_not_auto. reflexivity.
  - intros os. revert p. induction os as [|o os IH]; intros p; [exact I|].
    simpl. unfold bind.
    assert (Ho : exists p', perform o p = Ret tt p').
    { destruct o; simpl.
      - unfold init, bind. rewrite setInitialTheme_ret.
        destruct (storage p) as [m|]; [destruct (truthy (m !! storageKey))|]; simpl;
          match goal with |- context [initToggleButtons ?q] =>
            destruct (initToggleButtons_ret q) as (p' & -> & _) end; eauto.
      - unfold toggle, bind. rewrite getCurrentTheme_ret, applyTheme_ret,
          storeTheme_ret. eauto.
      - unfold setTheme. case_bool_decide.
        + unfold bind. rewrite applyTheme_ret, storeTheme_ret. eauto.
        + unfold console_warn, modify. eauto.
      - unfold bind, modify, handleSystemThemeChange, bind.
        rewrite getStoredTheme_ret. simpl.
        destruct (storage p) as [m|]; simpl.
        + destruct (negb (truthy (m !! storageKey)) ||
                    bool_decide (m !! storageKey = Some AUTO)).
          * rewrite applyTheme_ret. eauto.
          * unfold ret. eauto.
        + rewrite applyTheme_ret. eauto. }
    destruct Ho as (p' & ->). apply IH.
Qed.

(** C4. Initialisation with a readable storage: when the key holds no
    value, the theme applied to the document is the operating system's
    colour scheme (dark exactly when the media query matches); when it
    holds a preference (a non-empty string), that preference is what
    [setInitialTheme] applies. *)
Theorem initial_theme_resolution (p : page) (m : gmap string string)
    (Hstorage : storage p = Some m) :
  (system_theme p = DARK <-> prefers_dark p = Some true) /\
  (system_theme p = LIGHT <-> prefers_dark p <> Some true) /\
  (m !! storageKey = None ->
   exists p', init p = Ret tt p' /\
     applied_theme p' = Some (system_theme p) /\
     getCurrentTheme p' = Ret (system_theme p) p') /\
  (forall s, m !! storageKey = Some s -> s <> "" ->
   setInitialTheme p = applyTheme s p /\
   exists p', init p = Ret tt p' /\
     applied_theme p' = (if seq s AUTO then None else Some s)).
Proof.
  split; [|split; [|split]].
  - unfold system_theme, DARK, LIGHT.
    destruct (prefers_dark p) as [[]|]; split; congruence.
  - unfold system_theme, DARK, LIGHT.
    destruct (prefers_dark p) as [[]|]; split; congruence.
  - intros Hnone. unfold init, bind.
    rewrite setInitialTheme_ret, Hstorage, Hnone. simpl.
    match goal with |- context [initToggleButtons ?q] =>
      destruct (initToggleButtons_ret q)
        as (p' & -> & Hr & _ & _ & _ & _ & Hd & _) end.
    assert (Ha : applied_theme p' = Some (system_theme p)).
    { unfold applied_theme. rewrite Hr, stored_state_root.
      fold (applied_theme (applied (system_theme p) p)).
      rewrite applied_theme_applied, system_theme_not_auto. reflexivity. }
    exists p'. split; [reflexivity|]. split; [exact Ha|].
    rewrite getCurrentTheme_ret, Ha.
    destruct (system_theme_cases p) as [E|E]; rewrite E; reflexivity.
  - intros s Hs Hne. apply truthy_Some in Hne. split.
    + rewrite setInitialTheme_ret, Hstorage, Hs, Hne, applyTheme_ret. reflexivity.
    + unfold init, bind. rewrite setInitialTheme_ret, Hstorage, Hs, Hne. simpl.
      match goal with |- context [initToggleButtons ?q] =>
        destruct (initToggleButtons_ret q) as (p' & -> & Hr & _) end.
      exists p'. split; [reflexivity|]. unfold applied_theme. rewrite Hr.
      apply applied_theme_applied.
Qed.

(** A stored empty string is falsy and counts as no preference:
    initialisation applies the system theme and stores it. *)
Lemma empty_stored_value_counts_as_none (p : page) (m : gmap string string) :
  storage p = Some m -> m !! storageKey = Some "" ->
  setInitialTheme p =
    Ret tt (stored_state (system_theme p) (applied (system_theme p) p)).
Proof.
  intros Hs Hk. rewrite setInitialTheme_ret, Hs, Hk. reflexivity.
Qed.

Lemma handleSystemThemeChange_ret matches p :
  handleSystemThemeChange matches p =
  match storage p with
  | Some m =>
      if negb (truthy (m !! storageKey)) || bool_decide (m !! storageKey = Some AUTO)
      then Ret tt (applied (if matches then DARK else LIGHT) p)
      else Ret tt p
  | None =>
      Ret tt (applied (if matches then DARK else LIGHT)
                (log_warn "Failed to read theme from localStorage: SecurityError" p))
  end.
Proof.
  unfold handleSystemThemeChange, bind. rewrite getStoredTheme_ret.
  destruct (storage p) as [m|]; simpl.
  - destruct (negb (truthy (m !! storageKey)) ||
              bool_decide (m !! storageKey = Some AUTO)).
    + apply applyTheme_ret.
    + reflexivity.
  - apply applyTheme_ret.
Qed.

(** C1. A change of the operating system's colour scheme leaves the page
    exactly as it was when an explicit preference (any non-empty value
    other than "auto", in particular "light" or "dark") is stored; the
    handler applies the new system theme when the key is absent or holds
    "auto"; so the applied theme changes only when no explicit preference
    is stored; and since initialisation stores the resolved system theme
    when the key was absent, a change event that follows it changes
    nothing. *)
Theorem system_change_respects_stored_preference (p : page) (matches : bool) :
  (forall m s, storage p = Some m -> m !! storageKey = Some s ->
     s = LIGHT \/ s = DARK \/ (s <> "" /\ s <> AUTO) ->
     handleSystemThemeChange matches p = Ret tt p) /\
  (forall m, storage p = Some m ->
     m !! storageKey = None \/ m !! storageKey = Some AUTO ->
     handleSystemThemeChange matches p =
       applyTheme (if matches then DARK else LIGHT) p) /\
  (forall p', handleSystemThemeChange matches p = Ret tt p' ->
     applied_theme p' <> applied_theme p ->
     stored storageKey p = None \/ stored storageKey p = Some "" \/
     stored storageKey p = Some AUTO) /\
  (forall m, storage p = Some m -> m !! storageKey = None ->
     quota_exceeded p = false ->
     exists p1, init p = Ret tt p1 /\
       stored storageKey p1 = Some (system_theme p) /\
       handleSystemThemeChange matches p1 = Ret tt p1).
Proof.
  split; [|split; [|split]].
  - intros m s Hm Hs Hexp. rewrite handleSystemThemeChange_ret, Hm, Hs.
    assert (Hne : s <> "" /\ s <> AUTO).
    { destruct Hexp as [->|[->|?]]; [split; discriminate..|assumption]. }
    destruct Hne as [Hne Hauto].
    apply truthy_Some in Hne. rewrite Hne. simpl.
    rewrite bool_decide_eq_false_2; [reflexivity|congruence].
  - intros m Hm Hk. rewrite handleSystemThemeChange_ret, applyTheme_ret, Hm.
    destruct Hk as [-> | ->]; reflexivity.
  - intros p' Hrun Hchg. rewrite handleSystemThemeChange_ret in Hrun.
    unfold stored. destruct (storage p) as [m|]; [|auto].
    destruct (m !! storageKey) as [s|] eqn:Hs; [|auto].
    destruct (String.eqb_spec s "") as [->|Hne]; [auto|].
    destruct (decide (s = AUTO)) as [->|Hauto]; [auto|].
    exfalso. apply truthy_Some in Hne. rewrite Hne in Hrun. simpl in Hrun.
    rewrite bool_decide_eq_false_2 in Hrun by congruence.
    inversion Hrun; subst. apply Hchg. reflexivity.
  - intros m Hm Hk Hq. unfold init, bind.
    rewrite setInitialTheme_ret, Hm, Hk. simpl.
    match goal with |- context [initToggleButtons ?q] =>
      destruct (initToggleButtons_ret q) as (p1 & -> & _ & Hst & _) end.
    assert (Hst1 : storage p1 = Some (<[storageKey := system_theme p]> m)).
    { rewrite Hst. unfold stored_state.
      rewrite applied_storage, applied_quota, Hm, Hq. reflexivity. }
    exists p1. split; [reflexivity|]. split.
    + unfold stored. rewrite Hst1. apply lookup_insert_eq.
    + rewrite handleSystemThemeChange_ret, Hst1, lookup_insert_eq.
      destruct (system_theme_cases p) as [-> | ->]; reflexivity.
Qed.

Lemma updateButtonVisual_attrs b theme :
  attrs (updateButtonVisual b theme) = attrs b.
Proof. reflexivity. Qed.

Lemma updateButtonAria_pressed b theme :
  attrs (updateButtonAria b theme) !! "aria-pressed" =
  Some (bool_toString (seq theme DARK)).
Proof.
  unfold updateButtonAria, setAttribute; simpl.
  rewrite lookup_insert_ne by discriminate. apply lookup_insert_eq.
Qed.

Lemma updateButtonAria_label b theme :
  attrs (updateButtonAria b theme) !! "aria-label" =
  Some (if seq theme DARK then "Switch to light theme" else "Switch to dark theme").
Proof. unfold updateButtonAria, setAttribute; simpl. apply lookup_insert_eq. Qed.

Lemma updateButtonAria_is_toggle b theme :
  is_toggle (updateButtonAria b theme) = is_toggle b.
Proof.
  unfold is_toggle, updateButtonAria, setAttribute; simpl.
  rewrite !lookup_insert_ne by discriminate. reflexivity.
Qed.

(** C3. A toggle computes the new theme from the current resolved one
    (dark if it is light, light otherwise), applies it, calls
    [localStorage.setItem] with the theme key and the new theme (and the
    storage holds it afterwards whenever the write does not raise), and
    gives every element matching [[data-theme-toggle]] the same ARIA
    state: [aria-pressed] is "true" exactly when the new theme is dark,
    with the matching [aria-label]; other elements are untouched.  The
    current resolved theme is what [getCurrentTheme] returns: the
    [data-theme] attribute of the root element when it is set and not
    empty, and otherwise the theme of the system, dark exactly when the
    media query [(prefers-color-scheme: dark)] matches. *)
Theorem toggle_persists_and_updates_aria (p : page) :
  exists p',
    getCurrentTheme p = Ret (ThemeInfo.current_theme p) p /\
    (forall t, root_attrs p !! "data-theme" = Some t -> t <> "" ->
       ThemeInfo.current_theme p = t) /\
    (root_attrs p !! "data-theme" = None \/
     root_attrs p !! "data-theme" = Some "" ->
       ThemeInfo.current_theme p =
       match prefers_dark p with Some true => DARK | _ => LIGHT end) /\
    toggle p = Ret tt p' /\
    let newTheme :=
      if seq (ThemeInfo.current_theme p) LIGHT then DARK else LIGHT in
    applied_theme p' = Some newTheme /\
    setItem_calls p' = (setItem_calls p ++ [(storageKey, newTheme)])%list /\
    (forall m, storage p = Some m -> quota_exceeded p = false ->
       storage p' = Some (<[storageKey := newTheme]> m)) /\
    List.length (elements p') = List.length (elements p) /\
    (forall i b, elements p !! i = Some b ->
       exists b', elements p' !! i = Some b' /\
         is_toggle b' = is_toggle b /\
         if is_toggle b
         then attrs b' !! "aria-pressed" = Some (bool_toString (seq newTheme DARK)) /\
              attrs b' !! "aria-label" =
                Some (if seq newTheme DARK then "Switch to light theme"
                      else "Switch to dark theme")
         else b' = b) /\
    (forall b', b' ∈ elements p' -> is_toggle b' = true ->
       (attrs b' !! "aria-pressed" = Some "true" <-> newTheme = DARK)).
Proof.
  pose proof (getCurrentTheme_ret p) as Hcur.
  set (cur := if truthy (applied_theme p) then default "" (applied_theme p)
              else system_theme p) in Hcur.
  set (new := if seq cur LIGHT then DARK else LIGHT).
  assert (Hnew : seq new AUTO = false).
  { unfold new. destruct (seq cur LIGHT); reflexivity. }
  assert (Hel : forall i b, elements p !! i = Some b ->
     exists b', elements (stored_state new (applied new p)) !! i = Some b' /\
       is_toggle b' = is_toggle b /\
       if is_toggle b
       then attrs b' !! "aria-pressed" = Some (bool_toString (seq new DARK)) /\
            attrs b' !! "aria-label" =
              Some (if seq new DARK then "Switch to light theme"
                    else "Switch to dark theme")
       else b' = b).
  { intros i b Hb. rewrite stored_state_elements, applied_elements.
    rewrite list_lookup_fmap, Hb. simpl. eexists. split; [reflexivity|].
    destruct (is_toggle b) eqn:Ht.
    - split; [|split].
      + unfold is_toggle. rewrite updateButtonVisual_attrs.
        fold (is_toggle (updateButtonAria b new)).
        rewrite updateButtonAria_is_toggle. exact Ht.
      + rewrite updateButtonVisual_attrs. apply updateButtonAria_pressed.
      + rewrite updateButtonVisual_attrs. apply updateButtonAria_label.
    - split; [exact Ht|reflexivity]. }
  exists (stored_state new (applied new p)).
  change (ThemeInfo.current_theme p) with cur.
  split; [exact Hcur|]. split.
  { intros t Ht Hne. unfold cur, applied_theme. rewrite Ht. simpl.
    destruct (String.eqb_spec t ""); [contradiction|reflexivity]. }
  split.
  { intros [Ht|Ht]; unfold cur, applied_theme; rewrite Ht; reflexivity. }
  split.
  { unfold toggle, bind. rewrite Hcur. fold new.
    rewrite applyTheme_ret, storeTheme_ret. reflexivity. }
  fold new. cbv zeta. split; [|split; [|split; [|split; [|split]]]].
  - unfold applied_theme. rewrite stored_state_root.
    fold (applied_theme (applied new p)).
    rewrite applied_theme_applied, Hnew. reflexivity.
  - rewrite stored_state_calls, applied_calls. reflexivity.
  - intros m Hm Hq. unfold stored_state.
    rewrite applied_storage, applied_quota, Hm, Hq. reflexivity.
  - rewrite stored_state_elements, applied_elements. apply length_map.
  - exact Hel.
  - intros b' Hin Ht. apply list_elem_of_lookup in Hin as [i Hi].
    assert (Hlen : i < List.length (elements p)).
    { apply lookup_lt_Some in Hi.
      rewrite stored_state_elements, applied_elements, length_map in Hi.
      exact Hi. }
    apply lookup_lt_is_Some in Hlen as [b Hb].
    destruct (Hel i b Hb) as (b'' & Hb'' & Htog & Haria).
    rewrite Hi in Hb''. inversion Hb''; subst b''.
    rewrite Ht in Htog. rewrite <- Htog in Haria.
    destruct Haria as [Hp _]. rewrite Hp.
    destruct (seq new DARK) eqn:E; simpl.
    + apply seq_eq in E. split; auto.
    + apply seq_neq in E. split; [discriminate|contradiction].
Qed.

Lemma only_valid_writes_same p p' :
  storage p' = storage p -> setItem_calls p' = setItem_calls p ->
  only_valid_writes p p'.
Proof.
  intros Hs Hc. exists []. rewrite app_nil_r. unfold stored. rewrite Hs.
  repeat split; auto.
Qed.

Lemma only_valid_writes_trans p1 p2 p3 :
  only_valid_writes p1 p2 -> only_valid_writes p2 p3 -> only_valid_writes p1 p3.
Proof.
  intros (w1 & Hc1 & Hf1 & Ho1 & Hk1) (w2 & Hc2 & Hf2 & Ho2 & Hk2).
  exists (w1 ++ w2)%list. split; [|split; [|split]].
  - rewrite Hc2, Hc1, app_assoc. reflexivity.
  - apply Forall_app; auto.
  - intros k Hk. rewrite Ho2, Ho1 by assumption. reflexivity.
  - destruct Hk2 as [E|?]; [rewrite E; exact Hk1|right; assumption].
Qed.

Lemma only_valid_writes_store theme p :
  theme ∈ themes_values -> only_valid_writes p (stored_state theme p).
Proof.
  intros Hin. exists [(storageKey, theme)].
  split; [apply stored_state_calls|]. split.
  { constructor; [split; [reflexivity|exact Hin]|constructor]. }
  unfold stored, stored_state.
  destruct (storage p) as [m|] eqn:Hs; [destruct (quota_exceeded p)|]; simpl;
    rewrite ?Hs; try (split; auto; fail).
  split.
  - intros k Hk. apply lookup_insert_ne. congruence.
  - right. exists theme. split; [apply lookup_insert_eq|exact Hin].
Qed.

Lemma system_theme_valid p : system_theme p ∈ themes_values.
Proof.
  unfold themes_values.
  destruct (system_theme_cases p) as [-> | ->]; set_solver.
Qed.

Lemma perform_only_valid_writes o p :
  exists p', perform o p = Ret tt p' /\ only_valid_writes p p'.
Proof.
  destruct o as [| |theme|matches]; simpl.
  - unfold init, bind. rewrite setInitialTheme_ret.
    destruct (storage p) as [m|] eqn:Hs;
      [destruct (truthy (m !! storageKey))|]; simpl;
      match goal with |- context [initToggleButtons ?q] =>
        destruct (initToggleButtons_ret q)
          as (p' & -> & _ & Hst & _ & Hc & _) end;
      exists p'; (split; [reflexivity|]).
    + apply only_valid_writes_same.
      * rewrite Hst, applied_storage. reflexivity.
      * rewrite Hc, applied_calls. reflexivity.
    + eapply only_valid_writes_trans;
        [|apply only_valid_writes_same; [exact Hst|exact Hc]].
      eapply only_valid_writes_trans;
        [|apply only_valid_writes_store, system_theme_valid].
      apply only_valid_writes_same; [apply applied_storage|apply applied_calls].
    + eapply only_valid_writes_trans;
        [|apply only_valid_writes_same; [exact Hst|exact Hc]].
      eapply only_valid_writes_trans;
        [|apply only_valid_writes_store, system_theme_valid].
      apply only_valid_writes_same.
      * rewrite applied_storage. reflexivity.
      * rewrite applied_calls. reflexivity.
  - unfold toggle, bind.
    rewrite getCurrentTheme_ret, applyTheme_ret, storeTheme_ret.
    eexists. split; [reflexivity|].
    eapply only_valid_writes_trans; [|apply only_valid_writes_store].
    + apply only_valid_writes_same; [apply applied_storage|apply applied_calls].
    + unfold themes_values.
      match goal with |- (if ?c then _ else _) ∈ _ => destruct c end; set_solver.
  - unfold setTheme. case_bool_decide as Hin.
    + unfold bind. rewrite applyTheme_ret, storeTheme_ret.
      eexists. split; [reflexivity|].
      eapply only_valid_writes_trans; [|apply only_valid_writes_store, Hin].
      apply only_valid_writes_same; [apply applied_storage|apply applied_calls].
    + unfold console_warn, modify. eexists. split; [reflexivity|].
      apply only_valid_writes_same; reflexivity.
  - unfold bind, modify. rewrite handleSystemThemeChange_ret. simpl.
    destruct (storage p) as [m|] eqn:Hs.
    + destruct (negb (truthy (m !! storageKey)) ||
                bool_decide (m !! storageKey = Some AUTO));
        eexists; (split; [reflexivity|]); apply only_valid_writes_same;
        rewrite ?applied_storage, ?applied_calls; reflexivity.
    + eexists; (split; [reflexivity|]); apply only_valid_writes_same;
        rewrite ?applied_storage, ?applied_calls; reflexivity.
Qed.

(** C5. Whatever sequence of operations (initialisation, toggles,
    [setTheme] calls, system-theme changes) runs on whatever page, every
    [localStorage.setItem] call it makes has the key
    "csharp-portfolio-theme" and one of "light", "dark", "auto" as value;
    entries under other keys stay as they were, and the value under the
    theme key is either untouched or one of the three; and [setTheme] with
    any other argument only logs a warning: nothing is applied or stored. *)
Theorem only_theme_preference_is_written (os : list operation) (p : page) :
  storageKey = "csharp-portfolio-theme" /\
  themes_values = ["light"; "dark"; "auto"] /\
  (exists p' written,
     perform_all os p = Ret tt p' /\
     setItem_calls p' = (setItem_calls p ++ written)%list /\
     Forall (fun kv => kv.1 = storageKey /\ kv.2 ∈ themes_values) written /\
     (forall k, k <> storageKey -> stored k p' = stored k p) /\
     (stored storageKey p' = stored storageKey p \/
      exists v, stored storageKey p' = Some v /\ v ∈ themes_values)) /\
  (forall theme, theme ∉ themes_values ->
     setTheme theme p = Ret tt (log_warn ("Invalid theme: " ++ theme) p)).
Proof.
  split; [reflexivity|]. split; [reflexivity|]. split.
  - assert (H : exists p', perform_all os p = Ret tt p' /\ only_valid_writes p p').
    { revert p. induction os as [|o os IH]; intros p.
      - exists p. split; [reflexivity|]. apply only_valid_writes_same; reflexivity.
      - simpl. unfold bind.
        destruct (perform_only_valid_writes o p) as (p1 & -> & H1).
        destruct (IH p1) as (p2 & -> & H2).
        exists p2. split; [reflexivity|].
        eapply only_valid_writes_trans; eassumption. }
    destruct H as (p' & Hrun & written & Hc & Hf & Ho & Hk).
    exists p', written. auto.
  - intros theme Hnot. unfold setTheme.
    rewrite bool_decide_eq_false_2 by exact Hnot. reflexivity.
Qed.

(** C6 on a page whose storage is inaccessible. *)
Lemma storage_failures_are_contained_witness :
  let p := Examples.page_without_storage in
  (exists p', getStoredTheme p = Ret None p' /\
     console p' = ["Failed to read theme from localStorage: SecurityError"]) /\
  (exists p', init p = Ret tt p' /\ applied_theme p' = Some "dark").
Proof.
  cbv zeta.
  destruct (storage_failures_are_contained Examples.page_without_storage "dark")
    as (_ & _ & Hread & _ & Hinit & _).
  split.
  - apply Hread. reflexivity.
  - apply Hinit. reflexivity.
Defined.

(** C4 on a page of a dark system with an empty storage, and on the same
    page with "light" stored. *)
Lemma initial_theme_resolution_witness :
  (exists p', init (Examples.page_with_storage ∅) = Ret tt p' /\
     applied_theme p' = Some "dark") /\
  (exists p', init (Examples.page_with_storage {["csharp-portfolio-theme" := "light"]})
              = Ret tt p' /\
     applied_theme p' = Some "light").
Proof.
  split.
  - destruct (initial_theme_resolution (Examples.page_with_storage ∅) ∅ eq_refl)
      as (_ & _ & H & _).
    destruct H as (p' & Hinit & Happlied & _); [reflexivity|].
    exists p'. split; [exact Hinit|exact Happlied].
  - destruct (initial_theme_resolution
                (Examples.page_with_storage {["csharp-portfolio-theme" := "light"]})
                {["csharp-portfolio-theme" := "light"]} eq_refl)
      as (_ & _ & _ & H).
    destruct (H "light") as (_ & p' & Hinit & Happlied);
      [reflexivity|discriminate|].
    exists p'. split; [exact Hinit|exact Happlied].
Defined.

(** C1 on a page with "light" stored, when the system turns dark. *)
Lemma system_change_respects_stored_preference_witness :
  let p := Examples.page_with_storage {["csharp-portfolio-theme" := "light"]} in
  handleSystemThemeChange true p = Ret tt p.
Proof.
  cbv zeta.
  destruct (system_change_respects_stored_preference
              (Examples.page_with_storage {["csharp-portfolio-theme" := "light"]})
              true) as (H & _).
  apply (H {["csharp-portfolio-theme" := "light"]} "light").
  - reflexivity.
  - reflexivity.
  - left. reflexivity.
Defined.

(** C3 on a page of a dark system with an empty, writable storage. *)
Lemma toggle_persists_and_updates_aria_witness :
  let p := Examples.page_with_storage ∅ in
  exists p' b',
    toggle p = Ret tt p' /\
    storage p' = Some {["csharp-portfolio-theme" := "light"]} /\
    elements p' !! 0 = Some b' /\
    attrs b' !! "aria-pressed" = Some "false" /\
    attrs b' !! "aria-label" = Some "Switch to dark theme".
Proof.
  cbv zeta.
  destruct (toggle_persists_and_updates_aria (Examples.page_with_storage ∅))
    as (p' & _ & _ & _ & Htoggle & _ & _ & Hstore & _ & Hel & _).
  destruct (Hel 0 _ eq_refl) as (b' & Hb' & _ & Hpressed & Hlabel).
  exists p', b'. split; [exact Htoggle|]. split.
  - apply (Hstore ∅); reflexivity.
  - split; [exact Hb'|]. split; [exact Hpressed|exact Hlabel].
Defined.

(** C5 on a run that initialises, toggles twice, sets a theme, tries an
    invalid one and receives a system-theme change. *)
Lemma only_theme_preference_is_written_witness :
  let p := Examples.page_with_storage ∅ in
  setTheme "sepia" p = Ret tt (log_warn "Invalid theme: sepia" p) /\
  exists p' written,
    perform_all [Init; Toggle; Toggle; SetTheme "auto"; SetTheme "sepia";
                 SystemThemeChange false] p = Ret tt p' /\
    setItem_calls p' = written /\
    Forall (fun kv => kv.1 = storageKey /\ kv.2 ∈ themes_values) written.
Proof.
  cbv zeta.
  destruct (only_theme_preference_is_written
              [Init; Toggle; Toggle; SetTheme "auto"; SetTheme "sepia";
               SystemThemeChange false]
              (Examples.page_with_storage ∅))
    as (_ & _ & (p' & written & Hrun & Hcalls & Hvalid & _) & Hreject).
  split.
  - apply Hreject. unfold themes_values, LIGHT, DARK, AUTO.
    rewrite !elem_of_cons, elem_of_nil.
    intros [H|[H|[H|[]]]]; discriminate H.
  - exists p', written. split; [exact Hrun|]. split; [exact Hcalls|exact Hvalid].
Defined.

End ThemeToggleProperties.


(** ** Properties of the contact form validation *)

Section ValidationProperties.
Import Form ContactFormValidator.

Lemma validated_only_refl n k fm : validated_only n k fm fm.
Proof. unfold validated_only. tauto. Qed.

Lemma validated_only_trans n k fm1 fm2 fm3 :
  validated_only n k fm1 fm2 -> validated_only n k fm2 fm3 ->
  validated_only n k fm1 fm3.
Proof.
  intros (A1 & B1 & C1 & D1 & E1 & F1) (A2 & B2 & C2 & D2 & E2 & F2).
  split; [|split; [|split; [|split; [|split]]]].
  - intros j Hj. rewrite A2, A1 by assumption. reflexivity.
  - intros j. rewrite B2, B1. reflexivity.
  - intros k' Hk. rewrite C2, C1 by assumption. reflexivity.
  - intros k'. rewrite D2, D1. reflexivity.
  - congruence.
  - congruence.
Qed.

Lemma validated_only_classes n k f fm :
  validated_only n k fm (update_input n (set_classList f) fm).
Proof.
  unfold validated_only, update_input, set_inputs; simpl.
  split; [|split; [|repeat split; auto]].
  - intros j Hj. apply list_lookup_alter_ne. congruence.
  - intros j. destruct (decide (n = j)) as [->|Hne].
    + rewrite list_lookup_alter_eq. destruct (inputs fm !! j); reflexivity.
    + rewrite list_lookup_alter_ne by assumption. reflexivity.
Qed.

Lemma validated_only_error n k g fm :
  validated_only n k fm (set_errors (alter g k) fm).
Proof.
  unfold validated_only, set_errors; simpl.
  split; [auto|]. split; [auto|]. split; [|split; [|auto]].
  - intros k' Hk. apply lookup_alter_ne. congruence.
  - intros k'. destruct (decide (k = k')) as [->|Hne].
    + rewrite lookup_alter_eq. rewrite fmap_is_Some. reflexivity.
    + rewrite lookup_alter_ne by assumption. reflexivity.
Qed.

Lemma clearFieldError_only n input fm :
  inputs fm !! n = Some input ->
  validated_only n (id input ++ "-error") fm (clearFieldError n fm).
Proof.
  intros Hn. unfold clearFieldError. rewrite Hn.
  eapply validated_only_trans; [apply validated_only_error|].
  apply validated_only_classes.
Qed.

Lemma showFieldError_only n k message errorClass fm :
  validated_only n k fm (showFieldError n k message errorClass fm).
Proof.
  unfold showFieldError.
  eapply validated_only_trans; [apply validated_only_classes|].
  apply validated_only_error.
Qed.

Lemma clearFieldError_input n input fm :
  inputs fm !! n = Some input ->
  exists input', inputs (clearFieldError n fm) !! n = Some input' /\
    without_classes input' = without_classes input.
Proof.
  intros Hn. destruct (clearFieldError_only n input fm Hn) as (_ & B & _).
  specialize (B n). rewrite Hn in B.
  destruct (inputs (clearFieldError n fm) !! n) as [input'|]; [|discriminate].
  exists input'. split; [reflexivity|]. simpl in B. congruence.
Qed.

(** [validateField] changes nothing but the field it validates. *)
Lemma validateField_only n input r fm :
  inputs fm !! n = Some input ->
  validated_only n (id input ++ "-error") fm (validateField (Some n) r fm).2.
Proof.
  intros Hn. unfold validateField. simpl. rewrite Hn. simpl.
  destruct (errors fm !! (id input ++ "-error")); [|apply validated_only_refl].
  pose proof (clearFieldError_only n input fm Hn) as Hclear.
  repeat match goal with
         | |- context [if ?c then _ else _] => destruct c
         end; simpl;
    try exact Hclear;
    (eapply validated_only_trans; [exact Hclear|]);
    first [apply showFieldError_only | apply validated_only_classes].
Qed.

Lemma validateField_missing n r fm :
  inputs fm !! n = None -> validateField (Some n) r fm = (true, fm).
Proof. intros Hn. unfold validateField. simpl. rewrite Hn. reflexivity. Qed.

Lemma validated_only_same n k fm fm' :
  validated_only n k fm fm' -> same_controls fm fm'.
Proof. unfold validated_only, same_controls. tauto. Qed.

Lemma same_controls_refl fm : same_controls fm fm.
Proof. unfold same_controls. tauto. Qed.

Lemma same_controls_trans fm1 fm2 fm3 :
  same_controls fm1 fm2 -> same_controls fm2 fm3 -> same_controls fm1 fm3.
Proof.
  intros (B1 & D1 & E1 & F1) (B2 & D2 & E2 & F2).
  split; [|split; [|split]].
  - intros j. rewrite B2, B1. reflexivity.
  - intros k'. rewrite D2, D1. reflexivity.
  - congruence.
  - congruence.
Qed.

Lemma validateField_same input r fm :
  same_controls fm (validateField input r fm).2.
Proof.
  destruct input as [n|]; [|apply same_controls_refl].
  destruct (inputs fm !! n) as [i|] eqn:Hn.
  - eapply validated_only_same, validateField_only, Hn.
  - rewrite validateField_missing by assumption. apply same_controls_refl.
Qed.

Lemma querySelector_id_same i fm fm' :
  same_controls fm fm' -> querySelector_id i fm' = querySelector_id i fm.
Proof.
  intros (B & _).
  assert (Heq : without_classes <$> inputs fm' = without_classes <$> inputs fm).
  { apply list_eq. intros j. rewrite !list_lookup_fmap. apply B. }
  assert (Hq : forall l,
    fst <$> list_find (fun x => id x = i) l =
    fst <$> list_find (fun x => id x = i) (without_classes <$> l)).
  { intros l. rewrite list_find_fmap.
    unfold compose. simpl.
    destruct (list_find (fun x => id x = i) l) as [[]|]; reflexivity. }
  unfold querySelector_id. rewrite (Hq (inputs fm')), (Hq (inputs fm)), Heq.
  reflexivity.
Qed.

Lemma querySelector_id_Some i fm n :
  querySelector_id i fm = Some n ->
  exists input, inputs fm !! n = Some input /\ id input = i.
Proof.
  unfold querySelector_id. intros H.
  destruct (list_find (fun x => id x = i) (inputs fm)) as [[m x]|] eqn:E;
    [|discriminate].
  simpl in H. inversion H; subst m.
  apply list_find_Some in E as (Hx & Hid & _). eauto.
Qed.

Lemma validate_each_same fs isValid fm :
  same_controls fm (validate_each fs isValid fm).2.
Proof.
  revert isValid fm. induction fs as [|f fs IH]; intros isValid fm; simpl.
  - apply same_controls_refl.
  - pose proof (validateField_same (querySelector_id f.1 fm) (Some f.2) fm) as H1.
    destruct (validateField (querySelector_id f.1 fm) (Some f.2) fm) as [ok fm1].
    eapply same_controls_trans; [exact H1|apply IH].
Qed.

Lemma validate_each_false fs fm : (validate_each fs false fm).1 = false.
Proof.
  revert fm. induction fs as [|f fs IH]; intros fm; simpl; [reflexivity|].
  destruct (validateField (querySelector_id f.1 fm) (Some f.2) fm) as [ok fm1].
  destruct ok; apply IH.
Qed.

Lemma string_length_app (s t : string) :
  String.length (s ++ t) = String.length s + String.length t.
Proof. induction s as [|c s IH]; simpl; [reflexivity|]. rewrite IH. reflexivity. Qed.

Lemma string_app_inv_tail (s1 s2 t : string) : s1 ++ t = s2 ++ t -> s1 = s2.
Proof.
  revert s2. induction s1 as [|a s1 IH]; intros [|b s2] H; simpl in H.
  - reflexivity.
  - apply (f_equal String.length) in H.
    simpl in H. rewrite !string_length_app in H. simpl in H. lia.
  - apply (f_equal String.length) in H.
    simpl in H. rewrite !string_length_app in H. simpl in H. lia.
  - injection H as -> H. f_equal. apply IH, H.
Qed.

(** A required field whose trimmed value is empty fails validation and
    is marked, provided its error element exists. *)
Lemma validateField_required_empty n input r fm :
  inputs fm !! n = Some input ->
  required r = true ->
  trim (value input) = "" ->
  is_Some (errors fm !! (id input ++ "-error")) ->
  (validateField (Some n) (Some r) fm).1 = false /\
  marked_required n (id input ++ "-error")
    (capitalize (fieldName input) ++ " is required")
    (validateField (Some n) (Some r) fm).2.
Proof.
  intros Hn Hreq Hval [e He]. unfold validateField. simpl.
  rewrite Hn. simpl. rewrite He, Hreq, Hval. simpl.
  split; [reflexivity|].
  destruct (clearFieldError_input n input fm Hn) as (input' & Hn' & _).
  destruct (clearFieldError_only n input fm Hn) as (_ & _ & _ & D & _).
  assert (He' : is_Some (errors (clearFieldError n fm) !! (id input ++ "-error"))).
  { apply D. eauto. }
  destruct He' as [e' He'].
  unfold marked_required, showFieldError, update_input, set_inputs, set_errors.
  simpl. split.
  - rewrite list_lookup_alter_eq, Hn'. simpl. eexists. split; [reflexivity|].
    simpl. clear. split; [set_solver|].
    rewrite elem_of_difference, elem_of_singleton. tauto.
  - rewrite lookup_alter_eq, He'. simpl. eexists. split; [reflexivity|].
    simpl. clear. split; [reflexivity|]. split; set_solver.
Qed.

Lemma marked_required_preserved n' k' n k message fm fm' :
  validated_only n' k' fm fm' -> n' <> n -> k' <> k ->
  marked_required n k message fm -> marked_required n k message fm'.
Proof.
  intros (A & _ & C & _) Hn Hk [Hi He]. split.
  - rewrite A by congruence. exact Hi.
  - rewrite C by congruence. exact He.
Qed.

Lemma same_controls_input fm fm' n input :
  same_controls fm fm' -> inputs fm !! n = Some input ->
  exists input', inputs fm' !! n = Some input' /\
    id input' = id input /\ name input' = name input /\
    value input' = value input /\ attributes input' = attributes input.
Proof.
  intros (B & _) Hn. specialize (B n). rewrite Hn in B.
  destruct (inputs fm' !! n) as [input'|]; [|discriminate].
  exists input'. split; [reflexivity|]. simpl in B.
  injection B as B1 B2 B3 B4 B5 B6. auto.
Qed.

(** Validating fields with other ids leaves a marked field marked. *)
Lemma validate_each_keeps_mark fs isValid fm n i0 message :
  (forall f, f ∈ fs -> f.1 <> i0) ->
  (exists input, inputs fm !! n = Some input /\ id input = i0) ->
  marked_required n (i0 ++ "-error") message fm ->
  marked_required n (i0 ++ "-error") message (validate_each fs isValid fm).2.
Proof.
  revert isValid fm. induction fs as [|f fs IH]; intros isValid fm Hfs Hin Hm;
    simpl; [exact Hm|].
  assert (Hf : f.1 <> i0) by (apply Hfs; left).
  pose proof (validateField_same (querySelector_id f.1 fm) (Some f.2) fm) as Hsame.
  assert (Hm1 : marked_required n (i0 ++ "-error") message
                  (validateField (querySelector_id f.1 fm) (Some f.2) fm).2).
  { destruct (querySelector_id f.1 fm) as [m|] eqn:Hq; [|exact Hm].
    destruct (querySelector_id_Some _ _ _ Hq) as (inp & Hinp & Hid).
    eapply marked_required_preserved;
      [apply (validateField_only m inp (Some f.2) fm Hinp)| | |exact Hm].
    - intros ->. destruct Hin as (input & Hn & Hi). congruence.
    - rewrite Hid. intros H%string_app_inv_tail. contradiction. }
  destruct (validateField (querySelector_id f.1 fm) (Some f.2) fm) as [ok fm1].
  simpl in *. apply IH.
  - intros g Hg. apply Hfs. right. exact Hg.
  - destruct Hin as (input & Hn & Hi).
    destruct (same_controls_input _ _ _ _ Hsame Hn) as (input' & Hn' & Hid & _).
    exists input'. split; [exact Hn'|congruence].
  - exact Hm1.
Qed.

(** The loop of [validateForm] fails on, and marks, a required field with
    an empty trimmed value. *)
Lemma validate_each_marks fs isValid fm n i0 r fname :
  NoDup fs.*1 ->
  (i0, r) ∈ fs ->
  required r = true ->
  querySelector_id i0 fm = Some n ->
  (exists input, inputs fm !! n = Some input /\
     trim (value input) = "" /\ fieldName input = fname) ->
  is_Some (errors fm !! (i0 ++ "-error")) ->
  (validate_each fs isValid fm).1 = false /\
  marked_required n (i0 ++ "-error") (capitalize fname ++ " is required")
    (validate_each fs isValid fm).2.
Proof.
  revert isValid fm.
  induction fs as [|f fs IH]; intros isValid fm Hnd Hin Hreq Hq Hinput Herr.
  { apply elem_of_nil in Hin as []. }
  simpl. apply NoDup_cons in Hnd as [Hnotin Hnd].
  apply elem_of_cons in Hin as [Heq|Hin].
  - subst f. simpl. rewrite Hq.
    destruct Hinput as (input & Hn & Hval & Hname).
    destruct (querySelector_id_Some _ _ _ Hq) as (input0 & Hn0 & Hid).
    assert (input0 = input) by congruence. subst input0.
    rewrite <- Hid in Herr.
    destruct (validateField_required_empty n input r fm Hn Hreq Hval Herr)
      as [Hfail Hmark].
    pose proof (validateField_same (Some n) (Some r) fm) as Hsame.
    destruct (validateField (Some n) (Some r) fm) as [ok fm1].
    simpl in Hfail, Hmark, Hsame. subst ok. simpl. split.
    + apply validate_each_false.
    + subst fname. rewrite Hid in Hmark. apply validate_each_keeps_mark.
      * intros g Hg Hg1. apply Hnotin. simpl. rewrite <- Hg1.
        apply list_elem_of_fmap. exists g. split; [reflexivity|exact Hg].
      * destruct (same_controls_input _ _ _ _ Hsame Hn) as (input' & Hn' & Hid' & _).
        exists input'. split; [exact Hn'|congruence].
      * exact Hmark.
  - pose proof (validateField_same (querySelector_id f.1 fm) (Some f.2) fm) as Hsame.
    destruct (validateField (querySelector_id f.1 fm) (Some f.2) fm) as [ok fm1].
    simpl in Hsame. apply IH; auto.
    + rewrite (querySelector_id_same i0 fm fm1 Hsame). exact Hq.
    + destruct Hinput as (input & Hn & Hval & Hname).
      destruct (same_controls_input _ _ _ _ Hsame Hn)
        as (input' & Hn' & Hid' & Hnm & Hv & _).
      exists input'. split; [exact Hn'|]. unfold fieldName in *.
      rewrite Hv, Hnm, Hid'. auto.
    + destruct Hsame as (_ & D & _). apply D. exact Herr.
Qed.

Lemma fields_required i0 r : (i0, r) ∈ fields -> required r = true.
Proof.
  unfold fields. rewrite !elem_of_cons, elem_of_nil.
  intros [H|[H|[H|[H|[]]]]]; inversion H; reflexivity.
Qed.

Lemma fields_NoDup : NoDup fields.*1.
Proof. apply (bool_decide_unpack _). vm_compute. exact I. Qed.

(** What accessibility.js does with a field that has the [required]
    attribute and an empty trimmed value. *)
Lemma accessibility_marks_required lt n input fm :
  inputs fm !! n = Some input ->
  is_Some (attributes input !! "required") ->
  trim (value input) = "" ->
  (Accessibility.validateField lt n fm).1 = false /\
  exists input',
    inputs (Accessibility.validateField lt n fm).2 !! n = Some input' /\
    attributes input' !! "aria-invalid" = Some "true" /\
    "error" ∈ classList input'.
Proof.
  intros Hn Hreq Hval. unfold Accessibility.validateField, Accessibility.check_field.
  rewrite Hn, Hval. rewrite bool_decide_eq_true_2 by exact Hreq. simpl.
  split; [reflexivity|].
  rewrite list_lookup_alter_eq, Hn. simpl. eexists. split; [reflexivity|].
  simpl. split; [apply lookup_insert_eq|set_solver].
Qed.

(** [handleSubmit] on its own.  When no submission is in progress and one
    of the fields the validator checks is present with its error element
    and has an empty trimmed value: [validateField] fails for it and so
    does [validateForm]; [handleSubmit] does not reach [submitForm]
    (nothing is sent, no link is opened, the button and the submitting
    flag are untouched) and shows the error status instead; the field
    carries the class [error] and its error element shows
    '<Field> is required'. *)
Lemma handleSubmit_blocks
    (env : browser) (v : validator)
    (i0 : string) (r : rules) (n : nat) (input : Form.input) :
  isSubmitting v = false ->
  (i0, r) ∈ fields ->
  querySelector_id i0 (form v) = Some n ->
  inputs (form v) !! n = Some input ->
  trim (value input) = "" ->
  is_Some (errors (form v) !! (i0 ++ "-error")) ->
  (validateField (Some n) (Some r) (form v)).1 = false /\
  (validateForm (form v)).1 = false /\
  handleSubmit env v =
    on_form (showFormStatus "Please fix the validation errors above." "error")
      (on_form (fun _ => (validateForm (form v)).2) v) /\
  effects (handleSubmit env v) = effects v /\
  isSubmitting (handleSubmit env v) = false /\
  submitButton (form (handleSubmit env v)) = submitButton (form v) /\
  formStatus (form (handleSubmit env v)) =
    (fun st => StatusElement "Please fix the validation errors above."
                 "form-status show error" (status_attributes st))
    <$> formStatus (form v) /\
  marked_required n (i0 ++ "-error")
    (capitalize (fieldName input) ++ " is required") (form (handleSubmit env v)) /\
  same_controls (form v) (validateForm (form v)).2.
Proof.
  intros Hsub Hin Hq Hn Hval Herr.
  pose proof (fields_required _ _ Hin) as Hreq.
  destruct (querySelector_id_Some _ _ _ Hq) as (input0 & Hn0 & Hid).
  assert (input0 = input) by congruence. subst input0.
  destruct (validate_each_marks fields true (form v) n i0 r (fieldName input)
              fields_NoDup Hin Hreq Hq) as [Hfail Hmark]; [eauto|exact Herr|].
  pose proof (validate_each_same fields true (form v)) as Hsame.
  pose proof Hsame as (_ & _ & Hst & Hbtn).
  fold (validateForm (form v)) in Hfail, Hmark, Hst, Hbtn, Hsame.
  split.
  { rewrite <- Hid in Herr.
    apply (validateField_required_empty n input r (form v) Hn Hreq Hval Herr). }
  split; [exact Hfail|].
  unfold handleSubmit. rewrite Hsub.
  destruct (validateForm (form v)) as [isValid fm] eqn:Hv.
  simpl in Hfail, Hmark, Hst, Hbtn, Hsame. subst isValid.
  cbn [on_form effects isSubmitting form snd].
  split; [reflexivity|].
  split; [reflexivity|]. split; [exact Hsub|]. split; [exact Hbtn|].
  split; [|split].
  - unfold showFormStatus, set_formStatus. simpl. rewrite Hst. reflexivity.
  - exact Hmark.
  - exact Hsame.
Qed.

End ValidationProperties.


(** ** Properties of the contact form submission *)

Section SubmissionProperties.
Import Form ContactFormValidator.
Local Open Scope js_scope.

Lemma fetched_app es1 es2 : fetched (es1 ++ es2) = (fetched es1 ++ fetched es2)%list.
Proof. apply omap_app. Qed.

Lemma navigated_app es1 es2 :
  navigated (es1 ++ es2) = (navigated es1 ++ navigated es2)%list.
Proof. apply omap_app. Qed.

(** One turn of the loop of [submitFormData]. *)
Lemma try_services_cons env s rest data v :
  try_services env (s :: rest) data v =
  let n := List.length (fetched (effects v)) in
  let v1 := log_effect (Fetch (endpoint s) (method s) data) v in
  match network env n (endpoint s) with
  | Response true => Ret (Some (Submission true (service_name s))) v1
  | Response false => try_services env rest data v1
  | NetworkError =>
      try_services env rest data
        (log_effect
           (ConsoleWarn (service_name s ++ " failed: TypeError: Failed to fetch")) v1)
  end.
Proof.
  simpl. unfold bind at 1. unfold try_catch, bind, fetch.
  destruct (network env (List.length (fetched (effects v))) (endpoint s))
    as [|[]]; reflexivity.
Qed.

Lemma fetched_length_snoc es u m b :
  List.length (fetched (es ++ [Fetch u m b])) = S (List.length (fetched es)).
Proof. rewrite fetched_app, length_app. simpl. lia. Qed.

Lemma fetched_length_snoc_warn es u m b w :
  List.length (fetched ((es ++ [Fetch u m b]) ++ [ConsoleWarn w])) =
  S (List.length (fetched es)).
Proof. rewrite fetched_app, length_app, fetched_length_snoc. simpl. lia. Qed.

(** What [submitFormData] does, by the outcomes of the two requests. *)
Lemma submitFormData_spec env data v :
  let n := List.length (fetched (effects v)) in
  let first := network env n formspree_endpoint in
  let second := network env (S n) (location_href env) in
  exists es,
    submitFormData env data v =
      Ret (if attempt_fails first
           then if attempt_fails second
                then Submission true "mailto"
                else Submission true "Netlify Forms"
           else Submission true "Formspree")
          (Validator (form v) (isSubmitting v) (effects v ++ es)) /\
    fetched es =
      formspree_endpoint ::
        (if attempt_fails first then [location_href env] else []) /\
    navigated es =
      (if attempt_fails first && attempt_fails second
       then [mailtoLink (payload env data)] else []) /\
    Forall quiet_effect es.
Proof.
  intros n first second. unfold submitFormData, services, bind.
  fold (payload env data). rewrite try_services_cons. cbn [endpoint method service_name].
  fold formspree_endpoint. fold n. fold first.
  destruct first as [|[]] eqn:E1; cbn [attempt_fails negb].
  - rewrite try_services_cons. cbn [endpoint method service_name effects log_effect].
    rewrite fetched_length_snoc_warn. fold n. fold second.
    destruct second as [|[]] eqn:E2; cbn [attempt_fails negb andb].
    + eexists. split.
      { unfold try_services, ret, fallbackToMailto, bind, modify, log_effect.
        cbn [form isSubmitting effects]. rewrite <- !app_assoc. reflexivity. }
      repeat split; repeat constructor.
    + eexists. split.
      { unfold log_effect. cbn [form isSubmitting effects].
        rewrite <- !app_assoc. reflexivity. }
      repeat split; repeat constructor.
    + eexists. split.
      { unfold try_services, ret, fallbackToMailto, bind, modify, log_effect.
        cbn [form isSubmitting effects]. rewrite <- !app_assoc. reflexivity. }
      repeat split; repeat constructor.
  - eexists. split.
    { unfold log_effect. reflexivity. }
    repeat split; repeat constructor.
  - rewrite try_services_cons. cbn [endpoint method service_name effects log_effect].
    rewrite fetched_length_snoc. fold n. fold second.
    destruct second as [|[]] eqn:E2; cbn [attempt_fails negb andb].
    + eexists. split.
      { unfold try_services, ret, fallbackToMailto, bind, modify, log_effect.
        cbn [form isSubmitting effects]. rewrite <- !app_assoc. reflexivity. }
      repeat split; repeat constructor.
    + eexists. split.
      { unfold log_effect. cbn [form isSubmitting effects].
        rewrite <- !app_assoc. reflexivity. }
      repeat split; repeat constructor.
    + eexists. split.
      { unfold try_services, ret, fallbackToMailto, bind, modify, log_effect.
        cbn [form isSubmitting effects]. rewrite <- !app_assoc. reflexivity. }
      repeat split; repeat constructor.
Qed.

(** What [submitForm] does when the form has its submit button. *)
Lemma submitForm_spec env v b :
  submitButton (form v) = Some b ->
  exists r es,
    submitFormData env (formData (form v))
      (Validator
         (showFormStatus "Sending your message..." "loading"
            (set_submitButton (fun _ => Some (Button true sending_innerHTML)) (form v)))
         true (effects v)) =
      Ret r
        (Validator
           (showFormStatus "Sending your message..." "loading"
              (set_submitButton (fun _ => Some (Button true sending_innerHTML)) (form v)))
           true (effects v ++ es)) /\
    submitForm env v =
      Ret tt
        (Validator
           (set_submitButton (fun _ => Some (Button false (innerHTML b)))
              (handleReset
                 (form_reset
                    (showFormStatus success_message "success"
                       (showFormStatus "Sending your message..." "loading"
                          (set_submitButton
                             (fun _ => Some (Button true sending_innerHTML))
                             (form v)))))))
           false (effects v ++ es)).
Proof.
  intros Hb.
  pose proof (submitFormData_spec env (formData (form v))
    (Validator
       (showFormStatus "Sending your message..." "loading"
          (set_submitButton (fun _ => Some (Button true sending_innerHTML)) (form v)))
       true (effects v))) as Hspec.
  cbv zeta in Hspec. destruct Hspec as (es & Hrun & _).
  cbn [form isSubmitting effects] in Hrun.
  eexists _, es. split; [exact Hrun|].
  unfold submitForm, bind, modify, gets, try_catch, on_form, set_isSubmitting.
  cbn [form isSubmitting effects]. rewrite Hb.
  cbn [form isSubmitting effects].
  change (formData (showFormStatus "Sending your message..." "loading"
     (set_submitButton (fun _ => Some (Button true sending_innerHTML)) (form v))))
    with (formData (form v)).
  rewrite Hrun. reflexivity.
Qed.

(** C2. [submitFormData] always posts to the first endpoint (Formspree);
    it posts to the second one (the page's own URL) exactly when the first
    attempt failed, by a network error or a response that is not ok; and it
    opens the mailto link exactly when both attempts failed.  A submission
    whose fields all pass validation reaches [submitFormData] and makes
    these requests. *)
Theorem submission_tries_endpoints_in_order (env : browser) (v : validator) :
  let n := List.length (fetched (effects v)) in
  let first := network env n formspree_endpoint in
  let second := network env (S n) (location_href env) in
  let requests :=
    formspree_endpoint ::
      (if attempt_fails first then [location_href env] else []) in
  (forall data, exists r v' es,
     submitFormData env data v = Ret r v' /\
     effects v' = (effects v ++ es)%list /\
     fetched es = requests /\
     Forall (fun e => match e with Fetch _ m _ => m = "POST" | _ => True end) es /\
     (navigated es <> [] <->
      attempt_fails first = true /\ attempt_fails second = true) /\
     (forall link, link ∈ navigated es ->
        link = mailtoLink (payload env data) /\
        String.prefix "mailto:" link = true)) /\
  (isSubmitting v = false ->
   (validateForm (form v)).1 = true ->
   is_Some (submitButton (form v)) ->
   exists es,
     effects (handleSubmit env v) = (effects v ++ es)%list /\
     fetched es = requests /\
     (navigated es <> [] <->
      attempt_fails first = true /\ attempt_fails second = true)).
Proof.
  cbv zeta.
  assert (Hnav : forall (a b : bool) (x : string),
    (if a && b then [x] else []) <> [] <-> a = true /\ b = true).
  { intros [] [] x; simpl; split; intros H;
      try discriminate; try (destruct H; discriminate); try contradiction; auto. }
  split.
  - intros data.
    destruct (submitFormData_spec env data v) as (es & Hrun & Hf & Hn & Hq).
    eexists _, _, es. split; [exact Hrun|]. split; [reflexivity|].
    split; [exact Hf|]. split; [|split].
    + eapply Forall_impl; [exact Hq|]. intros [] H; simpl in *; auto.
    + rewrite Hn. apply Hnav.
    + intros link. rewrite Hn.
      destruct (attempt_fails _ && attempt_fails _).
      * intros ->%list_elem_of_singleton. split; reflexivity.
      * intros []%elem_of_nil.
  - intros Hsub Hvalid [b Hb]. unfold handleSubmit. rewrite Hsub.
    destruct (validateForm (form v)) as [isValid fm] eqn:Hv.
    simpl in Hvalid. subst isValid.
    assert (Hb' : exists b', submitButton fm = Some b').
    { pose proof (validate_each_same fields true (form v)) as (_ & _ & _ & Hsame).
      fold (validateForm (form v)) in Hsame. rewrite Hv in Hsame. simpl in Hsame.
      exists b. congruence. }
    destruct Hb' as (b' & Hb').
    destruct (submitForm_spec env (on_form (fun _ => fm) v) b' Hb')
      as (r & es & Hdata & ->).
    cbn [effects on_form form] in *.
    pose proof (submitFormData_spec env (formData fm)
      (Validator
         (showFormStatus "Sending your message..." "loading"
            (set_submitButton (fun _ => Some (Button true sending_innerHTML)) fm))
         true (effects v))) as Hspec.
    cbv zeta in Hspec. destruct Hspec as (es' & Hrun & Hf & Hn & Hq).
    cbn [form isSubmitting effects] in Hrun. rewrite Hrun in Hdata.
    inversion Hdata as [[Hr Hes]]. apply app_inv_head in Hes. subst es'.
    exists es. split; [reflexivity|]. split; [exact Hf|].
    rewrite Hn. apply Hnav.
Qed.

Lemma formStatus_set_submitButton f fm :
  formStatus (set_submitButton f fm) = formStatus fm.
Proof. reflexivity. Qed.

Lemma formStatus_showFormStatus message type fm :
  formStatus (showFormStatus message type fm) =
  (fun st => StatusElement message ("form-status show " ++ type)
               (status_attributes st)) <$> formStatus fm.
Proof. reflexivity. Qed.

Lemma formStatus_handleReset fm :
  formStatus (handleReset fm) =
  (fun st => StatusElement "" "form-status" (status_attributes st))
  <$> formStatus fm.
Proof. reflexivity. Qed.

Lemma formStatus_form_reset fm :
  formStatus (form_reset fm) =
  (fun st => StatusElement "" "form-status" (status_attributes st))
  <$> formStatus fm.
Proof. reflexivity. Qed.

(** [submitFormData] never throws, whatever the network does. *)
Lemma submitFormData_completes env data v : completes (submitFormData env data v).
Proof.
  destruct (submitFormData_spec env data v) as (es & -> & _). exact I.
Qed.

(** [submitForm] on a form with its button and its status element: the
    [catch] branch is never taken, and the status element ends up cleared
    by the [handleReset] that follows [showFormStatus]. *)
Lemma submitForm_outcome env v b st :
  submitButton (form v) = Some b ->
  formStatus (form v) = Some st ->
  exists v' es,
    submitForm env v = Ret tt v' /\
    effects v' = (effects v ++ es)%list /\
    Forall quiet_effect es /\
    isSubmitting v' = false /\
    formStatus (form v') = Some (StatusElement "" "form-status" (status_attributes st)).
Proof.
  intros Hb Hst.
  destruct (submitForm_spec env v b Hb) as (r & es & Hdata & ->).
  pose proof (submitFormData_spec env (formData (form v))
    (Validator
       (showFormStatus "Sending your message..." "loading"
          (set_submitButton (fun _ => Some (Button true sending_innerHTML)) (form v)))
       true (effects v))) as Hspec.
  cbv zeta in Hspec. destruct Hspec as (es' & Hrun & _ & _ & Hq).
  cbn [form isSubmitting effects] in Hrun. rewrite Hrun in Hdata.
  inversion Hdata as [[Hr Hes]]. apply app_inv_head in Hes. subst es'.
  eexists _, es. split; [reflexivity|]. cbn [effects isSubmitting form].
  split; [reflexivity|]. split; [exact Hq|]. split; [reflexivity|].
  rewrite formStatus_set_submitButton, formStatus_handleReset,
    formStatus_form_reset, !formStatus_showFormStatus,
    formStatus_set_submitButton, Hst.
  reflexivity.
Qed.

(** C10, evaluated on the contact form filled with valid values while both
    endpoints are unreachable: both requests are made and fail, the mailto
    link is opened, nothing is reported as an error, and yet the status
    element does not show the success message: [showFormStatus] is followed
    by [form.reset()] and [handleReset()], which clear it. *)
Theorem success_status_is_cleared_when_endpoints_fail :
  let v := Examples.fresh
             (Examples.contact_form "Ada" "ada@example.org" "Hello there"
                "A message long enough") in
  let v' := handleSubmit Examples.offline v in
  (validateForm (form v)).1 = true /\
  fetched (effects v') = [formspree_endpoint; "https://example.org/contact/"] /\
  List.length (navigated (effects v')) = 1 /\
  Forall quiet_effect (effects v') /\
  formStatus (form v') = Some (StatusElement "" "form-status" ∅) /\
  status_text <$> formStatus (form v') <> Some success_message.
Proof.
  cbv zeta. split; [vm_compute; reflexivity|].
  split; [vm_compute; reflexivity|].
  split; [vm_compute; reflexivity|].
  split.
  { vm_compute. repeat constructor. }
  split; [vm_compute; reflexivity|].
  vm_compute. discriminate.
Qed.

(** C2 on the contact form filled with valid values, when the first
    endpoint answers with an error status and the second accepts: both
    requests are made, in order, and no link is opened. *)
Lemma submission_tries_endpoints_in_order_witness :
  let v := Examples.fresh
             (Examples.contact_form "Ada" "ada@example.org" "Hello there"
                "A message long enough") in
  exists es,
    effects (handleSubmit Examples.second_endpoint_up v) = es /\
    fetched es = [formspree_endpoint; "https://example.org/contact/"] /\
    navigated es = [].
Proof.
  cbv zeta.
  destruct (submission_tries_endpoints_in_order Examples.second_endpoint_up
              (Examples.fresh
                 (Examples.contact_form "Ada" "ada@example.org" "Hello there"
                    "A message long enough"))) as [_ H].
  destruct H as (es & He & Hf & Hn).
  - reflexivity.
  - vm_compute. reflexivity.
  - eexists. reflexivity.
  - exists es. split; [exact He|]. split; [exact Hf|].
    destruct (navigated es) as [|link l]; [reflexivity|].
    assert (Hne : link :: l <> []) by discriminate.
    apply Hn in Hne as [_ Hsecond]. discriminate Hsecond.
Defined.

End SubmissionProperties.


(** ** Properties of the mobile navigation *)

Section NavigationProperties.
Import Navigation.

(** The trap on a Tab key, from a link of the navigation. *)
Lemma trap_focus_Tab shift p i :
  activeElement p = OnLink i -> i < links p ->
  trap_focus (Keydown "Tab" shift) p =
  if shift
  then (if Nat.eqb i 0 then (true, focus (OnLink (links p - 1)) p) else (false, p))
  else (if Nat.eqb i (links p - 1) then (true, focus (OnLink 0) p) else (false, p)).
Proof.
  intros Hfocus Hlt.
  assert (Hpos : Nat.ltb 0 (links p) = true) by (apply Nat.ltb_lt; lia).
  unfold trap_focus. cbn [key shiftKey String.eqb Ascii.eqb Bool.eqb andb].
  rewrite Hpos, Hfocus. cbn [default].
  destruct shift.
  - destruct (Nat.eqb_spec i 0) as [->|Hi].
    + rewrite bool_decide_eq_true_2 by reflexivity. reflexivity.
    + rewrite bool_decide_eq_false_2 by (intros H; inversion H; lia). reflexivity.
  - destruct (Nat.eqb_spec i (links p - 1)) as [->|Hi].
    + rewrite bool_decide_eq_true_2 by reflexivity. reflexivity.
    + rewrite bool_decide_eq_false_2 by (intros H; inversion H; lia). reflexivity.
Qed.

(** The listeners a Tab key runs through when the focus is inside the
    navigation. *)
Lemma keydown_Tab with_accessibility shift p :
  target_in_nav p = true ->
  keydown with_accessibility (Keydown "Tab" shift) p =
  let e := Keydown "Tab" shift in
  let r1 := trap_focus e p in
  let r2 := if with_accessibility then trap_focus e r1.2 else (false, r1.2) in
  let p4 := if with_accessibility then keyboard_detection e r2.2 else r2.2 in
  if r1.1 || r2.1 then p4 else default_tab e p4.
Proof.
  intros Hin. unfold keydown, accessibility_nav_keydown, document_keydown.
  rewrite Hin. cbn [key String.eqb Ascii.eqb Bool.eqb andb].
  destruct (trap_focus (Keydown "Tab" shift) p) as [pr1 p1].
  destruct with_accessibility; cbn [fst snd].
  - destruct (trap_focus (Keydown "Tab" shift) p1) as [pr2 p2]. reflexivity.
  - reflexivity.
Qed.

Lemma keyboard_detection_focus e p :
  activeElement (keyboard_detection e p) = activeElement p /\
  links (keyboard_detection e p) = links p.
Proof.
  unfold keyboard_detection. destruct (String.eqb (key e) "Tab"); split; reflexivity.
Qed.

(** Where a Tab key leaves the focus, from a link of the navigation. *)
Lemma keydown_Tab_focus with_accessibility shift p i :
  activeElement p = OnLink i -> i < links p ->
  activeElement (keydown with_accessibility (Keydown "Tab" shift) p) =
  OnLink (if shift then (if Nat.eqb i 0 then links p - 1 else i - 1)
          else (if Nat.ltb (i + 1) (links p) then i + 1 else 0)).
Proof.
  intros Hfocus Hlt.
  rewrite keydown_Tab by (unfold target_in_nav; rewrite Hfocus; reflexivity).
  cbv zeta. rewrite (trap_focus_Tab shift p i Hfocus Hlt).
  destruct shift.
  - destruct (Nat.eqb_spec i 0) as [->|Hi]; cbn [fst snd].
    + destruct with_accessibility; cbn [orb]; [|reflexivity].
      rewrite (trap_focus_Tab true _ (links p - 1)) by (simpl; lia || reflexivity).
      destruct (Nat.eqb (links p - 1) 0); cbn [fst snd orb];
        rewrite (proj1 (keyboard_detection_focus _ _)); reflexivity.
    + destruct with_accessibility; cbn [fst snd orb].
      * rewrite (trap_focus_Tab true p i Hfocus Hlt).
        destruct (Nat.eqb_spec i 0); [lia|]. cbn [fst snd].
        unfold default_tab. cbn [key shiftKey String.eqb Ascii.eqb Bool.eqb andb].
        rewrite (proj1 (keyboard_detection_focus _ _)), Hfocus.
        destruct (Nat.eqb_spec i 0); [lia|]. reflexivity.
      * unfold default_tab. cbn [key shiftKey String.eqb Ascii.eqb Bool.eqb andb].
        rewrite Hfocus. destruct (Nat.eqb_spec i 0); [lia|]. reflexivity.
  - destruct (Nat.eqb_spec i (links p - 1)) as [->|Hi]; cbn [fst snd].
    + destruct (Nat.ltb_spec (links p - 1 + 1) (links p)); [lia|].
      destruct with_accessibility; cbn [orb]; [|reflexivity].
      rewrite (trap_focus_Tab false _ 0) by (simpl; lia || reflexivity).
      cbn [links focus].
      destruct (Nat.eqb 0 (links p - 1)); cbn [fst snd orb];
        rewrite (proj1 (keyboard_detection_focus _ _)); reflexivity.
    + destruct (Nat.ltb_spec (i + 1) (links p)); [|lia].
      destruct with_accessibility; cbn [fst snd orb].
      * rewrite (trap_focus_Tab false p i Hfocus Hlt).
        destruct (Nat.eqb_spec i (links p - 1)); [lia|]. cbn [fst snd].
        unfold default_tab. cbn [key shiftKey String.eqb Ascii.eqb Bool.eqb andb].
        rewrite (proj1 (keyboard_detection_focus _ _)),
          (proj2 (keyboard_detection_focus _ _)), Hfocus.
        destruct (Nat.ltb_spec (i + 1) (links p)); [|lia]. reflexivity.
      * unfold default_tab. cbn [key shiftKey String.eqb Ascii.eqb Bool.eqb andb].
        rewrite Hfocus. destruct (Nat.ltb_spec (i + 1) (links p)); [|lia].
        reflexivity.
Qed.

Lemma closed_after_close p :
  closed (set_body "" (fun c => c ∖ {["mobile-nav-open"]}) (set_aria "false" "true" p)).
Proof. split; apply lookup_insert_eq. Qed.

Lemma isExpanded_closed p : closed p -> isExpanded p = false.
Proof.
  intros [H _]. unfold isExpanded. rewrite H.
  apply bool_decide_eq_false_2. discriminate.
Qed.

Lemma toggleMobileNav_closes p :
  isAnimating p = false -> isExpanded p = true ->
  closed (toggleMobileNav p) /\ isAnimating (toggleMobileNav p) = true.
Proof.
  intros Hanim Hopen. unfold toggleMobileNav. rewrite Hanim, Hopen.
  cbn [negb bool_toString]. split; [|reflexivity].
  split; apply lookup_insert_eq.
Qed.

Lemma focus_first_on_open_closed p :
  closed p -> focus_first_on_open p = p.
Proof.
  intros H. unfold focus_first_on_open. rewrite (isExpanded_closed p H).
  reflexivity.
Qed.

Lemma click_toggle_closes with_accessibility p :
  isAnimating p = false -> isExpanded p = true ->
  closed (click_toggle with_accessibility p) /\
  isAnimating (click_toggle with_accessibility p) = true.
Proof.
  intros Hanim Hopen.
  destruct (toggleMobileNav_closes p Hanim Hopen) as [Hclosed Hanim'].
  unfold click_toggle. rewrite !(focus_first_on_open_closed _ Hclosed).
  destruct with_accessibility; auto.
Qed.

Lemma closeMobileNav_animating p :
  isAnimating p = true -> closeMobileNav p = p.
Proof. intros H. unfold closeMobileNav. rewrite H. reflexivity. Qed.

Lemma trap_focus_Escape p : trap_focus Escape p = (false, p).
Proof. reflexivity. Qed.

(** Escape closes the menu when no toggle animation is pending. *)
Lemma keydown_Escape_closes with_accessibility p :
  isAnimating p = false -> isExpanded p = true ->
  closed (keydown with_accessibility Escape p).
Proof.
  intros Hanim Hopen.
  assert (Hdirect : closed (closeMobileNav p)).
  { unfold closeMobileNav. rewrite Hanim. apply closed_after_close. }
  unfold keydown. rewrite trap_focus_Escape.
  destruct (target_in_nav p), with_accessibility; cbn [andb orb];
    try exact Hdirect.
  unfold accessibility_nav_keydown. rewrite trap_focus_Escape.
  cbn [Escape key String.eqb Ascii.eqb Bool.eqb andb].
  destruct (click_toggle_closes true p Hanim Hopen) as [Hclosed Hanim'].
  unfold document_keydown. cbn [key String.eqb Ascii.eqb Bool.eqb andb].
  rewrite closeMobileNav_animating by exact Hanim'.
  exact Hclosed.
Qed.

(** C8, as stated, fails while the toggle animation is pending: right
    after the click that opens the menu, and still after the first link
    has received the focus, an Escape key leaves the menu open, with or
    without accessibility.js. *)
Lemma escape_during_animation_keeps_menu_open :
  let opened := click_toggle true Examples.nav_closed in
  let focused := timer_fires 1 opened in
  isExpanded opened = true /\
  isAnimating opened = true /\
  activeElement focused = OnLink 0 /\
  isExpanded (keydown false Escape opened) = true /\
  isExpanded (keydown true Escape opened) = true /\
  isExpanded (keydown false Escape focused) = true /\
  isExpanded (keydown true Escape focused) = true /\
  ~ closed (keydown true Escape focused).
Proof.
  cbv zeta. repeat (split; [vm_compute; reflexivity|]).
  intros [H _]. vm_compute in H. discriminate H.
Qed.

(** C8 (amended). Tab on the last link of the mobile navigation moves
    the focus to the first link and Shift+Tab on the first link moves it to
    the last; from any link, Tab and Shift+Tab leave the focus on a link of
    the navigation (the keys the trap does not intercept move it to the
    neighbouring link, as the browser does); and an Escape key that arrives
    while the menu is open and no toggle animation is pending closes it:
    [aria-expanded] becomes "false" and [aria-hidden] becomes "true".  All
    of this holds with navigation.js alone and with accessibility.js
    loaded as well. *)
Theorem focus_is_trapped_and_escape_closes
    (with_accessibility : bool) (p : page) :
  (0 < links p -> activeElement p = OnLink (links p - 1) ->
   activeElement (keydown with_accessibility Tab p) = OnLink 0) /\
  (0 < links p -> activeElement p = OnLink 0 ->
   activeElement (keydown with_accessibility ShiftTab p) = OnLink (links p - 1)) /\
  (focus_on_link p ->
   focus_on_link (keydown with_accessibility Tab p) /\
   focus_on_link (keydown with_accessibility ShiftTab p)) /\
  (isExpanded p = true -> isAnimating p = false ->
   closed (keydown with_accessibility Escape p)).
Proof.
  assert (Hlinks : forall e, links (keydown with_accessibility e p) = links p).
  { intros e. unfold keydown, accessibility_nav_keydown, document_keydown,
      keyboard_detection, default_tab, closeMobileNav, click_toggle,
      toggleMobileNav, focus_first_on_open, trap_focus.
    repeat match goal with
           | |- context [if ?c then _ else _] => destruct c
           | |- context [match ?c with _ => _ end] => destruct c
           end; reflexivity. }
  split; [|split; [|split]].
  - intros Hpos Hfocus. unfold Tab.
    rewrite (keydown_Tab_focus _ _ _ _ Hfocus) by lia.
    destruct (Nat.ltb_spec (links p - 1 + 1) (links p)); [lia|reflexivity].
  - intros Hpos Hfocus. unfold ShiftTab.
    rewrite (keydown_Tab_focus _ _ _ _ Hfocus) by lia. reflexivity.
  - intros (i & Hfocus & Hlt). unfold focus_on_link, Tab, ShiftTab.
    rewrite !Hlinks, !(keydown_Tab_focus _ _ _ _ Hfocus) by lia. split.
    + eexists. split; [reflexivity|].
      destruct (Nat.ltb_spec (i + 1) (links p)); lia.
    + eexists. split; [reflexivity|].
      destruct (Nat.eqb_spec i 0); lia.
  - intros Hopen Hanim. apply keydown_Escape_closes; assumption.
Qed.

(** The amended C8 on an open menu of three links whose animation is
    over. *)
Lemma focus_is_trapped_and_escape_closes_witness :
  let p := focus (OnLink 2)
             (timer_fires 0 (click_toggle true Examples.nav_closed)) in
  activeElement (keydown true Tab p) = OnLink 0 /\
  closed (keydown true Escape p).
Proof.
  cbv zeta.
  destruct (focus_is_trapped_and_escape_closes true
              (focus (OnLink 2)
                 (timer_fires 0 (click_toggle true Examples.nav_closed))))
    as (Htab & _ & _ & Hesc).
  split.
  - apply Htab; [vm_compute; lia|reflexivity].
  - apply Hesc; vm_compute; reflexivity.
Defined.

End NavigationProperties.


(** ** Properties of the service worker *)

Section ServiceWorkerProperties.
Import ServiceWorker.
Local Open Scope js_scope.

Lemma lookup_cache_app name cs cs' :
  lookup_cache name (cs ++ cs') =
  match lookup_cache name cs with
  | Some c => Some c
  | None => lookup_cache name cs'
  end.
Proof.
  induction cs as [|[n c] cs IH]; simpl; [reflexivity|].
  destruct (String.eqb n name); [reflexivity|exact IH].
Qed.

Lemma lookup_cache_open name cs :
  lookup_cache name (caches_open name cs) =
  Some (default ∅ (lookup_cache name cs)).
Proof.
  unfold caches_open. destruct (lookup_cache name cs) as [c|] eqn:E.
  - rewrite E. reflexivity.
  - rewrite lookup_cache_app, E. simpl. rewrite String.eqb_refl. reflexivity.
Qed.

Lemma lookup_cache_update name f cs :
  lookup_cache name (update_cache name f cs) = f <$> lookup_cache name cs.
Proof.
  induction cs as [|[n c] cs IH]; simpl; [reflexivity|].
  destruct (String.eqb n name) eqn:E; simpl; rewrite E; [reflexivity|exact IH].
Qed.

Lemma lookup_cache_update_ne name name' f cs :
  name' <> name ->
  lookup_cache name' (update_cache name f cs) = lookup_cache name' cs.
Proof.
  intros Hne. induction cs as [|[n c] cs IH]; simpl; [reflexivity|].
  destruct (String.eqb n name) eqn:E; simpl.
  - apply String.eqb_eq in E. subst n.
    destruct (String.eqb_spec name name'); [congruence|reflexivity].
  - destruct (String.eqb n name'); [reflexivity|exact IH].
Qed.

Lemma keys_update name f cs : caches_keys (update_cache name f cs) = caches_keys cs.
Proof.
  unfold caches_keys. induction cs as [|[n c] cs IH]; simpl; [reflexivity|].
  destruct (String.eqb n name); simpl; [reflexivity|]. rewrite IH. reflexivity.
Qed.

Lemma lookup_cache_None name cs :
  lookup_cache name cs = None <-> name ∉ caches_keys cs.
Proof.
  unfold caches_keys. induction cs as [|[n c] cs IH]; simpl.
  - split; [intros _; apply not_elem_of_nil|reflexivity].
  - rewrite not_elem_of_cons. destruct (String.eqb_spec n name) as [->|Hne].
    + split; [discriminate|intros [H _]; congruence].
    + rewrite IH. split; [intros H; split; [congruence|exact H]|intros [_ H]; exact H].
Qed.

Lemma keys_open_NoDup name cs :
  NoDup (caches_keys cs) -> NoDup (caches_keys (caches_open name cs)).
Proof.
  intros Hnd. unfold caches_open.
  destruct (lookup_cache name cs) as [c|] eqn:E; [exact Hnd|].
  apply lookup_cache_None in E. unfold caches_keys in *.
  rewrite map_app. simpl. apply NoDup_app. split; [exact Hnd|].
  split; [|apply NoDup_singleton].
  intros x Hx ->%list_elem_of_singleton. contradiction.
Qed.

Lemma fetch_all_Some net urls entries :
  fetch_all net urls = Some entries ->
  entries.*1 = urls /\
  forall u r, (u, r) ∈ entries -> net u = Some r /\ ok r = true.
Proof.
  revert entries. induction urls as [|u urls IH]; intros entries H; simpl in H.
  - inversion H; subst. split; [reflexivity|]. intros u r []%elem_of_nil.
  - destruct (net u) as [r|] eqn:Hnet; [|discriminate].
    destruct (ok r) eqn:Hok; [|discriminate].
    destruct (fetch_all net urls) as [l|]; [|discriminate].
    inversion H; subst. destruct (IH l eq_refl) as [Hk Hall].
    split; [rewrite <- Hk; reflexivity|].
    intros u' r' [Heq|Hin]%elem_of_cons.
    + inversion Heq; subst. auto.
    + apply Hall, Hin.
Qed.

Lemma fetch_all_succeeds net urls :
  (forall u, u ∈ urls -> exists r, net u = Some r /\ ok r = true) ->
  exists entries, fetch_all net urls = Some entries.
Proof.
  induction urls as [|u urls IH]; intros H; simpl; [eauto|].
  destruct (H u) as (r & -> & ->); [left|].
  destruct IH as (l & ->); [intros u' Hu'; apply H; right; exact Hu'|]. eauto.
Qed.

(** The writes of [cache.addAll]: every fetched entry ends up in the
    cache. *)
Lemma put_all_lookup (net : network) entries (c : gmap string response) u r :
  (forall u r, (u, r) ∈ entries -> net u = Some r) ->
  (u, r) ∈ entries ->
  fold_left (fun c ur => <[ur.1 := ur.2]> c) entries c !! u = Some r.
Proof.
  induction entries as [|[u' r'] entries IH] using rev_ind; intros Hfun Hin.
  - apply elem_of_nil in Hin as [].
  - rewrite fold_left_app. simpl.
    destruct (decide (u' = u)) as [->|Hne].
    + rewrite lookup_insert_eq.
      assert (net u = Some r') by (apply Hfun, elem_of_app; right; left).
      assert (net u = Some r) by (apply Hfun, Hin). congruence.
    + rewrite lookup_insert_ne by exact Hne.
      apply elem_of_app in Hin as [Hin|Hin].
      * apply IH; [|exact Hin]. intros u0 r0 H0. apply Hfun, elem_of_app. auto.
      * apply list_elem_of_singleton in Hin. congruence.
Qed.

Lemma lookup_cache_delete n name cs :
  n <> name ->
  lookup_cache name (caches_delete n cs) = lookup_cache name cs.
Proof.
  intros Hne. unfold caches_delete.
  induction cs as [|[n' c] cs IH]; [reflexivity|].
  rewrite filter_cons. simpl. case_decide as Hd; simpl.
  - rewrite IH. reflexivity.
  - assert (n' = n) by (destruct (decide (n' = n)); [assumption|contradiction]).
    subst n'. destruct (String.eqb_spec n name); [contradiction|exact IH].
Qed.

Lemma delete_all_elem names cs (nc : string * gmap string response) :
  nc ∈ fold_left (fun cs cacheName => caches_delete cacheName cs) names cs <->
  nc ∈ cs /\ nc.1 ∉ names.
Proof.
  revert cs. induction names as [|n names IH]; intros cs; simpl.
  - split; [intros H; split; [exact H|apply not_elem_of_nil]|intros [H _]; exact H].
  - rewrite IH. unfold caches_delete. rewrite list_elem_of_filter, not_elem_of_cons.
    tauto.
Qed.

Lemma delete_all_lookup names cs name :
  name ∉ names ->
  lookup_cache name
    (fold_left (fun cs cacheName => caches_delete cacheName cs) names cs) =
  lookup_cache name cs.
Proof.
  revert cs. induction names as [|n names IH]; intros cs Hnot; simpl;
    [reflexivity|].
  apply not_elem_of_cons in Hnot as [Hne Hnot].
  rewrite IH by exact Hnot. apply lookup_cache_delete. congruence.
Qed.

Lemma delete_all_NoDup names cs :
  NoDup (caches_keys cs) ->
  NoDup (caches_keys
           (fold_left (fun cs cacheName => caches_delete cacheName cs) names cs)).
Proof.
  revert cs. induction names as [|n names IH]; intros cs Hnd; simpl;
    [exact Hnd|].
  apply IH. unfold caches_keys, caches_delete.
  eapply sublist_NoDup; [exact Hnd|].
  apply fmap_sublist, sublist_filter.
Qed.

(** What the [activate] listener leaves in the cache storage. *)
Lemma activate_spec w :
  exists w',
    activate w = Ret tt w' /\
    claimed w' = true /\
    origin w' = origin w /\
    (forall name c, (name, c) ∈ caches w' -> name = CACHE_NAME) /\
    version_cache w' = version_cache w /\
    (well_formed w -> only_version_cache w').
Proof.
  unfold activate, bind, gets, modify. eexists. split; [reflexivity|].
  cbn [claimed origin caches set_caches].
  assert (Hall : forall name c,
    (name, c) ∈ fold_left (fun cs cacheName => caches_delete cacheName cs)
       (filter (fun cacheName => cacheName <> CACHE_NAME)
          (caches_keys (caches w))) (caches w) ->
    name = CACHE_NAME).
  { intros name c [Hin Hnot]%delete_all_elem. simpl in Hnot.
    destruct (decide (name = CACHE_NAME)) as [|Hne]; [assumption|].
    exfalso. apply Hnot. apply list_elem_of_filter. split; [exact Hne|].
    unfold caches_keys. apply list_elem_of_fmap. exists (name, c). auto. }
  split; [reflexivity|]. split; [reflexivity|]. split; [exact Hall|]. split.
  - unfold version_cache. cbn [caches]. rewrite delete_all_lookup; [reflexivity|].
    intros [H _]%list_elem_of_filter. apply H. reflexivity.
  - intros Hwf. split.
    + unfold well_formed. cbn [caches]. apply delete_all_NoDup, Hwf.
    + cbn [caches]. apply Forall_forall. intros [name c] Hin. simpl.
      eapply Hall, Hin.
Qed.

(** After activation the storage holds at most the version cache, so
    [caches.match] answers from it. *)
Lemma caches_match_version w u :
  only_version_cache w ->
  caches_match u (caches w) = version_cache w !! u.
Proof.
  intros [Hwf Hall]. unfold version_cache, well_formed, caches_keys in *.
  destruct (caches w) as [|[n c] [|[n' c'] cs]]; simpl in *.
  - reflexivity.
  - apply Forall_cons in Hall as [Hn _]. simpl in Hn. subst n.
    rewrite String.eqb_refl. simpl. destruct (c !! u); reflexivity.
  - exfalso. apply Forall_cons in Hall as [Hn Hall].
    apply Forall_cons in Hall as [Hn' _]. simpl in *. subst n n'.
    apply NoDup_cons in Hwf as [Hnot _]. apply Hnot. left.
Qed.

(** What the [install] listener leaves in the version cache when every
    static asset can be fetched. *)
Lemma install_spec net w :
  (forall u, u ∈ STATIC_CACHE_URLS ->
     exists r, net (resolve w u) = Some r /\ ok r = true) ->
  exists w',
    install net w = Ret tt w' /\
    skippedWaiting w' = true /\
    (forall u, u ∈ STATIC_CACHE_URLS ->
       version_cache w' !! resolve w u = net (resolve w u)) /\
    (well_formed w -> well_formed w').
Proof.
  intros Hnet. unfold install, bind, modify, gets.
  change (resolve (set_caches (caches_open CACHE_NAME) w)) with (resolve w).
  destruct (fetch_all_succeeds net (map (resolve w) STATIC_CACHE_URLS))
    as (entries & Hentries).
  { intros u' (u & -> & Hu)%list_elem_of_fmap. apply Hnet, Hu. }
  rewrite Hentries. eexists. split; [reflexivity|].
  cbn [skippedWaiting caches set_caches]. split; [reflexivity|].
  apply fetch_all_Some in Hentries as [Hkeys Hall]. split.
  - intros u Hu. unfold version_cache. cbn [caches].
    rewrite lookup_cache_update, lookup_cache_open. cbn [fmap option_fmap option_map default].
    assert (Hin : resolve w u ∈ entries.*1).
    { rewrite Hkeys. apply list_elem_of_fmap. eauto. }
    apply list_elem_of_fmap in Hin as ([u' r] & Hu' & Hin). simpl in Hu'. subst u'.
    unfold id.
    rewrite (put_all_lookup net entries _ (resolve w u) r); [| |exact Hin].
    + symmetry. apply Hall, Hin.
    + intros u0 r0 H0. apply Hall, H0.
  - unfold well_formed. cbn [caches]. intros Hwf.
    rewrite keys_update. apply keys_open_NoDup, Hwf.
Qed.

Lemma keys_open_version cs :
  Forall (fun n => n = CACHE_NAME) (caches_keys cs) ->
  Forall (fun n => n = CACHE_NAME) (caches_keys (caches_open CACHE_NAME cs)).
Proof.
  intros H. unfold caches_open. destruct (lookup_cache CACHE_NAME cs); [exact H|].
  unfold caches_keys in *. rewrite map_app. apply Forall_app. split; [exact H|].
  repeat constructor.
Qed.

Lemma only_version_cache_keys w :
  only_version_cache w <->
  NoDup (caches_keys (caches w)) /\
  Forall (fun n => n = CACHE_NAME) (caches_keys (caches w)).
Proof.
  unfold only_version_cache, well_formed, caches_keys.
  rewrite Forall_fmap. reflexivity.
Qed.

(** What the [fetch] listener does with a same-origin GET request once
    the worker is activated. *)
Lemma on_fetch_spec net req w :
  method req = "GET" ->
  String.prefix (origin w) (url req) = true ->
  only_version_cache w ->
  match version_cache w !! url req with
  | Some cachedResponse =>
      on_fetch net req w = (RespondWith (Some cachedResponse), w)
  | None =>
      match net (url req) with
      | Some response =>
          (on_fetch net req w).1 = RespondWith (Some response) /\
          version_cache (on_fetch net req w).2 =
            (if Nat.eqb (status response) 200 && String.eqb (rtype response) "basic"
             then <[url req := response]> (version_cache w)
             else version_cache w) /\
          only_version_cache (on_fetch net req w).2
      | None => (on_fetch net req w).2 = w
      end
  end.
Proof.
  intros Hget Horigin Hact. unfold on_fetch.
  rewrite Hget, Horigin. cbn [String.eqb Ascii.eqb Bool.eqb andb negb].
  rewrite (caches_match_version w (url req) Hact).
  destruct (version_cache w !! url req) as [cached|]; [reflexivity|].
  destruct (net (url req)) as [response|].
  - destruct (Nat.eqb (status response) 200); cbn [negb orb andb];
      [|split; [reflexivity|split; [reflexivity|exact Hact]]].
    destruct (String.eqb (rtype response) "basic"); cbn [negb];
      [|split; [reflexivity|split; [reflexivity|exact Hact]]].
    cbn [fst snd]. split; [reflexivity|]. split.
    + unfold version_cache. cbn [caches set_caches].
      rewrite lookup_cache_update, lookup_cache_open. reflexivity.
    + apply only_version_cache_keys in Hact as [Hnd Hall].
      apply only_version_cache_keys. cbn [caches set_caches].
      rewrite keys_update. split.
      * apply keys_open_NoDup, Hnd.
      * apply keys_open_version, Hall.
  - destruct (String.eqb (mode req) "navigate"); reflexivity.
Qed.

(** C9. The cache is named by the fixed version string; when the static
    assets can be fetched, the [install] listener stores each URL of the
    list in that cache; the [activate] listener leaves no cache of another
    name and does not touch the version cache; and, for a same-origin GET
    request to the activated worker, the [fetch] listener answers with the
    cached response when the version cache holds one, and otherwise with
    the response of the network, which it stores in the version cache
    exactly when its status is 200 and its type is basic.  Requests of
    other methods or origins are left to the browser. *)
Theorem service_worker_caches_first (net : network) (w : worker) (req : request) :
  CACHE_NAME = "csharp-portfolio-v1" /\
  ((forall u, u ∈ STATIC_CACHE_URLS ->
      exists r, net (resolve w u) = Some r /\ ok r = true) ->
   exists w', install net w = Ret tt w' /\
     forall u, u ∈ STATIC_CACHE_URLS ->
       version_cache w' !! resolve w u = net (resolve w u)) /\
  (exists w', activate w = Ret tt w' /\
     (forall name c, (name, c) ∈ caches w' -> name = CACHE_NAME) /\
     version_cache w' = version_cache w /\
     (well_formed w -> only_version_cache w')) /\
  (method req = "GET" ->
   String.prefix (origin w) (url req) = true ->
   only_version_cache w ->
   match version_cache w !! url req with
   | Some cachedResponse =>
       on_fetch net req w = (RespondWith (Some cachedResponse), w)
   | None =>
       match net (url req) with
       | Some response =>
           (on_fetch net req w).1 = RespondWith (Some response) /\
           version_cache (on_fetch net req w).2 =
             (if Nat.eqb (status response) 200
                 && String.eqb (rtype response) "basic"
              then <[url req := response]> (version_cache w)
              else version_cache w) /\
           only_version_cache (on_fetch net req w).2
       | None => (on_fetch net req w).2 = w
       end
   end) /\
  (method req <> "GET" \/ String.prefix (origin w) (url req) = false ->
   on_fetch net req w = (NotHandled, w)).
Proof.
  split; [reflexivity|]. split; [|split; [|split]].
  - intros Hnet. destruct (install_spec net w Hnet) as (w' & Hrun & _ & Hall & _).
    eauto.
  - destruct (activate_spec w) as (w' & Hrun & _ & _ & Hnames & Hsame & Hact).
    eauto 6.
  - apply on_fetch_spec.
  - intros [Hm|Ho]; unfold on_fetch.
    + apply String.eqb_neq in Hm. rewrite Hm. reflexivity.
    + rewrite Ho. destruct (String.eqb (method req) "GET"); reflexivity.
Qed.

(** C9 on a worker that starts with a cache left by an older version:
    once installed and activated it serves a static asset from the version
    cache. *)
Lemma service_worker_caches_first_witness :
  let w1 := final (install Examples.network_up Examples.worker_with_old_cache) in
  let w2 := final (activate w1) in
  (forall u, u ∈ STATIC_CACHE_URLS ->
     version_cache w1 !! resolve Examples.worker_with_old_cache u =
     Examples.network_up (resolve Examples.worker_with_old_cache u)) /\
  caches_keys (caches w2) = [CACHE_NAME] /\
  on_fetch Examples.network_up
    (Request "GET" "https://example.org/css/main.css" "no-cors") w2 =
  (RespondWith
     (Some (Response 200 "basic" "https://example.org/css/main.css")), w2).
Proof.
  cbv zeta. split; [|split].
  - destruct (service_worker_caches_first Examples.network_up
                Examples.worker_with_old_cache
                (Request "GET" "https://example.org/css/main.css" "no-cors"))
      as (_ & Hinstall & _).
    destruct Hinstall as (w' & Hrun & Hall).
    { intros u _. eexists. split; reflexivity. }
    rewrite Hrun. exact Hall.
  - vm_compute. reflexivity.
  - destruct (service_worker_caches_first Examples.network_up
                (final (activate
                   (final (install Examples.network_up
                             Examples.worker_with_old_cache))))
                (Request "GET" "https://example.org/css/main.css" "no-cors"))
      as (_ & _ & _ & Hfetch & _).
    assert (Hcached :
      version_cache
        (final (activate
           (final (install Examples.network_up Examples.worker_with_old_cache))))
      !! "https://example.org/css/main.css" =
      Some (Response 200 "basic" "https://example.org/css/main.css")).
    { vm_compute. reflexivity. }
    cbn [url] in Hfetch. rewrite Hcached in Hfetch. apply Hfetch.
    + reflexivity.
    + vm_compute. reflexivity.
    + split; apply (bool_decide_unpack _); vm_compute; exact I.
Defined.

End ServiceWorkerProperties.


(** ** More on the contact form *)

Section ContactFormMore.
Import Form ContactFormValidator ContactFormChecks.

Lemma string_app_nonempty (s t : string) : t <> "" -> s ++ t <> "".
Proof.
  intros Ht H. apply (f_equal String.length) in H.
  rewrite string_length_app in H. simpl in H.
  destruct t; [contradiction|]. simpl in H. lia.
Qed.

(** The verdict of [validateField] on a field that is there with its error
    element, and the marks it leaves. *)
Lemma validateField_verdict n input r fm :
  inputs fm !! n = Some input ->
  required r = true ->
  is_Some (errors fm !! (id input ++ "-error")) ->
  (validateField (Some n) (Some r) fm).1 = field_passes r input /\
  field_marks (field_passes r input) n (id input ++ "-error")
    (validateField (Some n) (Some r) fm).2.
Proof.
  intros Hn Hreq [e He].
  destruct (clearFieldError_input n input fm Hn) as (input' & Hn' & _).
  destruct (clearFieldError_only n input fm Hn) as (_ & _ & _ & D & _).
  assert (He' : is_Some (errors (clearFieldError n fm) !! (id input ++ "-error"))).
  { apply D. eauto. }
  destruct He' as [e' He'].
  assert (Hcleared : ("error" ∉ classList input') /\
                     textContent e' = "" /\ ("show" ∉ classes e')).
  { unfold clearFieldError in Hn', He'. rewrite Hn in Hn', He'.
    unfold update_input, set_inputs, set_errors in Hn', He'. simpl in Hn', He'.
    rewrite list_lookup_alter_eq, Hn in Hn'. simpl in Hn'.
    rewrite lookup_alter_eq, He in He'. simpl in He'.
    inversion Hn'; subst input'. inversion He'; subst e'. simpl.
    clear. split; [set_solver|]. split; [reflexivity|set_solver]. }
  destruct Hcleared as (Hc1 & Hc2 & Hc3).
  assert (Hfail : forall message errorClass,
    message <> "" ->
    field_marks false n (id input ++ "-error")
      (showFieldError n (id input ++ "-error") message errorClass
         (clearFieldError n fm))).
  { intros message errorClass Hmsg.
    unfold field_marks, showFieldError, update_input, set_inputs, set_errors.
    simpl. split.
    - rewrite list_lookup_alter_eq, Hn'. simpl. eexists. split; [reflexivity|].
      simpl. split.
      + split; [reflexivity|]. intros _. clear. set_solver.
      + split; [|discriminate]. rewrite elem_of_difference, elem_of_singleton.
        tauto.
    - rewrite lookup_alter_eq, He'. simpl. eexists. split; [reflexivity|].
      simpl. split.
      + split; [reflexivity|]. intros _.
        destruct (falsy_string errorClass); clear; set_solver.
      + split; [contradiction|discriminate]. }
  assert (Hpass :
    field_marks true n (id input ++ "-error")
      (update_input n (set_classList (fun c => {["valid"]} ∪ c))
         (clearFieldError n fm))).
  { unfold field_marks, update_input, set_inputs. simpl. split.
    - rewrite list_lookup_alter_eq, Hn'. simpl. eexists. split; [reflexivity|].
      simpl. split.
      + split; [|discriminate]. rewrite elem_of_union, elem_of_singleton.
        intros [H|H]; [discriminate|contradiction].
      + split; [reflexivity|]. intros _. clear. set_solver.
    - exists e'. split; [exact He'|]. split.
      + split; [contradiction|discriminate].
      + split; [reflexivity|]. intros _. exact Hc2. }
  unfold validateField, field_passes. simpl. rewrite Hn. simpl. rewrite He, Hreq.
  simpl.
  destruct (falsy_string (trim (value input))); simpl.
  { split; [reflexivity|]. apply Hfail, string_app_nonempty. discriminate. }
  destruct (bool_decide (rtype r = Some "email") && negb (isValidEmail (trim (value input)))).
  { split; [reflexivity|]. apply Hfail. discriminate. }
  destruct (rule_set (minLength r) &&
            (Z.of_nat (js_length (trim (value input))) <? default 0 (minLength r))%Z).
  { split; [reflexivity|]. apply Hfail, string_app_nonempty. discriminate. }
  destruct (rule_set (maxLength r) &&
            (default 0 (maxLength r) <? Z.of_nat (js_length (trim (value input))))%Z).
  { split; [reflexivity|]. apply Hfail, string_app_nonempty. discriminate. }
  split; [reflexivity|exact Hpass].
Qed.

Lemma field_verdict_same f fm fm' :
  same_controls fm fm' -> field_verdict f fm' = field_verdict f fm.
Proof.
  intros Hsame. unfold field_verdict.
  rewrite (querySelector_id_same f.1 fm fm' Hsame).
  destruct (querySelector_id f.1 fm) as [n|]; [|reflexivity].
  destruct (inputs fm !! n) as [input|] eqn:Hn.
  - destruct (same_controls_input _ _ _ _ Hsame Hn)
      as (input' & -> & Hid & _ & Hv & _).
    rewrite Hid. destruct Hsame as (_ & D & _).
    specialize (D (id input ++ "-error")).
    destruct (errors fm' !! (id input ++ "-error")) as [e'|],
             (errors fm !! (id input ++ "-error")) as [e|].
    + unfold field_passes. rewrite Hv. reflexivity.
    + exfalso. apply (is_Some_None (A:=error_element)), D. eauto.
    + exfalso. apply (is_Some_None (A:=error_element)), D. eauto.
    + reflexivity.
  - destruct Hsame as (B & _). specialize (B n). rewrite Hn in B.
    destruct (inputs fm' !! n); [discriminate|reflexivity].
Qed.

Lemma validateField_field_verdict f fm :
  required f.2 = true ->
  (validateField (querySelector_id f.1 fm) (Some f.2) fm).1 = field_verdict f fm.
Proof.
  intros Hreq. unfold field_verdict.
  destruct (querySelector_id f.1 fm) as [n|] eqn:Hq; [|reflexivity].
  destruct (querySelector_id_Some _ _ _ Hq) as (input & Hn & Hid).
  rewrite Hn.
  destruct (errors fm !! (id input ++ "-error")) as [e|] eqn:He.
  - apply validateField_verdict; eauto.
  - unfold validateField. simpl. rewrite Hn. simpl. rewrite He. reflexivity.
Qed.

(** The fields of the table are judged independently of one another: the
    loop returns the conjunction of the verdicts read on the form it was
    given. *)
Lemma validate_each_verdicts fs isValid fm :
  (forall f, f ∈ fs -> required f.2 = true) ->
  (validate_each fs isValid fm).1 =
  isValid && forallb (fun f => field_verdict f fm) fs.
Proof.
  revert isValid fm. induction fs as [|f fs IH]; intros isValid fm Hreq; simpl.
  - rewrite andb_true_r. reflexivity.
  - pose proof (validateField_field_verdict f fm (Hreq f (list_elem_of_here _ _)))
      as Hv.
    pose proof (validateField_same (querySelector_id f.1 fm) (Some f.2) fm) as Hsame.
    destruct (validateField (querySelector_id f.1 fm) (Some f.2) fm) as [ok fm1].
    simpl in Hv, Hsame. subst ok. rewrite IH.
    + assert (Heq : forallb (fun g => field_verdict g fm1) fs =
                    forallb (fun g => field_verdict g fm) fs).
      { clear -Hsame. induction fs as [|g fs IHfs]; simpl; [reflexivity|].
        rewrite IHfs, (field_verdict_same g fm fm1 Hsame). reflexivity. }
      rewrite Heq.
      destruct (field_verdict f fm), isValid; reflexivity.
    + intros g Hg. apply Hreq. right. exact Hg.
Qed.

Lemma fields_all_required f : f ∈ fields -> required f.2 = true.
Proof. destruct f as [i r]. apply fields_required. Qed.

Lemma present_id i n input fm : present i n input fm -> id input = i.
Proof.
  intros (Hq & Hn & _). destruct (querySelector_id_Some _ _ _ Hq) as (x & Hx & Hid).
  congruence.
Qed.

Lemma present_verdict i r n input fm :
  present i n input fm -> field_verdict (i, r) fm = field_passes r input.
Proof.
  intros Hp. pose proof (present_id _ _ _ _ Hp) as Hid.
  destruct Hp as (Hq & Hn & [e He]).
  unfold field_verdict. simpl. rewrite Hq, Hn, Hid, He. reflexivity.
Qed.

Lemma falsy_string_length s : falsy_string s = true <-> js_length s = 0.
Proof.
  unfold falsy_string. rewrite String.eqb_eq.
  destruct s as [|c s]; [split; reflexivity|].
  split; [discriminate|]. unfold js_length. cbn [code_units]. cbv zeta.
  repeat match goal with |- context [if ?b then _ else _] => destruct b end;
    discriminate.
Qed.

(** A field with only a minimum length passes exactly when its trimmed
    value has that many characters. *)
Lemma field_passes_min (m : nat) input :
  0 < m ->
  field_passes (Rules true None (Some (Z.of_nat m)) None) input = true <->
  m <= js_length (trim (value input)).
Proof.
  intros Hm. unfold field_passes, rule_set, number_or_null. simpl.
  destruct (Z.eqb_spec (Z.of_nat m) 0) as [|_]; [lia|]. simpl.
  destruct (falsy_string (trim (value input))) eqn:Hf; simpl.
  - apply falsy_string_length in Hf. rewrite Hf. split; [discriminate|lia].
  - destruct (Z.ltb_spec (Z.of_nat (js_length (trim (value input))))
                (Z.of_nat m)); split; try discriminate; try reflexivity; lia.
Qed.

Lemma field_passes_email input :
  field_passes (Rules true (Some "email") None None) input = true <->
  email_regex_test (trim (value input)) = true.
Proof.
  unfold field_passes, rule_set, number_or_null, isValidEmail. simpl.
  destruct (falsy_string (trim (value input))) eqn:Hf; simpl.
  - apply String.eqb_eq in Hf. rewrite Hf. simpl. split; discriminate.
  - destruct (email_regex_test (trim (value input))); simpl; split; congruence.
Qed.

Lemma validateForm_accepts_on
    (fm : Form.form) (n1 n2 n3 n4 : nat)
    (name email subject message : Form.input) :
  present "name" n1 name fm ->
  present "email" n2 email fm ->
  present "subject" n3 subject fm ->
  present "message" n4 message fm ->
  (validateForm fm).1 = true <->
  2 <= js_length (trim (value name)) /\
  email_regex_test (trim (value email)) = true /\
  5 <= js_length (trim (value subject)) /\
  10 <= js_length (trim (value message)).
Proof.
  intros H1 H2 H3 H4. unfold validateForm.
  rewrite validate_each_verdicts by apply fields_all_required.
  unfold fields. cbn [forallb andb].
  rewrite (present_verdict _ _ _ _ _ H1), (present_verdict _ _ _ _ _ H2),
    (present_verdict _ _ _ _ _ H3), (present_verdict _ _ _ _ _ H4).
  rewrite !andb_true_iff.
  rewrite (field_passes_min 2 name), (field_passes_min 5 subject),
    (field_passes_min 10 message), field_passes_email by lia.
  tauto.
Qed.

(** X1. [validateForm] accepts the contact form exactly when the trimmed
    name has at least 2 characters, the trimmed email matches the pattern,
    the trimmed subject has at least 5 characters and the trimmed message
    at least 10; each field is judged on its own.  Trimming removes the
    white space of JavaScript at both ends (the no-break space and the
    other Unicode spaces with the ASCII ones), the pattern refuses any of
    it inside the address, and characters are counted as [length] counts
    them, in UTF-16 code units. *)
Theorem validateForm_accepts_exactly
    (fm : Form.form) (n1 n2 n3 n4 : nat)
    (name email subject message : Form.input) :
  present "name" n1 name fm ->
  present "email" n2 email fm ->
  present "subject" n3 subject fm ->
  present "message" n4 message fm ->
  (validateForm fm).1 = true <->
  2 <= js_length (trim (value name)) /\
  email_regex_test (trim (value email)) = true /\
  5 <= js_length (trim (value subject)) /\
  10 <= js_length (trim (value message)).
Proof.
  apply validateForm_accepts_on.
Qed.

(** Validating fields with other ids leaves a field and its error element
    exactly as they are. *)
Lemma validate_each_untouched fs isValid fm n i0 :
  (forall f, f ∈ fs -> f.1 <> i0) ->
  (exists input, inputs fm !! n = Some input /\ id input = i0) ->
  inputs (validate_each fs isValid fm).2 !! n = inputs fm !! n /\
  errors (validate_each fs isValid fm).2 !! (i0 ++ "-error") =
    errors fm !! (i0 ++ "-error").
Proof.
  revert isValid fm. induction fs as [|f fs IH]; intros isValid fm Hfs Hin;
    simpl; [auto|].
  assert (Hf : f.1 <> i0) by (apply Hfs; left).
  pose proof (validateField_same (querySelector_id f.1 fm) (Some f.2) fm) as Hsame.
  assert (Hstep :
    inputs (validateField (querySelector_id f.1 fm) (Some f.2) fm).2 !! n =
      inputs fm !! n /\
    errors (validateField (querySelector_id f.1 fm) (Some f.2) fm).2
      !! (i0 ++ "-error") = errors fm !! (i0 ++ "-error")).
  { destruct (querySelector_id f.1 fm) as [m|] eqn:Hq; [|auto].
    destruct (querySelector_id_Some _ _ _ Hq) as (inp & Hinp & Hid).
    destruct (validateField_only m inp (Some f.2) fm Hinp) as (A & _ & C & _).
    split.
    - apply A. intros ->. destruct Hin as (input & Hn & Hi). congruence.
    - apply C. rewrite Hid. intros H%string_app_inv_tail. congruence. }
  destruct (validateField (querySelector_id f.1 fm) (Some f.2) fm) as [ok fm1].
  simpl in *. destruct Hstep as [Hs1 Hs2].
  destruct (IH (if negb ok then false else isValid) fm1) as [H1 H2].
  - intros g Hg. apply Hfs. right. exact Hg.
  - destruct Hin as (input & Hn & Hi). exists input. split; [congruence|exact Hi].
  - split; congruence.
Qed.

Lemma present_same i n input fm fm' :
  same_controls fm fm' -> present i n input fm ->
  exists input', present i n input' fm' /\ value input' = value input.
Proof.
  intros Hsame (Hq & Hn & He).
  destruct (same_controls_input _ _ _ _ Hsame Hn) as (input' & Hn' & _ & _ & Hv & _).
  exists input'. split; [|exact Hv]. split; [|split; [exact Hn'|]].
  - rewrite (querySelector_id_same i fm fm' Hsame). exact Hq.
  - destruct Hsame as (_ & D & _). apply D. exact He.
Qed.

Lemma field_passes_value r input input' :
  value input' = value input -> field_passes r input' = field_passes r input.
Proof. intros H. unfold field_passes. rewrite H. reflexivity. Qed.

Lemma validate_each_field_marks fs isValid fm i r n input :
  NoDup fs.*1 ->
  (forall f, f ∈ fs -> required f.2 = true) ->
  (i, r) ∈ fs ->
  present i n input fm ->
  field_marks (field_passes r input) n (i ++ "-error")
    (validate_each fs isValid fm).2.
Proof.
  revert isValid fm input.
  induction fs as [|f fs IH]; intros isValid fm input Hnd Hreq Hin Hp.
  { apply elem_of_nil in Hin as []. }
  simpl. apply NoDup_cons in Hnd as [Hnotin Hnd].
  apply elem_of_cons in Hin as [Heq|Hin].
  - subst f. simpl. pose proof (present_id _ _ _ _ Hp) as Hid.
    destruct Hp as (Hq & Hn & He). rewrite Hq.
    assert (Hr : required r = true) by (apply (Hreq (i, r)); left).
    rewrite <- Hid in He.
    destruct (validateField_verdict n input r fm Hn Hr He) as [_ Hmarks].
    pose proof (validateField_same (Some n) (Some r) fm) as Hsame.
    destruct (validateField (Some n) (Some r) fm) as [ok fm1].
    simpl in Hmarks, Hsame. rewrite Hid in Hmarks.
    destruct (validate_each_untouched fs (if negb ok then false else isValid)
                fm1 n i) as [H1 H2].
    + intros g Hg Hg1. apply Hnotin. simpl. rewrite <- Hg1.
      apply list_elem_of_fmap. exists g. split; [reflexivity|exact Hg].
    + destruct (same_controls_input _ _ _ _ Hsame Hn) as (input' & Hn' & Hid' & _).
      exists input'. split; [exact Hn'|congruence].
    + unfold field_marks. rewrite H1, H2. exact Hmarks.
  - pose proof (validateField_same (querySelector_id f.1 fm) (Some f.2) fm) as Hsame.
    destruct (validateField (querySelector_id f.1 fm) (Some f.2) fm) as [ok fm1].
    simpl in Hsame.
    destruct (present_same _ _ _ _ _ Hsame Hp) as (input' & Hp' & Hv).
    rewrite <- (field_passes_value r input input' Hv).
    apply IH; auto. intros g Hg. apply Hreq. right. exact Hg.
Qed.

(** X2. One pass of [validateForm] marks every field of its table that is
    present, each by its own verdict: a failing field gets the class
    [error], loses [valid], and its error element shows a message; a passing
    field gets [valid], loses [error], and its error element is emptied and
    hidden.  No field is skipped because an earlier one failed. *)
Theorem validateForm_marks_every_field
    (fm : Form.form) (i : string) (r : rules) (n : nat) (input : Form.input) :
  (i, r) ∈ fields ->
  present i n input fm ->
  field_marks (field_passes r input) n (i ++ "-error") (validateForm fm).2.
Proof.
  intros Hin Hp. unfold validateForm.
  apply validate_each_field_marks; auto using fields_NoDup, fields_all_required.
Qed.

(** X3. A form without its submit button gets stuck.  [submitForm] sets
    [isSubmitting] and then fails on the missing button, before its [try]:
    nothing is sent, the rejection is unhandled, [isSubmitting] stays set,
    and every later submission is ignored. *)
Theorem missing_button_blocks_for_good (env env' : browser) (v : validator) :
  isSubmitting v = false ->
  (validateForm (form v)).1 = true ->
  submitButton (form v) = None ->
  isSubmitting (handleSubmit env v) = true /\
  (exists e, effects (handleSubmit env v) =
             (effects v ++ [UnhandledRejection e])%list) /\
  handleSubmit env' (handleSubmit env v) = handleSubmit env v.
Proof.
  intros Hsub Hvalid Hbtn.
  assert (H : exists e v', handleSubmit env v = v' /\ isSubmitting v' = true /\
            effects v' = (effects v ++ [UnhandledRejection e])%list).
  { unfold handleSubmit. rewrite Hsub.
    pose proof (validate_each_same fields true (form v)) as (_ & _ & _ & Hsame).
    fold (validateForm (form v)) in Hsame.
    destruct (validateForm (form v)) as [isValid fm]. simpl in Hvalid, Hsame.
    subst isValid.
    unfold submitForm, bind, modify, gets. cbn [set_isSubmitting on_form form].
    rewrite Hsame, Hbtn. eexists _, _. split; [reflexivity|].
    split; reflexivity. }
  destruct H as (e & v' & -> & Hs & He).
  split; [exact Hs|]. split; [eauto|].
  unfold handleSubmit. rewrite Hs. reflexivity.
Qed.

Lemma submitted_inputs fm :
  inputs (handleReset (form_reset fm)) =
  map (set_classList (fun c => c ∖ {["error"]} ∖ {["valid"]}))
    (map (fun i => set_value (defaultValue i) i)
       (map (set_classList (fun c => c ∖ {["error"]} ∖ {["valid"]})) (inputs fm))).
Proof. reflexivity. Qed.

(** X4. After a submission that went through [submitForm] on a form with
    its button, the form is ready again: [isSubmitting] is false, the button
    is enabled with the markup it had, and every control has its default
    value and neither the class [error] nor [valid]. *)
Theorem submission_leaves_form_ready (env : browser) (v : validator) (b : button) :
  isSubmitting v = false ->
  (validateForm (form v)).1 = true ->
  submitButton (form v) = Some b ->
  isSubmitting (handleSubmit env v) = false /\
  submitButton (form (handleSubmit env v)) = Some (Button false (innerHTML b)) /\
  List.length (inputs (form (handleSubmit env v))) = List.length (inputs (form v)) /\
  (forall input, input ∈ inputs (form (handleSubmit env v)) ->
     value input = defaultValue input /\
     ("error" ∉ classList input) /\ ("valid" ∉ classList input)).
Proof.
  intros Hsub Hvalid Hbtn. unfold handleSubmit. rewrite Hsub.
  pose proof (validate_each_same fields true (form v)) as Hsame.
  fold (validateForm (form v)) in Hsame.
  destruct (validateForm (form v)) as [isValid fm]. simpl in Hvalid, Hsame.
  subst isValid.
  assert (Hb : submitButton (form (on_form (fun _ => fm) v)) = Some b).
  { destruct Hsame as (_ & _ & _ & H). simpl. congruence. }
  destruct (submitForm_spec env (on_form (fun _ => fm) v) b Hb)
    as (r & es & _ & ->).
  cbn [isSubmitting form on_form]. split; [reflexivity|]. split; [reflexivity|].
  change (inputs (set_submitButton ?f ?x)) with (inputs x).
  rewrite submitted_inputs. split.
  - rewrite !length_map. simpl.
    destruct Hsame as (B & _).
    assert (Hl : without_classes <$> inputs fm = without_classes <$> inputs (form v)).
    { apply list_eq. intros j. rewrite !list_lookup_fmap. apply B. }
    apply (f_equal List.length) in Hl. rewrite !length_fmap in Hl. exact Hl.
  - intros input Hin.
    apply list_elem_of_fmap in Hin as (i1 & -> & Hin).
    apply list_elem_of_fmap in Hin as (i2 & -> & Hin).
    apply list_elem_of_fmap in Hin as (i3 & -> & Hin).
    simpl. split; [reflexivity|]. clear. split; set_solver.
Qed.

Lemma hex_digit_safe d : d < 16 -> uri_safe (hex_digit d) = true.
Proof.
  intros H. do 16 (destruct d as [|d]; [reflexivity|]). lia.
Qed.

Lemma nat_of_ascii_small c : nat_of_ascii c < 256.
Proof. destruct c as [[] [] [] [] [] [] [] []]; vm_compute; lia. Qed.

(** [encodeURIComponent] only produces characters it leaves alone,
    percent signs and hexadecimal digits. *)
Lemma encodeURIComponent_safe s : all_chars uri_safe (encodeURIComponent s) = true.
Proof.
  induction s as [|c s IH]; [reflexivity|]. cbn [encodeURIComponent].
  destruct (uri_unreserved c) eqn:Hc.
  - cbn [all_chars]. unfold uri_safe at 1. rewrite Hc, IH. reflexivity.
  - cbv zeta. cbn [all_chars]. rewrite IH, !hex_digit_safe.
    + reflexivity.
    + apply Nat.mod_upper_bound. lia.
    + pose proof (nat_of_ascii_small c).
      apply Nat.Div0.div_lt_upper_bound. lia.
Qed.

(** X5. The mailto link has the fixed recipient, and whatever the visitor
    typed it contains one subject and one body: the two encoded parts hold
    only unreserved characters, percent signs and hexadecimal digits, hence
    no "&", "?", "=", "#", space or line break that could add a header. *)
Theorem mailto_link_cannot_be_extended (data : gmap string string) :
  (exists subject body,
     mailtoLink data =
       "mailto:sadaruwan12@gmail.com?subject=" ++ subject ++ "&body=" ++ body /\
     all_chars uri_safe subject = true /\
     all_chars uri_safe body = true) /\
  (forall c, c ∈ ["&"; "?"; "="; "#"; " "; ","; ":"; "/"; "@";
                  ascii_of_nat 10; ascii_of_nat 13]%char ->
     uri_safe c = false).
Proof.
  split.
  - unfold mailtoLink. eexists _, _. split; [reflexivity|].
    split; apply encodeURIComponent_safe.
  - intros c Hc. repeat (apply elem_of_cons in Hc as [->|Hc]; [reflexivity|]).
    apply elem_of_nil in Hc as [].
Qed.

Lemma contact_form_present (a b c d : string) :
  let fm := Examples.contact_form a b c d in
  present "name" 0
    (Examples.contact_input "name" "text" a [("minlength", "2"); ("maxlength", "100")]) fm /\
  present "email" 1 (Examples.contact_input "email" "email" b []) fm /\
  present "subject" 2
    (Examples.contact_input "subject" "text" c [("minlength", "5"); ("maxlength", "200")]) fm /\
  present "message" 3
    (Examples.contact_input "message" "textarea" d
       [("minlength", "10"); ("maxlength", "2000")]) fm.
Proof.
  cbv zeta. unfold present.
  repeat split; try reflexivity; eexists; vm_compute; reflexivity.
Defined.

(** The characterisation on the contact form with a one-letter name. *)
Lemma validateForm_accepts_exactly_witness :
  (validateForm
     (Examples.contact_form "Ada" "ada@example.org" "Hello there" "A long enough message")).1
    = true <->
  2 <= js_length (trim "Ada") /\
  email_regex_test (trim "ada@example.org") = true /\
  5 <= js_length (trim "Hello there") /\
  10 <= js_length (trim "A long enough message").
Proof.
  destruct (contact_form_present "Ada" "ada@example.org" "Hello there"
              "A long enough message") as (H1 & H2 & H3 & H4).
  exact (validateForm_accepts_exactly _ 0 1 2 3 _ _ _ _ H1 H2 H3 H4).
Defined.

(** A name of two no-break spaces is empty once trimmed, a name of one
    accented letter has one character, and an address that holds a no-break
    space does not match: each is refused. *)
Example validateForm_refuses_no_break_spaces :
  (validateForm
     (Examples.contact_form (string_of_bytes [194; 160; 194; 160])
        "ada@example.org" "Hello there" "A long enough message")).1 = false.
Proof. vm_compute. reflexivity. Qed.

Example validateForm_refuses_one_accented_letter :
  (validateForm
     (Examples.contact_form (string_of_bytes [195; 169])
        "ada@example.org" "Hello there" "A long enough message")).1 = false.
Proof. vm_compute. reflexivity. Qed.

Example validateForm_refuses_space_in_address :
  (validateForm
     (Examples.contact_form "Ada"
        (string_of_bytes [97; 100; 97; 194; 160] ++ "@example.org")
        "Hello there" "A long enough message")).1 = false.
Proof. vm_compute. reflexivity. Qed.

Example validateForm_accepts_accented_name :
  (validateForm
     (Examples.contact_form (string_of_bytes [195; 169; 97])
        "ada@example.org" "Hello there" "A long enough message")).1 = true.
Proof. vm_compute. reflexivity. Qed.

(** The marks of the subject field of a contact form whose subject is too
    short. *)
Lemma validateForm_marks_every_field_witness :
  field_marks false 2 "subject-error"
    (validateForm (Examples.contact_form "Ada" "ada@example.org" "Hi" "")).2.
Proof.
  destruct (contact_form_present "Ada" "ada@example.org" "Hi" "")
    as (_ & _ & H3 & _).
  assert (Hin : ("subject", Rules true None (Some 5%Z) None) ∈ fields).
  { unfold fields. do 2 apply list_elem_of_further. apply list_elem_of_here. }
  exact (validateForm_marks_every_field _ "subject" _ 2 _ Hin H3).
Defined.

(** The contact form without its button: the first submission gets stuck
    and the second is ignored. *)
Lemma missing_button_blocks_for_good_witness :
  let v := Examples.fresh
             (set_submitButton (fun _ => None)
                (Examples.contact_form "Ada" "ada@example.org" "Hello there"
                   "A long enough message")) in
  isSubmitting (handleSubmit Examples.offline v) = true /\
  (exists e, effects (handleSubmit Examples.offline v) =
             (effects v ++ [UnhandledRejection e])%list) /\
  handleSubmit Examples.second_endpoint_up (handleSubmit Examples.offline v)
    = handleSubmit Examples.offline v.
Proof.
  cbv zeta.
  apply missing_button_blocks_for_good; vm_compute; reflexivity.
Defined.

(** The contact form after a submission that no endpoint accepted. *)
Lemma submission_leaves_form_ready_witness :
  let v := Examples.fresh
             (Examples.contact_form "Ada" "ada@example.org" "Hello there"
                "A long enough message") in
  isSubmitting (handleSubmit Examples.offline v) = false /\
  (exists b, submitButton (form v) = Some b /\
     submitButton (form (handleSubmit Examples.offline v))
       = Some (Button false (innerHTML b))) /\
  forall input, input ∈ inputs (form (handleSubmit Examples.offline v)) ->
    value input = "".
Proof.
  cbv zeta.
  edestruct (submission_leaves_form_ready Examples.offline
               (Examples.fresh
                  (Examples.contact_form "Ada" "ada@example.org" "Hello there"
                     "A long enough message")))
    as (H1 & H2 & _ & H4); [reflexivity|vm_compute; reflexivity|reflexivity|].
  split; [exact H1|]. split; [eexists; split; [reflexivity|exact H2]|].
  intros input Hin. destruct (H4 input Hin) as (Hv & _). rewrite Hv.
  revert Hin. generalize input. apply Forall_forall.
  vm_compute. repeat constructor.
Defined.

(** *** Validation on blur *)

Lemma validateField_blur n input fm :
  inputs fm !! n = Some input ->
  validateField (Some n) None fm =
  validateField (Some n) (Some (getFieldRules input)) fm.
Proof.
  intros Hn. unfold validateField. cbn [mbind option_bind]. rewrite Hn.
  reflexivity.
Qed.

Lemma field_passes_min_max (t : string) (m M : nat) input :
  t <> "email" -> 0 < m -> 0 < M ->
  field_passes (Rules true (Some t) (Some (Z.of_nat m)) (Some (Z.of_nat M))) input
    = true <->
  m <= js_length (trim (value input)) <= M.
Proof.
  intros Ht Hm HM. unfold field_passes, rule_set, number_or_null.
  cbn [required rtype minLength maxLength andb negb].
  rewrite bool_decide_eq_false_2 by congruence. cbn [andb].
  destruct (Z.eqb_spec (Z.of_nat m) 0) as [|_]; [lia|].
  destruct (Z.eqb_spec (Z.of_nat M) 0) as [|_]; [lia|]. simpl.
  destruct (falsy_string (trim (value input))) eqn:Hf; simpl.
  - apply falsy_string_length in Hf. rewrite Hf. split; [discriminate|lia].
  - destruct (Z.ltb_spec (Z.of_nat (js_length (trim (value input))))
                (Z.of_nat m));
      destruct (Z.ltb_spec (Z.of_nat M)
                  (Z.of_nat (js_length (trim (value input)))));
      split; try discriminate; try reflexivity; lia.
Qed.

Lemma field_passes_type_email input :
  field_passes (Rules true (Some "email") None None) input = true <->
  email_regex_test (trim (value input)) = true.
Proof. apply field_passes_email. Qed.

Lemma blur_verdict n input fm :
  inputs fm !! n = Some input ->
  is_Some (attributes input !! "required") ->
  is_Some (errors fm !! (id input ++ "-error")) ->
  (validateField (Some n) None fm).1 = field_passes (getFieldRules input) input.
Proof.
  intros Hn Hreq He. rewrite (validateField_blur n input fm Hn).
  apply validateField_verdict; [exact Hn| |exact He].
  unfold getFieldRules. cbv zeta.
  rewrite (bool_decide_eq_true_2 _ Hreq).
  repeat match goal with
         | |- context [if ?c then _ else _] => destruct c
         end; reflexivity.
Qed.

(** X6. On the contact form of the site, validation on blur is stricter
    than validation on submit: the four fields pass on blur exactly when
    the form passes on submit and name, subject and message are no longer
    than 100, 200 and 2000 characters, a limit the submit validation does
    not check.  The lengths are those of the values trimmed of JavaScript's
    white space, in UTF-16 code units. *)
Theorem blur_is_stricter_than_submit (a b c d : string) :
  let fm := Examples.contact_form a b c d in
  (forall n, n < 4 -> (validateField (Some n) None fm).1 = true) <->
  (validateForm fm).1 = true /\
  js_length (trim a) <= 100 /\
  js_length (trim c) <= 200 /\
  js_length (trim d) <= 2000.
Proof.
  cbv zeta.
  destruct (contact_form_present a b c d) as (H1 & H2 & H3 & H4).
  rewrite (validateForm_accepts_on _ 0 1 2 3 _ _ _ _ H1 H2 H3 H4).
  assert (Hblur : forall n i t v lengths,
            inputs (Examples.contact_form a b c d) !! n
              = Some (Examples.contact_input i t v lengths) ->
            is_Some (errors (Examples.contact_form a b c d) !! (i ++ "-error")) ->
            (validateField (Some n) None (Examples.contact_form a b c d)).1 =
            field_passes (getFieldRules (Examples.contact_input i t v lengths))
              (Examples.contact_input i t v lengths)).
  { intros n i t v lengths Hn He. apply blur_verdict; [exact Hn| |exact He].
    unfold Examples.contact_input. cbn [attributes].
    rewrite list_to_map_cons. cbn [fst snd]. rewrite lookup_insert_eq. eauto. }
  pose proof (Hblur 0 _ _ _ _ (proj1 (proj2 H1)) (proj2 (proj2 H1))) as B0.
  pose proof (Hblur 1 _ _ _ _ (proj1 (proj2 H2)) (proj2 (proj2 H2))) as B1.
  pose proof (Hblur 2 _ _ _ _ (proj1 (proj2 H3)) (proj2 (proj2 H3))) as B2.
  pose proof (Hblur 3 _ _ _ _ (proj1 (proj2 H4)) (proj2 (proj2 H4))) as B3.
  clear Hblur.
  change (getFieldRules (Examples.contact_input "name" "text" a
            [("minlength", "2"); ("maxlength", "100")]))
    with (Rules true (Some "text") (Some (Z.of_nat 2)) (Some (Z.of_nat 100))) in B0.
  change (getFieldRules (Examples.contact_input "email" "email" b []))
    with (Rules true (Some "email") None None) in B1.
  change (getFieldRules (Examples.contact_input "subject" "text" c
            [("minlength", "5"); ("maxlength", "200")]))
    with (Rules true (Some "text") (Some (Z.of_nat 5)) (Some (Z.of_nat 200))) in B2.
  change (getFieldRules (Examples.contact_input "message" "textarea" d
            [("minlength", "10"); ("maxlength", "2000")]))
    with (Rules true (Some "textarea") (Some (Z.of_nat 10)) (Some (Z.of_nat 2000)))
    in B3.
  pose proof (field_passes_min_max "text" 2 100
                (Examples.contact_input "name" "text" a
                   [("minlength", "2"); ("maxlength", "100")])
                ltac:(discriminate) ltac:(lia) ltac:(lia)) as P0.
  pose proof (field_passes_type_email (Examples.contact_input "email" "email" b []))
    as P1.
  pose proof (field_passes_min_max "text" 5 200
                (Examples.contact_input "subject" "text" c
                   [("minlength", "5"); ("maxlength", "200")])
                ltac:(discriminate) ltac:(lia) ltac:(lia)) as P2.
  pose proof (field_passes_min_max "textarea" 10 2000
                (Examples.contact_input "message" "textarea" d
                   [("minlength", "10"); ("maxlength", "2000")])
                ltac:(discriminate) ltac:(lia) ltac:(lia)) as P3.
  rewrite <- B0 in P0. rewrite <- B1 in P1. rewrite <- B2 in P2. rewrite <- B3 in P3.
  change (value (Examples.contact_input "name" "text" a
            [("minlength", "2"); ("maxlength", "100")])) with a in *.
  change (value (Examples.contact_input "email" "email" b [])) with b in *.
  change (value (Examples.contact_input "subject" "text" c
            [("minlength", "5"); ("maxlength", "200")])) with c in *.
  change (value (Examples.contact_input "message" "textarea" d
            [("minlength", "10"); ("maxlength", "2000")])) with d in *.
  split.
  - intros H.
    assert (Q0 := proj1 P0 (H 0 ltac:(lia))).
    assert (Q1 := proj1 P1 (H 1 ltac:(lia))).
    assert (Q2 := proj1 P2 (H 2 ltac:(lia))).
    assert (Q3 := proj1 P3 (H 3 ltac:(lia))).
    repeat split; try assumption; lia.
  - intros (Hv & Ha & Hc & Hd) n Hn.
    destruct n as [|[|[|[|n]]]]; [apply P0|apply P1|apply P2|apply P3|lia];
      try discriminate; try lia; tauto.
Qed.

End ContactFormMore.


(* ===================================================================== *)
(** ** Theme manager: round trips and invariants                         *)
(* ===================================================================== *)

Section ThemeToggleMore.
Import ThemeToggle ThemeInfo.
Local Open Scope js_scope.

Lemma getCurrentTheme_current p : getCurrentTheme p = Ret (current_theme p) p.
Proof. apply getCurrentTheme_ret. Qed.

Lemma toggle_ret p :
  let newTheme := if seq (current_theme p) LIGHT then DARK else LIGHT in
  toggle p = Ret tt (stored_state newTheme (applied newTheme p)).
Proof.
  cbv zeta. unfold toggle, bind.
  rewrite getCurrentTheme_current, applyTheme_ret, storeTheme_ret. reflexivity.
Qed.

Lemma setTheme_ret theme p :
  setTheme theme p =
  Ret tt (if bool_decide (theme ∈ themes_values)
          then stored_state theme (applied theme p)
          else log_warn ("Invalid theme: " ++ theme) p).
Proof.
  unfold setTheme. case_bool_decide.
  - unfold bind. rewrite applyTheme_ret, storeTheme_ret. reflexivity.
  - reflexivity.
Qed.

Lemma initToggleButtons_initialised p : initToggleButtons p = Ret tt (initialised p).
Proof.
  unfold initToggleButtons, bind. rewrite getCurrentTheme_current. reflexivity.
Qed.

Lemma init_ret p :
  exists q, setInitialTheme p = Ret tt q /\ init p = Ret tt (initialised q).
Proof.
  unfold init, bind. rewrite setInitialTheme_ret.
  destruct (storage p) as [m|]; [destruct (truthy (m !! storageKey))|];
    cbv zeta; eexists; (split; [reflexivity|]); apply initToggleButtons_initialised.
Qed.

Lemma stored_state_dispatched theme p :
  dispatched (stored_state theme p) = dispatched p.
Proof.
  unfold stored_state. destruct (storage p); [destruct (quota_exceeded p)|];
    reflexivity.
Qed.

Lemma stored_state_quota theme p :
  quota_exceeded (stored_state theme p) = quota_exceeded p.
Proof.
  unfold stored_state.
  destruct (storage p); [destruct (quota_exceeded p) eqn:Hq|]; simpl; congruence.
Qed.

Lemma stored_state_applied_theme theme p :
  applied_theme (stored_state theme p) = applied_theme p.
Proof. unfold applied_theme. rewrite stored_state_root. reflexivity. Qed.

Lemma stored_state_writable theme p :
  writable p ->
  writable (stored_state theme p) /\
  stored storageKey (stored_state theme p) = Some theme.
Proof.
  intros [[m Hm] Hq]. unfold writable, stored, stored_state. rewrite Hm, Hq. simpl.
  repeat split; eauto. apply lookup_insert_eq.
Qed.

Lemma applied_dispatched theme p :
  dispatched (applied theme p) = (dispatched p ++ [theme])%list.
Proof. unfold applied. destruct (seq theme AUTO); reflexivity. Qed.

Lemma applied_writable theme p : writable p -> writable (applied theme p).
Proof. unfold writable. rewrite applied_storage, applied_quota. auto. Qed.

Lemma applied_stored k theme p : stored k (applied theme p) = stored k p.
Proof. unfold stored. rewrite applied_storage. reflexivity. Qed.

Lemma current_theme_applied theme p :
  theme <> "" -> theme <> AUTO -> current_theme (applied theme p) = theme.
Proof.
  intros H1 H2. unfold current_theme. rewrite applied_theme_applied.
  apply seq_neq in H2. rewrite H2. apply truthy_Some in H1. rewrite H1.
  reflexivity.
Qed.

Lemma current_theme_stored_state theme p :
  current_theme (stored_state theme p) = current_theme p.
Proof.
  unfold current_theme, system_theme.
  rewrite stored_state_applied_theme, stored_state_prefers. reflexivity.
Qed.

Lemma applied_toggle_pressed theme p b :
  b ∈ elements (applied theme p) -> is_toggle b = true ->
  attrs b !! "aria-pressed" = Some (bool_toString (seq theme DARK)) /\
  attrs b !! "aria-label" =
    Some (if seq theme DARK then "Switch to light theme" else "Switch to dark theme") /\
  ("theme-toggle--dark" ∈ classList b <-> seq theme DARK = true) /\
  ("theme-toggle--light" ∈ classList b <-> seq theme DARK = false).
Proof.
  rewrite applied_elements. intros Hin Ht.
  apply list_elem_of_fmap in Hin as (b0 & -> & _).
  destruct (is_toggle b0) eqn:Hb0.
  - rewrite updateButtonVisual_attrs, updateButtonAria_pressed, updateButtonAria_label.
    split; [reflexivity|]. split; [reflexivity|].
    unfold updateButtonVisual, classList_toggle. cbn [classList].
    destruct (seq theme DARK); simpl; split; split; intros H;
      try discriminate; try reflexivity; revert H; clear; set_solver.
  - congruence.
Qed.

(** X7. Two toggles in a row are a round trip: on a page whose current
    theme is light or dark, the second toggle applies and announces the
    theme the page started with, sets every toggle's [aria-pressed] for it,
    and a writable storage holds it again. *)
Theorem toggle_twice_restores (p : page) (c : string) :
  getCurrentTheme p = Ret c p ->
  c = LIGHT \/ c = DARK ->
  exists p',
    (toggle ;; toggle) p = Ret tt p' /\
    applied_theme p' = Some c /\
    dispatched p' =
      (dispatched p ++ [if seq c LIGHT then DARK else LIGHT; c])%list /\
    (forall b, b ∈ elements p' -> is_toggle b = true ->
       attrs b !! "aria-pressed" = Some (bool_toString (seq c DARK))) /\
    (writable p -> stored storageKey p' = Some c).
Proof.
  intros Hcur Hc. rewrite getCurrentTheme_current in Hcur.
  injection Hcur as Hcur.
  unfold bind. rewrite toggle_ret. cbv zeta. rewrite Hcur.
  set (other := if seq c LIGHT then DARK else LIGHT).
  assert (Hother : other <> "" /\ other <> AUTO /\
                   (if seq other LIGHT then DARK else LIGHT) = c).
  { unfold other. destruct Hc as [-> | ->]; repeat split; discriminate. }
  destruct Hother as (Ho1 & Ho2 & Hback).
  rewrite toggle_ret. cbv zeta.
  rewrite current_theme_stored_state, current_theme_applied by assumption.
  rewrite Hback. eexists. split; [reflexivity|].
  assert (Hc' : seq c AUTO = false) by (destruct Hc as [-> | ->]; reflexivity).
  split; [|split; [|split]].
  - rewrite stored_state_applied_theme, applied_theme_applied, Hc'. reflexivity.
  - rewrite stored_state_dispatched, applied_dispatched, stored_state_dispatched,
      applied_dispatched, <- app_assoc. reflexivity.
  - intros b Hin Ht. rewrite stored_state_elements in Hin.
    apply (applied_toggle_pressed _ _ _ Hin Ht).
  - intros Hw. apply stored_state_writable, applied_writable,
      stored_state_writable, applied_writable, Hw.
Qed.

Lemma toggle_twice_restores_witness :
  exists p',
    (toggle ;; toggle) (Examples.page_with_storage ∅) = Ret tt p' /\
    applied_theme p' = Some "dark" /\
    dispatched p' = ["light"; "dark"].
Proof.
  destruct (toggle_twice_restores (Examples.page_with_storage ∅) "dark")
    as (p' & H1 & H2 & H3 & _); [reflexivity|right; reflexivity|].
  exists p'. split; [exact H1|]. split; [exact H2|exact H3].
Defined.

(** X8. A preference set with [setTheme] survives a reload: when the
    storage is writable and the theme is light or dark, any page that
    starts with the storage [setTheme] left behind applies that theme on
    initialisation, whatever the system prefers, and writes nothing. *)
Theorem preference_survives_reload (p q : page) (theme : string) :
  writable p ->
  theme = LIGHT \/ theme = DARK ->
  exists p',
    setTheme theme p = Ret tt p' /\
    (storage q = storage p' ->
     exists q',
       init q = Ret tt q' /\
       applied_theme q' = Some theme /\
       setItem_calls q' = setItem_calls q /\
       forall b, b ∈ elements q' -> is_toggle b = true ->
         attrs b !! "aria-pressed" = Some (bool_toString (seq theme DARK))).
Proof.
  intros Hw Hth. rewrite setTheme_ret.
  rewrite bool_decide_eq_true_2
    by (unfold themes_values; destruct Hth as [-> | ->]; set_solver).
  eexists. split; [reflexivity|]. intros Hst.
  destruct (stored_state_writable theme (applied theme p) (applied_writable _ _ Hw))
    as ([[m Hm] _] & Hstored).
  unfold stored in Hstored. rewrite Hm in Hstored. rewrite Hm in Hst.
  assert (Hne : theme <> "" /\ theme <> AUTO)
    by (destruct Hth as [-> | ->]; split; discriminate).
  destruct Hne as [Hne1 Hne2].
  unfold init, bind. rewrite setInitialTheme_ret, Hst, Hstored.
  apply truthy_Some in Hne1 as Htr. rewrite Htr. simpl default.
  rewrite initToggleButtons_initialised. eexists. split; [reflexivity|].
  split; [|split].
  - apply seq_neq in Hne2.
    change (applied_theme (applied theme q) = Some theme).
    rewrite applied_theme_applied, Hne2. reflexivity.
  - change (setItem_calls (applied theme q) = setItem_calls q).
    apply applied_calls.
  - intros b Hin Ht. unfold initialised in Hin. simpl in Hin.
    apply list_elem_of_fmap in Hin as (b0 & -> & Hin0).
    rewrite current_theme_applied by assumption.
    destruct (is_toggle b0) eqn:Hb0.
    + apply updateButtonAria_pressed.
    + apply (applied_toggle_pressed _ _ _ Hin0 Ht).
Qed.

Lemma preference_survives_reload_witness :
  exists p',
    setTheme "light" (Examples.page_with_storage ∅) = Ret tt p' /\
    exists q',
      init (Examples.page_with_storage {["csharp-portfolio-theme" := "light"]})
        = Ret tt q' /\
      applied_theme q' = Some "light".
Proof.
  destruct (preference_survives_reload (Examples.page_with_storage ∅)
              (Examples.page_with_storage {["csharp-portfolio-theme" := "light"]})
              "light")
    as (p' & H1 & H2).
  - split; [eexists; reflexivity|reflexivity].
  - left; reflexivity.
  - exists p'. split; [exact H1|].
    destruct H2 as (q' & Hq & Ha & _).
    + rewrite setTheme_ret in H1. injection H1 as <-. vm_compute. reflexivity.
    + exists q'. split; [exact Hq|exact Ha].
Defined.

(** *** Every operation as a state transformer *)

Lemma perform_Init p :
  perform Init p =
  Ret tt (initialised
    (match storage p with
     | Some m =>
         if truthy (m !! storageKey) then applied (default "" (m !! storageKey)) p
         else stored_state (system_theme p) (applied (system_theme p) p)
     | None =>
         stored_state (system_theme p)
           (applied (system_theme p)
              (log_warn "Failed to read theme from localStorage: SecurityError" p))
     end)).
Proof.
  simpl. unfold init, bind. rewrite setInitialTheme_ret.
  destruct (storage p) as [m|]; [destruct (truthy (m !! storageKey))|];
    cbv zeta; apply initToggleButtons_initialised.
Qed.

Lemma perform_SystemThemeChange matches p :
  perform (SystemThemeChange matches) p =
  Ret tt
    (let p0 := set_prefers_dark (Some matches) p in
     let newTheme := if matches then DARK else LIGHT in
     match storage p with
     | Some m =>
         if negb (truthy (m !! storageKey)) || bool_decide (m !! storageKey = Some AUTO)
         then applied newTheme p0 else p0
     | None =>
         applied newTheme
           (log_warn "Failed to read theme from localStorage: SecurityError" p0)
     end).
Proof.
  simpl. unfold bind, modify. rewrite handleSystemThemeChange_ret. simpl.
  destruct (storage p) as [m|]; [|reflexivity].
  destruct (negb (truthy (m !! storageKey)) ||
            bool_decide (m !! storageKey = Some AUTO)); reflexivity.
Qed.

(** A property kept by every operation is kept by every sequence of
    operations, and no sequence raises. *)
Lemma perform_all_invariant (I : page -> Prop) :
  (forall o p, I p -> exists p', perform o p = Ret tt p' /\ I p') ->
  forall os p, I p -> exists p', perform_all os p = Ret tt p' /\ I p'.
Proof.
  intros Hstep os. induction os as [|o os IH]; intros p Hp.
  - exists p. split; [reflexivity|exact Hp].
  - destruct (Hstep o p Hp) as (p1 & H1 & Hp1).
    destruct (IH p1 Hp1) as (p2 & H2 & Hp2).
    exists p2. split; [|exact Hp2].
    simpl. unfold bind. rewrite H1. exact H2.
Qed.

(** *** Events *)

Lemma events_in_sync_applied theme p : events_in_sync (applied theme p).
Proof.
  unfold events_in_sync. rewrite applied_dispatched, last_snoc.
  apply applied_theme_applied.
Qed.

Lemma events_in_sync_same p p' :
  dispatched p' = dispatched p -> root_attrs p' = root_attrs p ->
  events_in_sync p -> events_in_sync p'.
Proof.
  unfold events_in_sync, applied_theme. intros -> ->. auto.
Qed.

Lemma events_in_sync_stored theme p :
  events_in_sync p -> events_in_sync (stored_state theme p).
Proof.
  apply events_in_sync_same;
    [apply stored_state_dispatched|apply stored_state_root].
Qed.

Lemma events_in_sync_initialised p :
  events_in_sync p -> events_in_sync (initialised p).
Proof. apply events_in_sync_same; reflexivity. Qed.

Lemma perform_events o p :
  events_in_sync p ->
  exists p', perform o p = Ret tt p' /\ events_in_sync p'.
Proof.
  intros Hp. destruct o as [| |theme|matches].
  - rewrite perform_Init. eexists. split; [reflexivity|].
    apply events_in_sync_initialised.
    destruct (storage p) as [m|]; [destruct (truthy (m !! storageKey))|];
      repeat first [apply events_in_sync_applied | apply events_in_sync_stored].
  - simpl. rewrite toggle_ret. eexists. split; [reflexivity|].
    apply events_in_sync_stored, events_in_sync_applied.
  - simpl. rewrite setTheme_ret. eexists. split; [reflexivity|].
    case_bool_decide.
    + apply events_in_sync_stored, events_in_sync_applied.
    + exact Hp.
  - rewrite perform_SystemThemeChange. eexists. split; [reflexivity|].
    cbv zeta. destruct (storage p) as [m|];
      [destruct (negb (truthy (m !! storageKey)) ||
                 bool_decide (m !! storageKey = Some AUTO))|];
      first [apply events_in_sync_applied | exact Hp].
Qed.

(** X9. Listeners of [themechange] stay informed: on a page where the
    last event, if any, announced the applied theme, the same holds after
    any sequence of operations; "auto" is announced when the attribute is
    removed. *)
Theorem themechange_events_track_applied_theme (os : list operation) (p : page) :
  events_in_sync p ->
  exists p', perform_all os p = Ret tt p' /\ events_in_sync p'.
Proof. apply perform_all_invariant, perform_events. Qed.

Lemma themechange_events_track_applied_theme_witness :
  exists p',
    perform_all [Init; Toggle; SetTheme "auto"; SystemThemeChange false; Toggle]
      (Examples.page_with_storage ∅) = Ret tt p' /\
    events_in_sync p'.
Proof.
  apply themechange_events_track_applied_theme. exact I.
Defined.

(** *** Elements *)

Lemma same_but_theme_refl b : same_but_theme b b.
Proof. unfold same_but_theme. repeat split; auto. Qed.

Lemma same_but_theme_trans b1 b2 b3 :
  same_but_theme b1 b2 -> same_but_theme b2 b3 -> same_but_theme b1 b3.
Proof.
  intros (A1 & A2 & A3 & A4 & A5 & A6) (B1 & B2 & B3 & B4 & B5 & B6).
  unfold same_but_theme. split; [congruence|]. split.
  { intros H. rewrite B2, A2; congruence. }
  split. { intros k H1 H2. rewrite B3, A3; auto. }
  split. { intros c H1 H2. rewrite B4, A4; auto. }
  split; [rewrite B5; exact A5 | rewrite B6; exact A6].
Qed.

Lemma same_but_theme_aria b theme :
  is_toggle b = true -> same_but_theme b (updateButtonAria b theme).
Proof.
  intros Hb. unfold same_but_theme.
  split; [apply updateButtonAria_is_toggle|].
  split; [congruence|].
  split.
  { intros k H1 H2. unfold updateButtonAria, setAttribute. simpl.
    rewrite !lookup_insert_ne by congruence. reflexivity. }
  repeat split; auto.
Qed.

Lemma same_but_theme_visual b theme :
  is_toggle b = true -> same_but_theme b (updateButtonVisual b theme).
Proof.
  intros Hb. unfold same_but_theme.
  split; [reflexivity|]. split; [congruence|].
  split; [reflexivity|].
  split.
  { intros c H1 H2. unfold updateButtonVisual, classList_toggle. cbn [classList].
    destruct (seq theme DARK); simpl; clear -H1 H2; set_solver. }
  unfold updateButtonVisual. cbn [text_child icon_child classList_toggle].
  split; [destruct (text_child b)|destruct (icon_child b)];
    split; intros [x Hx]; try discriminate; eauto.
Qed.

Lemma same_but_theme_list (f : element -> element) l :
  (forall b, same_but_theme b (f b)) -> Forall2 same_but_theme l (map f l).
Proof.
  intros Hf. induction l as [|b l IH]; simpl; constructor; auto.
Qed.

Lemma same_but_theme_list_refl l : Forall2 same_but_theme l l.
Proof. induction l; constructor; auto using same_but_theme_refl. Qed.

Lemma same_but_theme_list_trans l1 l2 l3 :
  Forall2 same_but_theme l1 l2 -> Forall2 same_but_theme l2 l3 ->
  Forall2 same_but_theme l1 l3.
Proof.
  intros H. revert l3. induction H; intros l3 H3; inversion H3; subst;
    constructor; eauto using same_but_theme_trans.
Qed.

Lemma same_but_theme_applied theme p :
  Forall2 same_but_theme (elements p) (elements (applied theme p)).
Proof.
  rewrite applied_elements. apply same_but_theme_list. intros b.
  destruct (is_toggle b) eqn:Hb; [|apply same_but_theme_refl].
  eapply same_but_theme_trans; [apply same_but_theme_aria, Hb|].
  apply same_but_theme_visual. rewrite updateButtonAria_is_toggle. exact Hb.
Qed.

Lemma same_but_theme_applied_on theme p q :
  elements q = elements p ->
  Forall2 same_but_theme (elements p) (elements (applied theme q)).
Proof. intros <-. apply same_but_theme_applied. Qed.

Lemma same_but_theme_initialised p :
  Forall2 same_but_theme (elements p) (elements (initialised p)).
Proof.
  unfold initialised. cbn [elements set_elements].
  apply same_but_theme_list. intros b.
  destruct (is_toggle b) eqn:Hb; [|apply same_but_theme_refl].
  apply same_but_theme_aria, Hb.
Qed.

Lemma perform_elements o p0 p :
  Forall2 same_but_theme (elements p0) (elements p) ->
  exists p', perform o p = Ret tt p' /\
    Forall2 same_but_theme (elements p0) (elements p').
Proof.
  intros Hp. destruct o as [| |theme|matches].
  - rewrite perform_Init. eexists. split; [reflexivity|].
    eapply same_but_theme_list_trans; [|apply same_but_theme_initialised].
    eapply same_but_theme_list_trans; [exact Hp|].
    destruct (storage p) as [m|]; [destruct (truthy (m !! storageKey))|];
      rewrite ?stored_state_elements; apply same_but_theme_applied_on; reflexivity.
  - simpl. rewrite toggle_ret. eexists. split; [reflexivity|]. cbv zeta.
    rewrite stored_state_elements.
    eapply same_but_theme_list_trans; [exact Hp|apply same_but_theme_applied_on; reflexivity].
  - simpl. rewrite setTheme_ret. eexists. split; [reflexivity|].
    case_bool_decide.
    + rewrite stored_state_elements.
      eapply same_but_theme_list_trans; [exact Hp|apply same_but_theme_applied_on; reflexivity].
    + exact Hp.
  - rewrite perform_SystemThemeChange. eexists. split; [reflexivity|].
    cbv zeta. destruct (storage p) as [m|];
      [destruct (negb (truthy (m !! storageKey)) ||
                 bool_decide (m !! storageKey = Some AUTO))|];
      first [exact Hp
            | eapply same_but_theme_list_trans;
              [exact Hp|apply same_but_theme_applied_on; reflexivity]].
Qed.

(** X10. No sequence of operations raises, adds or removes elements, or
    touches an element without [data-theme-toggle]; on a toggle it changes
    at most [aria-pressed], [aria-label], the classes [theme-toggle--dark]
    and [theme-toggle--light], and the texts of the two children. *)
Theorem theme_manager_touches_only_toggles (os : list operation) (p : page) :
  exists p',
    perform_all os p = Ret tt p' /\
    List.length (elements p') = List.length (elements p) /\
    forall i b, elements p !! i = Some b ->
      exists b', elements p' !! i = Some b' /\ same_but_theme b b'.
Proof.
  destruct (perform_all_invariant
              (fun q => Forall2 same_but_theme (elements p) (elements q))
              (fun o q => perform_elements o p q) os p
              (same_but_theme_list_refl _)) as (p' & Hrun & H).
  exists p'. split; [exact Hrun|]. split.
  - symmetry. apply (Forall2_length _ _ _ H).
  - intros i b Hb.
    destruct (Forall2_lookup_l _ _ _ _ _ H Hb) as (b' & Hb' & Hs). eauto.
Qed.

(** *** Toggle buttons *)

Lemma shows_one_state_applied theme p b :
  b ∈ elements (applied theme p) -> is_toggle b = true -> shows_one_state b.
Proof.
  intros Hin Ht. destruct (applied_toggle_pressed _ _ _ Hin Ht) as (A & B & C & D).
  split.
  - rewrite C, D. destruct (seq theme DARK); split; congruence.
  - exists (seq theme DARK). split; [exact A|exact B].
Qed.

Lemma shows_one_state_aria b theme :
  shows_one_state b -> shows_one_state (updateButtonAria b theme).
Proof.
  intros [Hc _]. split; [exact Hc|].
  exists (seq theme DARK).
  split; [apply updateButtonAria_pressed|apply updateButtonAria_label].
Qed.

Lemma perform_shows_one_state o p :
  (forall b, b ∈ elements p -> is_toggle b = true -> shows_one_state b) ->
  exists p', perform o p = Ret tt p' /\
    forall b, b ∈ elements p' -> is_toggle b = true -> shows_one_state b.
Proof.
  intros Hp. destruct o as [| |theme|matches].
  - rewrite perform_Init. eexists. split; [reflexivity|].
    intros b Hin Ht. unfold initialised in Hin. cbn [elements set_elements] in Hin.
    apply list_elem_of_fmap in Hin as (b0 & -> & Hin0).
    assert (H0 : is_toggle b0 = true -> shows_one_state b0).
    { revert Hin0.
      destruct (storage p) as [m|]; [destruct (truthy (m !! storageKey))|];
        rewrite ?stored_state_elements; apply shows_one_state_applied. }
    destruct (is_toggle b0) eqn:Hb0; [|congruence].
    apply shows_one_state_aria, H0. reflexivity.
  - simpl. rewrite toggle_ret. eexists. split; [reflexivity|]. cbv zeta.
    rewrite stored_state_elements. apply shows_one_state_applied.
  - simpl. rewrite setTheme_ret. eexists. split; [reflexivity|].
    case_bool_decide.
    + rewrite stored_state_elements. apply shows_one_state_applied.
    + exact Hp.
  - rewrite perform_SystemThemeChange. eexists. split; [reflexivity|].
    cbv zeta. destruct (storage p) as [m|];
      [destruct (negb (truthy (m !! storageKey)) ||
                 bool_decide (m !! storageKey = Some AUTO))|];
      first [exact Hp | apply shows_one_state_applied].
Qed.

(** X11. Once the theme manager is initialised, every toggle shows one
    state whatever happens next: it has exactly one of the classes
    [theme-toggle--dark] and [theme-toggle--light], [aria-pressed] is
    "true" or "false", and [aria-label] names the opposite switch. *)
Theorem initialised_toggles_show_one_state (os : list operation) (p : page) :
  exists p',
    perform_all (Init :: os) p = Ret tt p' /\
    forall b, b ∈ elements p' -> is_toggle b = true -> shows_one_state b.
Proof.
  cbn [perform_all]. unfold bind. rewrite perform_Init.
  apply (perform_all_invariant
           (fun q => forall b, b ∈ elements q -> is_toggle b = true ->
                               shows_one_state b)
           perform_shows_one_state).
  intros b Hin Ht. unfold initialised in Hin. cbn [elements set_elements] in Hin.
  apply list_elem_of_fmap in Hin as (b0 & -> & Hin0).
  assert (H0 : is_toggle b0 = true -> shows_one_state b0).
  { revert Hin0.
    destruct (storage p) as [m|]; [destruct (truthy (m !! storageKey))|];
      rewrite ?stored_state_elements; apply shows_one_state_applied. }
  destruct (is_toggle b0) eqn:Hb0; [|congruence].
  apply shows_one_state_aria, H0. reflexivity.
Qed.

(** *** The stored preference *)

Lemma getThemeInfo_ret p m :
  storage p = Some m ->
  getThemeInfo p =
  Ret (ThemeInfoOf (current_theme p) (m !! storageKey) (system_theme p)
         (match prefers_dark p with None => None | Some _ => Some true end)) p.
Proof.
  intros Hm. unfold getThemeInfo, bind.
  rewrite getCurrentTheme_current, getStoredTheme_ret, Hm, getSystemTheme_ret.
  reflexivity.
Qed.

Lemma system_theme_applied theme p : system_theme (applied theme p) = system_theme p.
Proof. unfold system_theme. rewrite applied_prefers. reflexivity. Qed.

Lemma system_theme_stored_state theme p :
  system_theme (stored_state theme p) = system_theme p.
Proof. unfold system_theme. rewrite stored_state_prefers. reflexivity. Qed.

Lemma current_theme_applied_auto p :
  current_theme (applied AUTO p) = system_theme p.
Proof.
  unfold current_theme. rewrite applied_theme_applied. simpl.
  apply system_theme_applied.
Qed.

Lemma preference_in_force_applied theme p :
  stored storageKey p = Some theme -> theme <> "" ->
  preference_in_force (applied theme p).
Proof.
  intros Hs Hne. exists theme. rewrite applied_stored.
  split; [exact Hs|]. split; [exact Hne|].
  destruct (seq theme AUTO) eqn:Ha.
  - apply seq_eq in Ha. subst theme.
    rewrite current_theme_applied_auto, system_theme_applied. reflexivity.
  - rewrite applied_theme_applied, Ha. reflexivity.
Qed.

Lemma preference_in_force_stored theme p :
  writable p -> theme <> "" ->
  writable (stored_state theme (applied theme p)) /\
  preference_in_force (stored_state theme (applied theme p)).
Proof.
  intros Hw Hne.
  destruct (stored_state_writable theme (applied theme p) (applied_writable _ _ Hw))
    as (Hw' & Hs).
  split; [exact Hw'|]. exists theme. split; [exact Hs|]. split; [exact Hne|].
  destruct (seq theme AUTO) eqn:Ha.
  - apply seq_eq in Ha. subst theme.
    rewrite current_theme_stored_state, current_theme_applied_auto,
      system_theme_stored_state, system_theme_applied. reflexivity.
  - rewrite stored_state_applied_theme, applied_theme_applied, Ha. reflexivity.
Qed.

Lemma system_theme_nonempty p : system_theme p <> "".
Proof. destruct (system_theme_cases p) as [-> | ->]; discriminate. Qed.

Lemma perform_preference o p :
  writable p ->
  (o = Init \/ preference_in_force p) ->
  exists p', perform o p = Ret tt p' /\ writable p' /\ preference_in_force p'.
Proof.
  intros Hw Hp. destruct o as [| |theme|matches].
  - rewrite perform_Init. eexists. split; [reflexivity|].
    destruct Hw as [[m Hm] Hq]. rewrite Hm.
    assert (H : forall q, writable q /\ preference_in_force q ->
                  writable (initialised q) /\ preference_in_force (initialised q))
      by (intros q Hq'; exact Hq').
    apply H. clear H.
    destruct (truthy (m !! storageKey)) eqn:Htr.
    + destruct (m !! storageKey) as [s|] eqn:Hs; [|discriminate].
      apply truthy_Some in Htr. split.
      * apply applied_writable. split; eauto.
      * apply preference_in_force_applied; [|exact Htr].
        unfold stored. rewrite Hm. exact Hs.
    + apply preference_in_force_stored; [split; eauto|apply system_theme_nonempty].
  - simpl. rewrite toggle_ret. eexists. split; [reflexivity|]. cbv zeta.
    apply preference_in_force_stored; [exact Hw|].
    destruct (seq (current_theme p) LIGHT); discriminate.
  - simpl. rewrite setTheme_ret. eexists. split; [reflexivity|].
    destruct Hp as [Hp|Hp]; [discriminate|].
    case_bool_decide as Hin.
    + apply preference_in_force_stored; [exact Hw|].
      unfold themes_values in Hin. intros ->. revert Hin. clear.
      rewrite !elem_of_cons, elem_of_nil. intros [H|[H|[H|[]]]]; discriminate.
    + split; [exact Hw|exact Hp].
  - rewrite perform_SystemThemeChange. eexists. split; [reflexivity|].
    destruct Hp as [Hp|Hp]; [discriminate|].
    cbv zeta. destruct Hw as [[m Hm] Hq]. rewrite Hm.
    destruct Hp as (s & Hs & Hne & Hforce).
    unfold stored in Hs. rewrite Hm in Hs. rewrite Hs.
    apply truthy_Some in Hne as Htr. rewrite Htr. simpl negb. simpl orb.
    case_bool_decide as Hauto.
    + injection Hauto as ->. split.
      * apply applied_writable. split; eauto.
      * exists AUTO. rewrite applied_stored. unfold stored at 1. simpl. rewrite Hm.
        split; [exact Hs|]. split; [discriminate|]. simpl.
        rewrite current_theme_applied by (destruct matches; discriminate).
        rewrite system_theme_applied. destruct matches; reflexivity.
    + split; [split; eauto|].
      exists s. unfold stored at 1. simpl. rewrite Hm.
      split; [exact Hs|]. split; [exact Hne|].
      destruct (seq s AUTO) eqn:Ha; [|exact Hforce].
      apply seq_eq in Ha. congruence.
Qed.

(** X12. With a storage that can be read and written, once the theme
    manager is initialised the stored preference is the one in force,
    whatever happens next: [getThemeInfo] reports a non-empty stored theme,
    and its current theme is that stored theme, or the system theme when
    "auto" is stored. *)
Theorem stored_preference_is_in_force (os : list operation) (p : page) :
  writable p ->
  exists p' info s,
    perform_all (Init :: os) p = Ret tt p' /\
    getThemeInfo p' = Ret info p' /\
    stored_theme info = Some s /\ s <> "" /\
    current info = (if seq s AUTO then system info else s).
Proof.
  intros Hw.
  destruct (perform_preference Init p Hw (or_introl eq_refl)) as (p1 & H1 & Hw1 & Hp1).
  destruct (perform_all_invariant
              (fun q => writable q /\ preference_in_force q)
              (fun o q Hq => perform_preference o q (proj1 Hq) (or_intror (proj2 Hq)))
              os p1 (conj Hw1 Hp1)) as (p' & Hrun & Hw' & s & Hs & Hne & Hforce).
  destruct Hw' as [[m Hm] Hq].
  exists p', (ThemeInfoOf (current_theme p') (m !! storageKey) (system_theme p')
                (match prefers_dark p' with None => None | Some _ => Some true end)), s.
  split. { cbn [perform_all]. unfold bind. rewrite H1. exact Hrun. }
  split; [apply getThemeInfo_ret, Hm|].
  unfold stored in Hs. rewrite Hm in Hs.
  split; [exact Hs|]. split; [exact Hne|]. cbn [current system].
  destruct (seq s AUTO) eqn:Ha; [exact Hforce|].
  unfold current_theme. rewrite Hforce. apply truthy_Some in Hne. rewrite Hne.
  reflexivity.
Qed.

Lemma stored_preference_is_in_force_witness :
  exists p' info s,
    perform_all [Init; Toggle; SystemThemeChange false; SetTheme "auto"]
      (Examples.page_with_storage ∅) = Ret tt p' /\
    getThemeInfo p' = Ret info p' /\
    stored_theme info = Some s /\ s <> "" /\
    current info = (if seq s AUTO then system info else s).
Proof.
  apply stored_preference_is_in_force.
  split; [eexists; reflexivity|reflexivity].
Defined.

(** X13. In "auto" mode the toggles are marked for the light theme
    whatever is shown: after [setTheme("auto")] the attribute [data-theme]
    is gone, every toggle has [aria-pressed] "false", the label "Switch to
    dark theme" and the class [theme-toggle--light], also on a system that
    prefers dark, where the current theme is dark and a toggle switches to
    light. *)
Theorem auto_mode_marks_toggles_light (p : page) :
  exists p',
    setTheme AUTO p = Ret tt p' /\
    applied_theme p' = None /\
    (forall b, b ∈ elements p' -> is_toggle b = true ->
       attrs b !! "aria-pressed" = Some "false" /\
       attrs b !! "aria-label" = Some "Switch to dark theme" /\
       "theme-toggle--light" ∈ classList b /\
       "theme-toggle--dark" ∉ classList b) /\
    (prefers_dark p = Some true ->
     getCurrentTheme p' = Ret DARK p' /\
     exists p'', toggle p' = Ret tt p'' /\ applied_theme p'' = Some LIGHT).
Proof.
  rewrite setTheme_ret. simpl bool_decide. cbv iota.
  eexists. split; [reflexivity|].
  split; [rewrite stored_state_applied_theme; apply applied_theme_applied|].
  split.
  - intros b Hin Ht. rewrite stored_state_elements in Hin.
    destruct (applied_toggle_pressed _ _ _ Hin Ht) as (A & B & C & D).
    split; [exact A|]. split; [exact B|]. split.
    + apply D. reflexivity.
    + rewrite C. discriminate.
  - intros Hdark.
    assert (Hcur : current_theme (stored_state AUTO (applied AUTO p)) = DARK).
    { rewrite current_theme_stored_state, current_theme_applied_auto.
      unfold system_theme. rewrite Hdark. reflexivity. }
    split; [rewrite getCurrentTheme_current, Hcur; reflexivity|].
    rewrite toggle_ret. cbv zeta. rewrite Hcur. eexists. split; [reflexivity|].
    rewrite stored_state_applied_theme. apply applied_theme_applied.
Qed.

End ThemeToggleMore.


(* ===================================================================== *)
(** ** Navigation: invariants of the menu                                *)
(* ===================================================================== *)

Section NavigationMore.
Import Navigation NavigationEvents.

(** *** Coherence *)

Lemma coherent_same p p' :
  toggle_attrs p' = toggle_attrs p -> nav_attrs p' = nav_attrs p ->
  body_overflow p' = body_overflow p ->
  ("mobile-nav-open" ∈ body_classes p -> "mobile-nav-open" ∈ body_classes p') ->
  coherent p -> coherent p'.
Proof.
  intros H1 H2 H3 H4 (b & A & B & C & D). exists b.
  rewrite H1, H2, H3. repeat split; auto.
Qed.

Lemma coherent_closed_state p (f : gset string -> gset string) :
  coherent (set_body "" f (set_aria "false" "true" p)).
Proof.
  exists false. cbn [toggle_attrs nav_attrs body_overflow set_body set_aria].
  rewrite !lookup_insert_eq. repeat split. discriminate.
Qed.

Lemma coherent_toggleMobileNav p : coherent p -> coherent (toggleMobileNav p).
Proof.
  intros Hp. unfold toggleMobileNav. destruct (isAnimating p); [exact Hp|].
  cbv zeta. exists (negb (isExpanded p)).
  destruct (isExpanded p); cbn [negb bool_toString];
    cbn [toggle_attrs nav_attrs body_overflow body_classes set_body set_aria
         setTimeout set_isAnimating];
    rewrite !lookup_insert_eq; repeat split; try discriminate.
  intros _. clear. set_solver.
Qed.

Lemma coherent_closeMobileNav p : coherent p -> coherent (closeMobileNav p).
Proof.
  intros Hp. unfold closeMobileNav. destruct (isAnimating p); [exact Hp|].
  apply coherent_closed_state.
Qed.

Lemma coherent_focus_first p : coherent p -> coherent (focus_first_on_open p).
Proof.
  unfold focus_first_on_open. destruct (isExpanded p); [|auto].
  apply coherent_same; auto.
Qed.

Lemma coherent_click_toggle wa p : coherent p -> coherent (click_toggle wa p).
Proof.
  intros Hp. unfold click_toggle. cbv zeta.
  destruct wa; repeat apply coherent_focus_first; apply coherent_toggleMobileNav, Hp.
Qed.

Lemma coherent_focus t p : coherent p -> coherent (focus t p).
Proof. apply coherent_same; auto. Qed.

Lemma coherent_trap_focus e p : coherent p -> coherent (trap_focus e p).2.
Proof.
  intros Hp. unfold trap_focus.
  repeat match goal with
         | |- context [if ?c then _ else _] => destruct c
         end; cbn [snd]; auto using coherent_focus.
Qed.

Lemma coherent_default_tab e p : coherent p -> coherent (default_tab e p).
Proof.
  intros Hp. unfold default_tab.
  repeat match goal with
         | |- context [if ?c then _ else _] => destruct c
         | |- context [match ?c with OnLink _ => _ | _ => _ end] => destruct c
         end; auto using coherent_focus.
Qed.

Lemma coherent_keyboard_detection e p :
  coherent p -> coherent (keyboard_detection e p).
Proof.
  unfold keyboard_detection. destruct (String.eqb (key e) "Tab"); [|auto].
  apply coherent_same; auto. cbn [body_classes set_body_classes]. clear. set_solver.
Qed.

Lemma coherent_document_keydown e p : coherent p -> coherent (document_keydown e p).
Proof.
  unfold document_keydown. destruct (String.eqb (key e) "Escape");
    auto using coherent_closeMobileNav.
Qed.

Lemma coherent_accessibility_nav_keydown e p :
  coherent p -> coherent (accessibility_nav_keydown e p).2.
Proof.
  intros Hp. unfold accessibility_nav_keydown.
  pose proof (coherent_trap_focus e p Hp) as H.
  destruct (trap_focus e p) as [prevented p1]. cbn [snd] in H.
  destruct (String.eqb (key e) "Escape"); cbn [snd]; [|exact H].
  apply coherent_focus, coherent_click_toggle, H.
Qed.

Lemma coherent_keydown wa e p : coherent p -> coherent (keydown wa e p).
Proof.
  intros Hp. unfold keydown. cbv zeta.
  assert (H1 : coherent (if target_in_nav p then trap_focus e p else (false, p)).2).
  { destruct (target_in_nav p); [apply coherent_trap_focus, Hp|exact Hp]. }
  destruct (if target_in_nav p then trap_focus e p else (false, p))
    as [prevented1 p1]. cbn [snd] in H1.
  assert (H2 : coherent (if target_in_nav p && wa
                         then accessibility_nav_keydown e p1 else (false, p1)).2).
  { destruct (target_in_nav p && wa);
      [apply coherent_accessibility_nav_keydown, H1|exact H1]. }
  destruct (if target_in_nav p && wa
            then accessibility_nav_keydown e p1 else (false, p1))
    as [prevented2 p2]. cbn [snd] in H2.
  assert (H4 : coherent (if wa then keyboard_detection e (document_keydown e p2)
                         else document_keydown e p2)).
  { destruct wa; [apply coherent_keyboard_detection|];
      apply coherent_document_keydown, H2. }
  destruct (prevented1 || prevented2); [exact H4|].
  apply coherent_default_tab, H4.
Qed.

Lemma coherent_timer_fires n p : coherent p -> coherent (timer_fires n p).
Proof.
  intros Hp. unfold timer_fires. destruct (timers p !! n) as [[d t]|]; [|exact Hp].
  destruct t; cbn [run_task].
  - revert Hp. apply coherent_same; auto.
  - destruct (Nat.ltb 0 _); revert Hp; apply coherent_same; auto.
Qed.

Lemma coherent_link_click a p : coherent p -> coherent (link_click a p).
Proof.
  intros Hp. unfold link_click. cbv zeta.
  destruct a; [apply coherent_closed_state|apply coherent_closeMobileNav, Hp].
Qed.

Lemma coherent_handle wa ev p : coherent p -> coherent (handle wa ev p).
Proof.
  intros Hp. destruct ev as [|a|a|e a|n|w| | |]; cbn [handle].
  - apply coherent_click_toggle, Hp.
  - apply coherent_link_click, Hp.
  - unfold outside_click. cbv zeta. apply coherent_closeMobileNav.
    destruct a; [apply coherent_closed_state|exact Hp].
  - apply coherent_keydown.
    destruct (activeElement p); try exact Hp.
    unfold link_keydown.
    destruct (String.eqb (key e) "Enter" || String.eqb (key e) " "); cbn [snd];
      [apply coherent_link_click, Hp|exact Hp].
  - apply coherent_timer_fires, Hp.
  - unfold resize_settled. destruct (768 <=? w)%Z;
      [apply coherent_closeMobileNav, Hp|exact Hp].
  - apply coherent_closed_state.
  - destruct wa; [|exact Hp]. revert Hp. apply coherent_same; auto.
    cbn [body_classes mousedown set_body_classes]. clear. set_solver.
  - destruct wa; [|exact Hp]. revert Hp. apply coherent_same; auto.
    cbn [body_classes touchstart set_body_classes]. clear. set_solver.
Qed.

(** X14. The menu never says two things at once: on a page where
    [aria-expanded], [aria-hidden] and the overflow of [document.body]
    agree and an open menu has the class [mobile-nav-open], they still do
    after any sequence of clicks, keys, timers, resizes and viewport
    changes, with or without accessibility.js. *)
Theorem menu_state_stays_coherent (with_accessibility : bool) (evs : list event)
    (p : page) :
  coherent p -> coherent (run with_accessibility evs p).
Proof.
  revert p. induction evs as [|ev evs IH]; intros p Hp; [exact Hp|].
  cbn [run]. apply IH, coherent_handle, Hp.
Qed.

Lemma menu_state_stays_coherent_witness :
  coherent
    (run true [ToggleClick; TimerFires 0; Key Tab false; LinkClick true;
               ResizeSettled 1024; ToggleClick]
       Examples.nav_closed).
Proof.
  apply menu_state_stays_coherent.
  exists false. repeat split. discriminate.
Defined.

(** *** Invariants in general: what is kept by the steps the listeners are
    made of is kept by every sequence of events. *)

Section Invariant.
Variable I : page -> Prop.
Hypothesis Htoggle : forall p, I p -> I (toggleMobileNav p).
Hypothesis Hclose : forall p, I p -> I (closeMobileNav p).
Hypothesis Hviewport : forall p, I p -> I (handleViewportChange p).
Hypothesis Hscroll : forall p, I p -> I (smooth_scroll_close p).
Hypothesis Htimeout : forall p, I p -> I (setTimeout FocusFirstLink 100 p).
Hypothesis Hfocus : forall t p, I p -> I (focus t p).
Hypothesis Hkeyboard : forall e p, I p -> I (keyboard_detection e p).
Hypothesis Hmouse : forall p, I p -> I (mousedown p).
Hypothesis Htouch : forall p, I p -> I (touchstart p).
Hypothesis Htimer : forall n p, I p -> I (timer_fires n p).

Lemma invariant_focus_first p : I p -> I (focus_first_on_open p).
Proof. unfold focus_first_on_open. destruct (isExpanded p); auto. Qed.

Lemma invariant_click_toggle wa p : I p -> I (click_toggle wa p).
Proof.
  intros Hp. unfold click_toggle. cbv zeta.
  destruct wa; repeat apply invariant_focus_first; apply Htoggle, Hp.
Qed.

Lemma invariant_trap_focus e p : I p -> I (trap_focus e p).2.
Proof.
  intros Hp. unfold trap_focus.
  repeat match goal with
         | |- context [if ?c then _ else _] => destruct c
         end; cbn [snd]; auto.
Qed.

Lemma invariant_default_tab e p : I p -> I (default_tab e p).
Proof.
  intros Hp. unfold default_tab.
  repeat match goal with
         | |- context [if ?c then _ else _] => destruct c
         | |- context [match ?c with OnLink _ => _ | _ => _ end] => destruct c
         end; auto.
Qed.

Lemma invariant_document_keydown e p : I p -> I (document_keydown e p).
Proof.
  unfold document_keydown. destruct (String.eqb (key e) "Escape"); auto.
Qed.

Lemma invariant_accessibility_nav_keydown e p :
  I p -> I (accessibility_nav_keydown e p).2.
Proof.
  intros Hp. unfold accessibility_nav_keydown.
  pose proof (invariant_trap_focus e p Hp) as H.
  destruct (trap_focus e p) as [prevented p1]. cbn [snd] in H.
  destruct (String.eqb (key e) "Escape"); cbn [snd]; [|exact H].
  apply Hfocus, invariant_click_toggle, H.
Qed.

Lemma invariant_keydown wa e p : I p -> I (keydown wa e p).
Proof.
  intros Hp. unfold keydown. cbv zeta.
  assert (H1 : I (if target_in_nav p then trap_focus e p else (false, p)).2).
  { destruct (target_in_nav p); [apply invariant_trap_focus, Hp|exact Hp]. }
  destruct (if target_in_nav p then trap_focus e p else (false, p))
    as [prevented1 p1]. cbn [snd] in H1.
  assert (H2 : I (if target_in_nav p && wa
                  then accessibility_nav_keydown e p1 else (false, p1)).2).
  { destruct (target_in_nav p && wa);
      [apply invariant_accessibility_nav_keydown, H1|exact H1]. }
  destruct (if target_in_nav p && wa
            then accessibility_nav_keydown e p1 else (false, p1))
    as [prevented2 p2]. cbn [snd] in H2.
  assert (H4 : I (if wa then keyboard_detection e (document_keydown e p2)
                  else document_keydown e p2)).
  { destruct wa; [apply Hkeyboard|]; apply invariant_document_keydown, H2. }
  destruct (prevented1 || prevented2); [exact H4|].
  apply invariant_default_tab, H4.
Qed.

Lemma invariant_link_click a p : I p -> I (link_click a p).
Proof.
  intros Hp. unfold link_click. cbv zeta. destruct a; auto.
Qed.

Lemma invariant_handle wa ev p : I p -> I (handle wa ev p).
Proof.
  intros Hp. destruct ev as [|a|a|e a|n|w| | |]; cbn [handle].
  - apply invariant_click_toggle, Hp.
  - apply invariant_link_click, Hp.
  - unfold outside_click. cbv zeta. destruct a; auto.
  - apply invariant_keydown.
    destruct (activeElement p); try exact Hp.
    unfold link_keydown.
    destruct (String.eqb (key e) "Enter" || String.eqb (key e) " "); cbn [snd];
      [apply invariant_link_click, Hp|exact Hp].
  - apply Htimer, Hp.
  - unfold resize_settled. destruct (768 <=? w)%Z; auto.
  - apply Hviewport, Hp.
  - destruct wa; auto.
  - destruct wa; auto.
Qed.

Lemma invariant_run wa evs p : I p -> I (run wa evs p).
Proof.
  revert p. induction evs as [|ev evs IH]; intros p Hp; [exact Hp|].
  cbn [run]. apply IH, invariant_handle, Hp.
Qed.

End Invariant.

(** *** The animation flag *)

Lemma reset_pending_same p p' :
  isAnimating p' = isAnimating p ->
  (forall x, x ∈ timers p -> x ∈ timers p') ->
  reset_pending p -> reset_pending p'.
Proof. unfold reset_pending. intros -> H Hp Ha. auto. Qed.

Lemma elem_of_delete_other {A} (l : list A) n x y :
  x ∈ l -> l !! n = Some y -> x <> y -> x ∈ delete n l.
Proof.
  revert n. induction l as [|a l IH]; intros n Hin Hn Hne.
  - apply elem_of_nil in Hin as [].
  - destruct n as [|n]; simpl in *.
    + injection Hn as ->. apply elem_of_cons in Hin as [->|Hin]; [congruence|exact Hin].
    + apply elem_of_cons in Hin as [->|Hin].
      * apply list_elem_of_here.
      * apply list_elem_of_further. eapply IH; eauto.
Qed.

Lemma reset_pending_timer_fires n p : reset_pending p -> reset_pending (timer_fires n p).
Proof.
  intros Hp. unfold timer_fires.
  destruct (timers p !! n) as [[d t]|] eqn:Hn; [|exact Hp].
  destruct t; cbn [run_task].
  - intros H. discriminate.
  - assert (H : reset_pending (set_timers (delete n (timers p)) p)).
    { intros Ha. cbn [timers set_timers].
      apply (elem_of_delete_other _ n _ (d, FocusFirstLink));
        [apply Hp, Ha|exact Hn|discriminate]. }
    destruct (Nat.ltb 0 _); [|exact H].
    revert H. apply reset_pending_same; auto.
Qed.

Lemma reset_pending_run wa evs p : reset_pending p -> reset_pending (run wa evs p).
Proof.
  apply invariant_run; clear p.
  - intros p Hp. unfold toggleMobileNav.
    destruct (isAnimating p) eqn:Ha; [exact Hp|].
    intros _. cbv zeta.
    destruct (negb (isExpanded p)); cbn [timers setTimeout set_body set_aria
      set_isAnimating]; apply elem_of_app; right; apply list_elem_of_here.
  - intros p. unfold closeMobileNav. destruct (isAnimating p); [auto|].
    apply reset_pending_same; auto.
  - intros p. apply reset_pending_same; auto.
  - intros p. apply reset_pending_same; auto.
  - intros p. apply reset_pending_same; [reflexivity|].
    intros x Hx. cbn [timers setTimeout]. apply elem_of_app. left. exact Hx.
  - intros t p. apply reset_pending_same; auto.
  - intros e p. unfold keyboard_detection.
    destruct (String.eqb (key e) "Tab"); [|auto]. apply reset_pending_same; auto.
  - intros p. apply reset_pending_same; auto.
  - intros p. apply reset_pending_same; auto.
  - apply reset_pending_timer_fires.
Qed.

(** X15. The menu cannot get stuck in its animation: on a page where a
    set [isAnimating] has its reset pending, the same holds after any
    sequence of events, so whenever the flag is set, which makes clicks and
    Escape do nothing, one of the pending timers clears it. *)
Theorem animation_flag_is_released (with_accessibility : bool) (evs : list event)
    (p : page) :
  reset_pending p ->
  let p' := run with_accessibility evs p in
  reset_pending p' /\
  (isAnimating p' = true ->
   exists n, timers p' !! n = Some (300, ResetAnimating) /\
             isAnimating (timer_fires n p') = false).
Proof.
  intros Hp. cbv zeta.
  pose proof (reset_pending_run with_accessibility evs p Hp) as H.
  split; [exact H|]. intros Ha.
  apply list_elem_of_lookup in H as [n Hn]; [|exact Ha].
  exists n. split; [exact Hn|].
  unfold timer_fires. rewrite Hn. reflexivity.
Qed.

Lemma animation_flag_is_released_witness :
  let p' := run true [ToggleClick; Key Escape false; ToggleClick] Examples.nav_closed in
  reset_pending p' /\
  (isAnimating p' = true ->
   exists n, timers p' !! n = Some (300, ResetAnimating) /\
             isAnimating (timer_fires n p') = false).
Proof.
  apply (animation_flag_is_released true
           [ToggleClick; Key Escape false; ToggleClick] Examples.nav_closed).
  intros H. discriminate.
Defined.

(** *** Input kinds *)

Lemma one_input_kind_same p p' :
  ("keyboard-user" ∈ body_classes p' -> "keyboard-user" ∈ body_classes p) ->
  ("mouse-user" ∈ body_classes p' -> "mouse-user" ∈ body_classes p) ->
  one_input_kind p -> one_input_kind p'.
Proof. unfold one_input_kind. intros H1 H2 Hp [A B]. auto. Qed.

Lemma one_input_kind_timer_fires n p :
  one_input_kind p -> one_input_kind (timer_fires n p).
Proof.
  intros Hp. unfold timer_fires. destruct (timers p !! n) as [[d t]|]; [|exact Hp].
  destruct t; cbn [run_task]; [exact Hp|].
  destruct (Nat.ltb 0 _); exact Hp.
Qed.

Lemma trap_focus_classes e p : body_classes (trap_focus e p).2 = body_classes p.
Proof.
  apply (invariant_trap_focus (fun q => body_classes q = body_classes p)); auto.
Qed.

Lemma default_tab_classes e p : body_classes (default_tab e p) = body_classes p.
Proof.
  apply (invariant_default_tab (fun q => body_classes q = body_classes p)); auto.
Qed.

(** The classes of [document.body] after a Tab key, with accessibility.js. *)
Lemma handle_Tab_classes a q :
  body_classes (handle true (Key Tab a) q) =
  ({["keyboard-user"]} ∪ body_classes q) ∖ {["mouse-user"]}.
Proof.
  cbn [handle].
  assert (Hq : match activeElement q with
               | OnLink _ => (link_keydown Tab a q).2
               | _ => q
               end = q) by (destruct (activeElement q); reflexivity).
  rewrite Hq. unfold keydown. cbv zeta.
  assert (H1 : body_classes
                 (if target_in_nav q then trap_focus Tab q else (false, q)).2
               = body_classes q).
  { destruct (target_in_nav q); [apply trap_focus_classes|reflexivity]. }
  destruct (if target_in_nav q then trap_focus Tab q else (false, q))
    as [prevented1 p1]. cbn [snd] in H1.
  assert (H2 : body_classes
                 (if target_in_nav q && true
                  then accessibility_nav_keydown Tab p1 else (false, p1)).2
               = body_classes q).
  { destruct (target_in_nav q && true); [|exact H1].
    unfold accessibility_nav_keydown.
    pose proof (trap_focus_classes Tab p1) as H.
    destruct (trap_focus Tab p1) as [pr p1']. cbn [snd] in H.
    change (body_classes p1' = body_classes q). congruence. }
  destruct (if target_in_nav q && true
            then accessibility_nav_keydown Tab p1 else (false, p1))
    as [prevented2 p2]. cbn [snd] in H2.
  destruct (prevented1 || prevented2); rewrite ?default_tab_classes;
    cbn; rewrite H2; reflexivity.
Qed.

(** X16. The classes that tell keyboard users from mouse users exclude
    each other: a page that does not have both [keyboard-user] and
    [mouse-user] on [document.body] never gets both, whatever the events;
    a Tab key leaves [keyboard-user] alone of the two, a mouse button
    [mouse-user]. *)
Theorem input_kind_classes_exclude_each_other (with_accessibility : bool)
    (evs : list event) (p : page) :
  one_input_kind p ->
  one_input_kind (run with_accessibility evs p) /\
  (let p' := handle true (Key Tab false) (run with_accessibility evs p) in
   "keyboard-user" ∈ body_classes p' /\ "mouse-user" ∉ body_classes p') /\
  (let p' := handle true MouseDown (run with_accessibility evs p) in
   "mouse-user" ∈ body_classes p' /\ "keyboard-user" ∉ body_classes p').
Proof.
  intros Hp. split; [|split].
  - revert Hp. apply invariant_run; clear p.
    + intros p. unfold toggleMobileNav. destruct (isAnimating p); [auto|].
      cbv zeta. apply one_input_kind_same;
        destruct (negb (isExpanded p));
        cbn [body_classes setTimeout set_body set_aria set_isAnimating];
        clear; set_solver.
    + intros p. unfold closeMobileNav. destruct (isAnimating p); [auto|].
      apply one_input_kind_same; cbn [body_classes set_body set_aria];
        clear; set_solver.
    + intros p. apply one_input_kind_same;
        cbn [body_classes handleViewportChange set_body set_aria]; clear; set_solver.
    + intros p. apply one_input_kind_same; auto.
    + intros p. apply one_input_kind_same; auto.
    + intros t p. apply one_input_kind_same; auto.
    + intros e p Hp. unfold keyboard_detection.
      destruct (String.eqb (key e) "Tab") eqn:He; [|exact Hp].
      unfold one_input_kind. cbn [body_classes set_body_classes].
      clear. set_solver.
    + intros p _. unfold one_input_kind, mousedown.
      cbn [body_classes set_body_classes]. clear. set_solver.
    + intros p. apply one_input_kind_same;
        cbn [body_classes touchstart set_body_classes]; clear; set_solver.
    + apply one_input_kind_timer_fires.
  - cbv zeta. generalize (run with_accessibility evs p). intros q.
    rewrite handle_Tab_classes. clear. set_solver.
  - cbv zeta. cbn [handle]. unfold mousedown. cbn [body_classes set_body_classes].
    clear. set_solver.
Qed.

Lemma input_kind_classes_exclude_each_other_witness :
  one_input_kind (run true [MouseDown; Key Tab false; TouchStart] Examples.nav_closed).
Proof.
  apply (input_kind_classes_exclude_each_other true
           [MouseDown; Key Tab false; TouchStart] Examples.nav_closed).
  unfold one_input_kind. simpl. clear. set_solver.
Defined.

(** *** Clicks on the toggle *)

Lemma same_menu_refl p : same_menu p p.
Proof. unfold same_menu. repeat split. Qed.

Lemma same_menu_focus_first p : same_menu p (focus_first_on_open p).
Proof.
  unfold focus_first_on_open, same_menu. destruct (isExpanded p); repeat split.
Qed.

Lemma same_menu_trans p1 p2 p3 : same_menu p1 p2 -> same_menu p2 p3 -> same_menu p1 p3.
Proof.
  unfold same_menu. intros (A1 & A2 & A3 & A4 & A5 & A6 & A7)
    (B1 & B2 & B3 & B4 & B5 & B6 & B7).
  repeat split; congruence.
Qed.

Lemma same_menu_click_toggle wa p : same_menu (toggleMobileNav p) (click_toggle wa p).
Proof.
  unfold click_toggle. cbv zeta. destruct wa.
  - eapply same_menu_trans; apply same_menu_focus_first.
  - apply same_menu_focus_first.
Qed.

Lemma toggleMobileNav_animating p : isAnimating p = true -> toggleMobileNav p = p.
Proof. intros H. unfold toggleMobileNav. rewrite H. reflexivity. Qed.

Lemma toggleMobileNav_sets_flag p :
  isAnimating p = false -> isAnimating (toggleMobileNav p) = true.
Proof.
  intros H. unfold toggleMobileNav. rewrite H. cbv zeta.
  destruct (negb (isExpanded p)); reflexivity.
Qed.

Lemma clicks_while_animating wa n p :
  isAnimating p = true -> same_menu p (Nat.iter n (click_toggle wa) p).
Proof.
  intros Ha. induction n as [|n IH]; [apply same_menu_refl|].
  cbn [Nat.iter]. eapply same_menu_trans; [exact IH|].
  set (q := Nat.iter n (click_toggle wa) p) in *.
  assert (Hq : isAnimating q = true).
  { destruct IH as (_ & _ & _ & _ & _ & -> & _). exact Ha. }
  pose proof (same_menu_click_toggle wa q) as H.
  rewrite (toggleMobileNav_animating q Hq) in H. exact H.
Qed.

(** X17. The toggle is debounced: once a click has been taken, any
    number of further clicks before the reset timer fires leaves the menu
    as the first click left it; and on a closed menu at rest, a click, the
    reset, and a second click end with a closed menu again. *)
Theorem toggle_clicks_are_debounced (with_accessibility : bool) (n : nat) (p : page) :
  isAnimating p = false ->
  same_menu (click_toggle with_accessibility p)
    (Nat.iter n (click_toggle with_accessibility)
       (click_toggle with_accessibility p)) /\
  (closed p -> timers p = [] ->
   let p' := click_toggle with_accessibility
               (timer_fires 0 (click_toggle with_accessibility p)) in
   isExpanded (click_toggle with_accessibility p) = true /\
   closed p' /\ body_overflow p' = "" /\ "mobile-nav-open" ∉ body_classes p').
Proof.
  intros Ha. split.
  - apply clicks_while_animating.
    destruct (same_menu_click_toggle with_accessibility p)
      as (_ & _ & _ & _ & _ & -> & _).
    apply toggleMobileNav_sets_flag, Ha.
  - intros Hc Ht. cbv zeta.
    pose proof (isExpanded_closed p Hc) as He.
    assert (Hopen : toggleMobileNav p =
              setTimeout ResetAnimating 300
                (set_body "hidden" (fun c => {["mobile-nav-open"]} ∪ c)
                   (set_aria "true" "false" (set_isAnimating true p)))).
    { unfold toggleMobileNav. rewrite Ha, He. reflexivity. }
    assert (He1 : isExpanded (toggleMobileNav p) = true).
    { rewrite Hopen. unfold isExpanded.
      cbn [toggle_attrs setTimeout set_body set_aria].
      rewrite lookup_insert_eq. apply bool_decide_eq_true_2. reflexivity. }
    set (p1 := click_toggle with_accessibility p).
    assert (Hp1 : same_menu (toggleMobileNav p) p1)
      by apply same_menu_click_toggle.
    assert (He2 : isExpanded p1 = true).
    { destruct Hp1 as (Hta & _). unfold isExpanded in *. rewrite Hta. exact He1. }
    split; [exact He2|].
    assert (Ht1 : timers p1 !! 0 = Some (300, ResetAnimating)).
    { unfold p1, click_toggle, focus_first_on_open. cbv zeta. rewrite He1.
      assert (H0 : timers (toggleMobileNav p) !! 0 = Some (300, ResetAnimating)).
      { rewrite Hopen. cbn [timers setTimeout set_body set_aria set_isAnimating].
        rewrite Ht. reflexivity. }
      assert (H1 : isExpanded (setTimeout FocusFirstLink 100 (toggleMobileNav p))
                   = true) by exact He1.
      destruct with_accessibility; [rewrite H1|];
        cbn [timers setTimeout]; rewrite ?lookup_app_l; auto;
        rewrite ?length_app; apply lookup_lt_Some in H0; simpl; lia. }
    set (p2 := timer_fires 0 p1).
    assert (Hp2 : isAnimating p2 = false /\ isExpanded p2 = true).
    { unfold p2, timer_fires. rewrite Ht1. cbn [run_task]. split; [reflexivity|].
      exact He2. }
    destruct Hp2 as [Ha2 He2'].
    destruct (click_toggle_closes with_accessibility p2 Ha2 He2') as [Hclosed _].
    split; [exact Hclosed|].
    destruct (same_menu_click_toggle with_accessibility p2)
      as (_ & _ & _ & -> & -> & _).
    unfold toggleMobileNav. rewrite Ha2, He2'. cbv zeta.
    cbn [negb body_overflow body_classes setTimeout set_body set_aria set_isAnimating].
    split; [reflexivity|]. clear. set_solver.
Qed.

Lemma toggle_clicks_are_debounced_witness :
  same_menu (click_toggle true Examples.nav_closed)
    (Nat.iter 3 (click_toggle true) (click_toggle true Examples.nav_closed)).
Proof.
  apply (toggle_clicks_are_debounced true 3 Examples.nav_closed). reflexivity.
Defined.

(** X18. With accessibility.js, Escape toggles rather than closes: when
    the focus is inside a closed menu at rest, the Escape key opens it,
    since the listener clicks the toggle whatever the state and the closing
    listener of navigation.js then finds the animation pending; without
    accessibility.js the menu stays closed. *)
Theorem escape_opens_a_closed_menu (p : page) :
  closed p -> isAnimating p = false -> target_in_nav p = true ->
  isExpanded (keydown true Escape p) = true /\
  body_overflow (keydown true Escape p) = "hidden" /\
  activeElement (keydown true Escape p) = OnToggle /\
  closed (keydown false Escape p).
Proof.
  intros Hc Ha Hin.
  pose proof (isExpanded_closed p Hc) as He.
  assert (Hopen : toggleMobileNav p =
            setTimeout ResetAnimating 300
              (set_body "hidden" (fun c => {["mobile-nav-open"]} ∪ c)
                 (set_aria "true" "false" (set_isAnimating true p)))).
  { unfold toggleMobileNav. rewrite Ha, He. reflexivity. }
  assert (Hkey : keydown true Escape p =
                 focus OnToggle (click_toggle true p)).
  { unfold keydown. rewrite trap_focus_Escape, Hin. cbn [andb].
    unfold accessibility_nav_keydown. rewrite trap_focus_Escape.
    cbn [Escape key String.eqb Ascii.eqb Bool.eqb andb orb].
    unfold document_keydown, keyboard_detection, default_tab.
    cbn [key String.eqb Ascii.eqb Bool.eqb andb].
    apply closeMobileNav_animating.
    change (isAnimating (click_toggle true p) = true).
    destruct (same_menu_click_toggle true p) as (_ & _ & _ & _ & _ & -> & _).
    apply toggleMobileNav_sets_flag, Ha. }
  rewrite Hkey.
  destruct (same_menu_click_toggle true p) as (Hta & _ & _ & Hov & _).
  split; [|split; [|split]].
  - unfold isExpanded. cbn [toggle_attrs focus]. rewrite Hta, Hopen.
    cbn [toggle_attrs setTimeout set_body set_aria].
    rewrite lookup_insert_eq. apply bool_decide_eq_true_2. reflexivity.
  - cbn [body_overflow focus]. rewrite Hov, Hopen. reflexivity.
  - reflexivity.
  - unfold keydown. rewrite trap_focus_Escape, Hin. cbn [andb orb].
    unfold document_keydown, default_tab.
    cbn [Escape key String.eqb Ascii.eqb Bool.eqb andb].
    unfold closeMobileNav. rewrite Ha. apply closed_after_close.
Qed.

Lemma escape_opens_a_closed_menu_witness :
  isExpanded (keydown true Escape (focus (OnLink 0) Examples.nav_closed)) = true.
Proof.
  apply (escape_opens_a_closed_menu (focus (OnLink 0) Examples.nav_closed)).
  - split; reflexivity.
  - reflexivity.
  - reflexivity.
Defined.

(** X19. The class of [document.body] can outlive the menu: a click on
    an anchor link of the open menu while the toggle animation is pending
    closes the menu through the smooth-scrolling listener, which resets the
    attributes and the overflow but leaves the class [mobile-nav-open]; at
    rest the same click removes it. *)
Theorem anchor_click_can_leave_body_class (p : page) :
  "mobile-nav-open" ∈ body_classes p ->
  let p' := handle true (LinkClick true) p in
  closed p' /\ body_overflow p' = "" /\
  ("mobile-nav-open" ∈ body_classes p' <-> isAnimating p = true).
Proof.
  intros Hclass. cbv zeta. cbn [handle]. unfold link_click, closeMobileNav.
  cbv zeta. destruct (isAnimating p).
  - split; [split; apply lookup_insert_eq|]. split; [reflexivity|].
    cbn [body_classes smooth_scroll_close set_body set_aria]. tauto.
  - split; [split; apply lookup_insert_eq|]. split; [reflexivity|].
    cbn [body_classes smooth_scroll_close set_body set_aria].
    split; [|discriminate]. clear. set_solver.
Qed.

Lemma anchor_click_can_leave_body_class_witness :
  let p := click_toggle true Examples.nav_closed in
  closed (handle true (LinkClick true) p) /\
  "mobile-nav-open" ∈ body_classes (handle true (LinkClick true) p).
Proof.
  cbv zeta.
  destruct (anchor_click_can_leave_body_class (click_toggle true Examples.nav_closed))
    as (H1 & _ & H2).
  - vm_compute. clear. set_solver.
  - split; [exact H1|]. apply H2. reflexivity.
Defined.

(** *** Active links *)

Lemma prefix_app a b : String.prefix a (a ++ b) = true.
Proof.
  induction a as [|c a IH]; simpl; [destruct b; reflexivity|].
  destruct (ascii_dec c c); [exact IH|congruence].
Qed.

Lemma prefix_inv a s : String.prefix a s = true -> exists b, s = a ++ b.
Proof.
  revert s. induction a as [|c a IH]; intros s H.
  - exists s. reflexivity.
  - destruct s as [|c' s]; simpl in H; [discriminate|].
    destruct (ascii_dec c c') as [->|]; [|discriminate].
    destruct (IH s H) as [b ->]. exists b. reflexivity.
Qed.

(** X20. [initActiveLinks] marks exactly the links whose path is the
    page's path or, both being other than "/", a beginning of it; it keeps
    the links, their paths and their other classes.  So the link of the
    page itself is always marked, the home link only on the home page, and
    a link to "/blog" on "/blog/post" as well as on "/blogroll". *)
Theorem active_links_are_path_prefixes (currentPath : string)
    (navLinks : list nav_link) :
  List.length (initActiveLinks currentPath navLinks) = List.length navLinks /\
  forall i link, navLinks !! i = Some link ->
    exists link',
      initActiveLinks currentPath navLinks !! i = Some link' /\
      pathname link' = pathname link /\
      (forall c, c <> "active" -> c ∈ link_classes link' <-> c ∈ link_classes link) /\
      ("active" ∈ link_classes link' <->
       currentPath = pathname link \/
       (currentPath <> "/" /\ pathname link <> "/" /\
        exists rest, currentPath = pathname link ++ rest)).
Proof.
  split; [apply length_map|].
  intros i link Hi. unfold initActiveLinks.
  rewrite list_lookup_fmap, Hi. eexists. split; [reflexivity|].
  cbn [pathname link_classes]. split; [reflexivity|]. split.
  - intros c Hc. destruct (paths_match _ _); clear -Hc; set_solver.
  - assert (Hm : paths_match currentPath (pathname link) = true <->
             currentPath = pathname link \/
             (currentPath <> "/" /\ pathname link <> "/" /\
              exists rest, currentPath = pathname link ++ rest)).
    { unfold paths_match. rewrite orb_true_iff, !andb_true_iff, !negb_true_iff,
        seq_eq, !seq_neq.
      split; intros [H|(H1 & H2)]; auto; right.
      - destruct H1. repeat split; auto. apply prefix_inv, H2.
      - destruct H2 as (H2 & rest & ->). repeat split; auto. apply prefix_app. }
    rewrite <- Hm. destruct (paths_match _ _).
    + split; [reflexivity|]. intros _. clear. set_solver.
    + split; [|discriminate]. clear. set_solver.
Qed.

End NavigationMore.


(* ===================================================================== *)
(** ** accessibility.js: what the submit listener checks                 *)
(* ===================================================================== *)

Section AccessibilityMore.
Import Form Accessibility AccessibilityEvents.

Variable number_lt_string : nat -> string -> bool.

Lemma check_field_labels field fm fm' :
  (check_field number_lt_string field fm).1 =
  (check_field number_lt_string field fm').1.
Proof.
  unfold check_field. cbv zeta.
  repeat match goal with
         | |- context [if ?c then _ else _] => destruct c
         | |- context [match ?c with Some _ => _ | None => _ end] => destruct c
         end; reflexivity.
Qed.

Lemma validateField_marked n fm field :
  inputs fm !! n = Some field ->
  (validateField number_lt_string n fm).1 = (check_field number_lt_string field fm).1 /\
  inputs (validateField number_lt_string n fm).2 =
    alter (marked (check_field number_lt_string field fm).1) n (inputs fm) /\
  formStatus (validateField number_lt_string n fm).2 = formStatus fm.
Proof.
  intros Hn. unfold validateField. rewrite Hn. cbv zeta.
  destruct (check_field number_lt_string field fm) as [isValid errorMessage].
  repeat split.
Qed.

Lemma validate_inputs_spec count : forall n isValid fm,
  n + count = List.length (inputs fm) ->
  (validate_inputs number_lt_string count n isValid fm).1 =
    isValid && forallb (fun f => (check_field number_lt_string f fm).1)
                 (drop n (inputs fm)) /\
  inputs (validate_inputs number_lt_string count n isValid fm).2 =
    (take n (inputs fm) ++
     map (fun f => marked (check_field number_lt_string f fm).1 f)
       (drop n (inputs fm)))%list /\
  formStatus (validate_inputs number_lt_string count n isValid fm).2 = formStatus fm.
Proof.
  induction count as [|count IH]; intros n isValid fm Hlen.
  - rewrite Nat.add_0_r in Hlen. subst n. cbn [validate_inputs fst snd].
    rewrite drop_all, take_ge by lia. cbn [forallb map].
    rewrite andb_true_r, app_nil_r. auto.
  - assert (Hlt : n < List.length (inputs fm)) by lia.
    destruct (lookup_lt_is_Some_2 _ _ Hlt) as [field Hn].
    cbn [validate_inputs].
    destruct (validateField_marked n fm field Hn) as (Hok & Hin & Hst).
    destruct (validateField number_lt_string n fm) as [ok fm1].
    cbn [fst snd] in Hok, Hin, Hst. subst ok.
    destruct (IH (S n) (if negb (check_field number_lt_string field fm).1
                        then false else isValid) fm1) as (A & B & C).
    { rewrite Hin, length_alter. lia. }
    rewrite A, B, C, Hst, Hin. clear A B C IH.
    rewrite drop_alter_lt by lia.
    assert (Hn' : alter (marked (check_field number_lt_string field fm).1) n
                    (inputs fm) !! n
                  = Some (marked (check_field number_lt_string field fm).1 field))
      by (rewrite list_lookup_alter_eq, Hn; reflexivity).
    rewrite (take_S_r _ _ _ Hn'), take_alter_ge by lia.
    rewrite (drop_S _ _ _ Hn). cbn [forallb map].
    assert (Heq : forall l,
              forallb (fun f => (check_field number_lt_string f fm1).1) l =
              forallb (fun f => (check_field number_lt_string f fm).1) l).
    { intros l. induction l as [|f l IHl]; simpl; [reflexivity|].
      rewrite IHl, (check_field_labels f fm1 fm). reflexivity. }
    assert (Heq' : forall l,
              map (fun f => marked (check_field number_lt_string f fm1).1 f) l =
              map (fun f => marked (check_field number_lt_string f fm).1 f) l).
    { intros l. induction l as [|f l IHl]; simpl; [reflexivity|].
      rewrite IHl, (check_field_labels f fm1 fm). reflexivity. }
    rewrite Heq, Heq', <- app_assoc. split; [|split; reflexivity].
    destruct ((check_field number_lt_string field fm).1), isValid; reflexivity.
Qed.

Lemma marked_facts ok field :
  attributes (marked ok field) !! "aria-invalid" = Some (if ok then "false" else "true") /\
  ("error" ∈ classList (marked ok field) <-> ok = false) /\
  value (marked ok field) = value field /\
  id (marked ok field) = id field.
Proof.
  unfold marked. cbn [attributes classList value id set_classList set_attributes].
  split; [apply lookup_insert_eq|]. split; [|split; reflexivity].
  destruct ok; cbn [negb]; split; try discriminate; try reflexivity.
  - clear. set_solver.
  - intros _. clear. set_solver.
Qed.

(** X21. The submit listener of accessibility.js validates every input,
    not only up to the first failure: each input gets [aria-invalid] and
    the class [error] by its own check and keeps its value, and the status
    says "success" exactly when every input passes, "error" otherwise. *)
Theorem accessibility_submit_checks_every_input (fm : Form.form) :
  let fm' := submit_listener number_lt_string fm in
  List.length (inputs fm') = List.length (inputs fm) /\
  (forall n field, inputs fm !! n = Some field ->
     exists field',
       inputs fm' !! n = Some field' /\
       attributes field' !! "aria-invalid" =
         Some (if (check_field number_lt_string field fm).1 then "false" else "true") /\
       ("error" ∈ classList field' <->
        (check_field number_lt_string field fm).1 = false) /\
       value field' = value field) /\
  (forall st, formStatus fm = Some st ->
     exists st',
       formStatus fm' = Some st' /\
       className st' =
         (if forallb (fun f => (check_field number_lt_string f fm).1) (inputs fm)
          then "form-status success show" else "form-status error show") /\
       status_text st' =
         (if forallb (fun f => (check_field number_lt_string f fm).1) (inputs fm)
          then "Message sent successfully!" else "Please correct the errors above.")).
Proof.
  cbv zeta. unfold submit_listener.
  destruct (validate_inputs_spec (List.length (inputs fm)) 0 true fm eq_refl)
    as (A & B & C).
  destruct (validate_inputs number_lt_string (List.length (inputs fm)) 0 true fm)
    as [isValid fm1].
  cbn [fst snd] in A, B, C. rewrite drop_0 in A, B. rewrite take_0 in B.
  cbn [app andb] in A, B.
  assert (Hin : forall ty msg, inputs (showFormStatus ty msg fm1) = inputs fm1)
    by reflexivity.
  split; [|split].
  - destruct isValid; rewrite Hin, B, length_map; reflexivity.
  - intros n field Hn. eexists. split.
    + destruct isValid; rewrite Hin, B, list_lookup_fmap, Hn; reflexivity.
    + destruct (marked_facts (check_field number_lt_string field fm).1 field)
        as (M1 & M2 & M3 & _). auto.
  - intros st Hst. rewrite <- A.
    destruct isValid; unfold showFormStatus; cbn [formStatus set_formStatus];
      rewrite C, Hst; eexists; split; reflexivity || (split; reflexivity).
Qed.







End AccessibilityMore.

(** *** The two validators of the contact form *)

Section ValidatorsAgree.
Import Form ContactFormChecks AccessibilityEvents.


Lemma contact_input_required i t v lengths :
  bool_decide (is_Some (attributes (Examples.contact_input i t v lengths) !! "required"))
  = true.
Proof.
  apply bool_decide_eq_true_2. unfold Examples.contact_input. cbn [attributes].
  rewrite list_to_map_cons. cbn [fst snd]. rewrite lookup_insert_eq. eauto.
Qed.

Lemma contact_input_minlength i t v m M :
  attributes (Examples.contact_input i t v [("minlength", m); ("maxlength", M)])
    !! "minlength" = Some m.
Proof.
  unfold Examples.contact_input. cbn [attributes].
  rewrite !list_to_map_cons. cbn [fst snd].
  rewrite lookup_insert_ne by discriminate. apply lookup_insert_eq.
Qed.

Lemma check_contact_min i t v m M (k : nat) fm :
  String.eqb t "email" = false ->
  all_chars (fun c => bool_decide (is_Some (digit_value 10 c))) m = true ->
  parse_digits 10 m None = Some (Z.of_nat k) -> 0 < k ->
  (Accessibility.check_field Accessibility.decimal_lt
     (Examples.contact_input i t v [("minlength", m); ("maxlength", M)]) fm).1 = true
  <-> k <= js_length (trim v).
Proof.
  intros Ht Hd Hm Hk. unfold Accessibility.check_field. cbv zeta.
  rewrite contact_input_required, contact_input_minlength.
  change (type (Examples.contact_input i t v [("minlength", m); ("maxlength", M)]))
    with t.
  change (value (Examples.contact_input i t v [("minlength", m); ("maxlength", M)]))
    with v.
  rewrite Ht. cbn [andb].
  destruct (falsy_string (trim v)) eqn:Hf; cbn [fst].
  - apply falsy_string_length in Hf. rewrite Hf. split; [discriminate|lia].
  - unfold Accessibility.decimal_lt. rewrite Hd, Hm.
    destruct (Z.ltb_spec (Z.of_nat (js_length (trim v))) (Z.of_nat k));
      cbn [fst]; split; try discriminate; try reflexivity; lia.
Qed.

Lemma check_contact_email i v fm :
  (Accessibility.check_field Accessibility.decimal_lt
     (Examples.contact_input i "email" v []) fm).1 = true
  <-> email_regex_test (trim v) = true.
Proof.
  unfold Accessibility.check_field. cbv zeta.
  rewrite contact_input_required.
  change (type (Examples.contact_input i "email" v [])) with "email".
  change (value (Examples.contact_input i "email" v [])) with v.
  cbn [andb String.eqb Ascii.eqb Bool.eqb].
  destruct (falsy_string (trim v)) eqn:Hf; cbn [fst negb].
  - apply String.eqb_eq in Hf. rewrite Hf. split; discriminate.
  - destruct (email_regex_test (trim v)); cbn [negb fst]; split; congruence.
Qed.

(** X23. On the contact form of the site, the two scripts that validate
    it on submit reach the same verdict whatever was typed: the validator
    of experience-calculator.js accepts the form exactly when the submit
    listener of accessibility.js finds every input valid. *)
Theorem validators_agree_on_the_contact_form (a b c d : string) :
  let fm := Examples.contact_form a b c d in
  (ContactFormValidator.validateForm fm).1 =
  (Accessibility.validate_inputs Accessibility.decimal_lt
     (List.length (inputs fm)) 0 true fm).1.
Proof.
  cbv zeta.
  destruct (validate_inputs_spec Accessibility.decimal_lt
              (List.length (inputs (Examples.contact_form a b c d))) 0 true
              (Examples.contact_form a b c d) eq_refl) as (-> & _).
  destruct (contact_form_present a b c d) as (H1 & H2 & H3 & H4).
  unfold ContactFormValidator.validateForm.
  rewrite validate_each_verdicts by apply fields_all_required.
  unfold ContactFormValidator.fields. rewrite drop_0.
  change (inputs (Examples.contact_form a b c d)) with
    [ Examples.contact_input "name" "text" a [("minlength", "2"); ("maxlength", "100")];
      Examples.contact_input "email" "email" b [];
      Examples.contact_input "subject" "text" c
        [("minlength", "5"); ("maxlength", "200")];
      Examples.contact_input "message" "textarea" d
        [("minlength", "10"); ("maxlength", "2000")] ].
  cbn [forallb andb].
  rewrite (present_verdict _ _ _ _ _ H1), (present_verdict _ _ _ _ _ H2),
    (present_verdict _ _ _ _ _ H3), (present_verdict _ _ _ _ _ H4).
  apply eq_true_iff_eq. rewrite !andb_true_iff.
  rewrite (field_passes_min 2), (field_passes_min 5), (field_passes_min 10),
    field_passes_email by lia.
  rewrite (check_contact_min _ _ _ _ _ 2), (check_contact_min _ _ _ _ _ 5),
    (check_contact_min _ _ _ _ _ 10), check_contact_email
    by (reflexivity || lia).
  tauto.
Qed.

End ValidatorsAgree.


(* ===================================================================== *)
(** ** The submit event: the two listeners together                      *)
(* ===================================================================== *)

Section SubmitEventProperties.
Import Form ContactFormValidator AccessibilityEvents SubmitEvent.

Variable number_lt_string : nat -> string -> bool.

(** *** experience-calculator.js leaves the labels alone *)

Lemma clearFieldError_labels n fm : labels (clearFieldError n fm) = labels fm.
Proof. unfold clearFieldError. destruct (inputs fm !! n); reflexivity. Qed.

Lemma validateField_labels input r fm :
  labels (validateField input r fm).2 = labels fm.
Proof.
  unfold validateField.
  destruct (input ≫= (fun n => (fun i => (n, i)) <$> inputs fm !! n))
    as [[n i]|]; [|reflexivity].
  cbv zeta. destruct (errors fm !! (id i ++ "-error")); [|reflexivity].
  repeat match goal with
         | |- context [if ?c then _ else _] => destruct c
         end; cbn [snd]; unfold showFieldError, update_input;
    cbn [labels set_errors set_inputs]; apply clearFieldError_labels.
Qed.

Lemma validate_each_labels fs : forall isValid fm,
  labels (validate_each fs isValid fm).2 = labels fm.
Proof.
  induction fs as [|f fs IH]; intros isValid fm; cbn [validate_each];
    [reflexivity|].
  pose proof (validateField_labels (querySelector_id f.1 fm) (Some f.2) fm) as H.
  destruct (validateField (querySelector_id f.1 fm) (Some f.2) fm) as [ok fm1].
  cbn [snd] in H. rewrite IH. exact H.
Qed.

(** *** accessibility.js: what one validation and the loop leave alone *)

Lemma check_field_same field field' fm fm' :
  without_classes field' = without_classes field ->
  labels fm' = labels fm ->
  Accessibility.check_field number_lt_string field' fm' =
  Accessibility.check_field number_lt_string field fm.
Proof.
  intros Hw Hl. unfold without_classes, set_classList in Hw.
  injection Hw as H1 H2 H3 H4 H5 H6.
  unfold Accessibility.check_field, Accessibility.getFieldLabel.
  rewrite H1, H2, H3, H4, H6, Hl. reflexivity.
Qed.

Lemma check_field_required field fm :
  is_Some (attributes field !! "required") ->
  trim (value field) = "" ->
  Accessibility.check_field number_lt_string field fm =
  (false, Accessibility.getFieldLabel field fm ++ " is required.").
Proof.
  intros Hreq Hval. unfold Accessibility.check_field. cbv zeta.
  rewrite Hval, bool_decide_eq_true_2 by exact Hreq. reflexivity.
Qed.

Lemma marked_described ok field :
  described_by (marked ok field) = described_by field.
Proof.
  unfold described_by, marked. cbn [attributes set_classList set_attributes].
  rewrite lookup_insert_ne by discriminate. reflexivity.
Qed.

(** What accessibility.js leaves in the error element of a field that
    has the [required] attribute and an empty trimmed value. *)
Lemma validateField_rest n fm :
  submitButton (Accessibility.validateField number_lt_string n fm).2 =
    submitButton fm /\
  labels (Accessibility.validateField number_lt_string n fm).2 = labels fm /\
  (forall k,
     is_Some (errors (Accessibility.validateField number_lt_string n fm).2 !! k)
     <-> is_Some (errors fm !! k)) /\
  (forall k,
     (forall f, inputs fm !! n = Some f -> described_by f <> k) ->
     errors (Accessibility.validateField number_lt_string n fm).2 !! k =
     errors fm !! k) /\
  (forall f,
     inputs fm !! n = Some f ->
     is_Some (attributes f !! "required") -> trim (value f) = "" ->
     errors (Accessibility.validateField number_lt_string n fm).2
       !! described_by f =
     (fun _ => ErrorElement
                 (Accessibility.getFieldLabel f fm ++ " is required.")
                 ({[ if String.eqb (type f) "email" then "email-error"
                     else "required-error" ]}
                  ∪ ({["show"]} ∪ {["error-message"]})))
     <$> errors fm !! described_by f).
Proof.
  unfold Accessibility.validateField.
  destruct (inputs fm !! n) as [field|] eqn:Hn.
  2:{ cbn [snd]. repeat split; auto. intros f Hf. discriminate. }
  cbv zeta.
  destruct (Accessibility.check_field number_lt_string field fm)
    as [isValid errorMessage] eqn:Hc.
  cbn [snd]. unfold update_input. cbn [submitButton labels errors set_errors set_inputs].
  fold (described_by field).
  split; [reflexivity|]. split; [reflexivity|]. split; [|split].
  - intros k. destruct (decide (described_by field = k)) as [<-|Hne].
    + rewrite lookup_alter_eq. rewrite fmap_is_Some. reflexivity.
    + rewrite lookup_alter_ne by exact Hne. reflexivity.
  - intros k Hk. apply lookup_alter_ne. apply Hk. reflexivity.
  - intros f Hf Hreq Hval. injection Hf as <-.
    rewrite (check_field_required field fm Hreq Hval) in Hc.
    injection Hc as <- <-.
    rewrite lookup_alter_eq, Hval.
    rewrite bool_decide_eq_true_2 by exact Hreq. reflexivity.
Qed.

Lemma getFieldLabel_labels field fm fm' :
  labels fm' = labels fm ->
  Accessibility.getFieldLabel field fm' = Accessibility.getFieldLabel field fm.
Proof. intros H. unfold Accessibility.getFieldLabel. rewrite H. reflexivity. Qed.

Lemma validateField_inputs n fm :
  List.length (inputs (Accessibility.validateField number_lt_string n fm).2) =
    List.length (inputs fm) /\
  forall j, j <> n ->
    inputs (Accessibility.validateField number_lt_string n fm).2 !! j =
    inputs fm !! j.
Proof.
  destruct (inputs fm !! n) as [field|] eqn:Hn.
  - destruct (validateField_marked number_lt_string n fm field Hn)
      as (_ & -> & _).
    split; [apply length_alter|].
    intros j Hj. apply list_lookup_alter_ne. congruence.
  - unfold Accessibility.validateField. rewrite Hn. auto.
Qed.

Lemma validate_inputs_rest count : forall n isValid fm,
  submitButton (Accessibility.validate_inputs number_lt_string count n isValid fm).2
    = submitButton fm /\
  labels (Accessibility.validate_inputs number_lt_string count n isValid fm).2
    = labels fm /\
  (forall k,
     is_Some (errors (Accessibility.validate_inputs number_lt_string
                        count n isValid fm).2 !! k)
     <-> is_Some (errors fm !! k)) /\
  (forall k,
     (forall j f, n <= j -> inputs fm !! j = Some f -> described_by f <> k) ->
     errors (Accessibility.validate_inputs number_lt_string count n isValid fm).2
       !! k = errors fm !! k).
Proof.
  induction count as [|count IH]; intros n isValid fm.
  - cbn [Accessibility.validate_inputs snd]. repeat split; auto.
  - cbn [Accessibility.validate_inputs].
    destruct (validateField_rest n fm) as (A & B & C & D & _).
    destruct (validateField_inputs n fm) as [_ Hin].
    destruct (Accessibility.validateField number_lt_string n fm) as [ok fm1].
    cbn [snd] in A, B, C, D, Hin.
    destruct (IH (S n) (if negb ok then false else isValid) fm1)
      as (A' & B' & C' & D').
    split; [congruence|]. split; [congruence|]. split.
    + intros k. rewrite C', C. reflexivity.
    + intros k Hk. rewrite D'.
      * apply D. intros f Hf. apply (Hk n f); [lia|exact Hf].
      * intros j f Hj Hf. rewrite Hin in Hf by lia. apply (Hk j f); [lia|exact Hf].
Qed.

Lemma validate_inputs_describes count : forall n isValid fm m f k,
  n + count = List.length (inputs fm) ->
  n <= m -> inputs fm !! m = Some f ->
  is_Some (attributes f !! "required") -> trim (value f) = "" ->
  described_by f = k ->
  (forall j f', n <= j -> j <> m -> inputs fm !! j = Some f' ->
     described_by f' <> k) ->
  errors (Accessibility.validate_inputs number_lt_string count n isValid fm).2
    !! k =
  (fun _ => ErrorElement
              (Accessibility.getFieldLabel f fm ++ " is required.")
              ({[ if String.eqb (type f) "email" then "email-error"
                  else "required-error" ]}
               ∪ ({["show"]} ∪ {["error-message"]})))
  <$> errors fm !! k.
Proof.
  induction count as [|count IH]; intros n isValid fm m f k Hlen Hm Hf Hreq Hval Hk Hothers.
  - apply lookup_lt_Some in Hf. lia.
  - cbn [Accessibility.validate_inputs].
    destruct (validateField_rest n fm) as (_ & B & _ & D & E).
    destruct (validateField_inputs n fm) as [Hlen1 Hin].
    destruct (Accessibility.validateField number_lt_string n fm) as [ok fm1].
    cbn [snd] in B, D, E, Hlen1, Hin.
    destruct (decide (n = m)) as [->|Hne].
    + destruct (validate_inputs_rest count (S m)
                  (if negb ok then false else isValid) fm1) as (_ & _ & _ & D').
      rewrite D'.
      * subst k. apply (E f Hf Hreq Hval).
      * intros j f' Hj Hf'. rewrite Hin in Hf' by lia.
        apply (Hothers j f'); [lia|lia|exact Hf'].
    + rewrite (IH (S n) (if negb ok then false else isValid) fm1 m f k);
        try assumption; try lia.
      * rewrite (getFieldLabel_labels f fm fm1 B).
        rewrite D; [reflexivity|].
        intros f0 Hf0. apply (Hothers n f0); [lia|exact Hne|exact Hf0].
      * rewrite Hin by lia. exact Hf.
      * intros j f' Hj Hjm Hf'. rewrite Hin in Hf' by lia.
        apply (Hothers j f'); [lia|exact Hjm|exact Hf'].
Qed.

(** The [submit] listener of accessibility.js on a form with a field that
    has the [required] attribute and an empty trimmed value. *)
Lemma submit_listener_blocks fm n input :
  inputs fm !! n = Some input ->
  is_Some (attributes input !! "required") -> trim (value input) = "" ->
  inputs (Accessibility.submit_listener number_lt_string fm) =
    map (fun f => marked (Accessibility.check_field number_lt_string f fm).1 f)
      (inputs fm) /\
  inputs (Accessibility.submit_listener number_lt_string fm) !! n =
    Some (marked false input) /\
  formStatus (Accessibility.submit_listener number_lt_string fm) =
    (fun st => StatusElement "Please correct the errors above."
                 "form-status error show"
                 (<["aria-live" := "polite"]> (status_attributes st)))
    <$> formStatus fm /\
  submitButton (Accessibility.submit_listener number_lt_string fm) =
    submitButton fm /\
  labels (Accessibility.submit_listener number_lt_string fm) = labels fm /\
  (forall k,
     is_Some (errors (Accessibility.submit_listener number_lt_string fm) !! k)
     <-> is_Some (errors fm !! k)) /\
  (forall k,
     (forall j f, inputs fm !! j = Some f -> described_by f <> k) ->
     errors (Accessibility.submit_listener number_lt_string fm) !! k =
     errors fm !! k) /\
  (forall k,
     described_by input = k ->
     (forall j f, j <> n -> inputs fm !! j = Some f -> described_by f <> k) ->
     errors (Accessibility.submit_listener number_lt_string fm) !! k =
     (fun _ => ErrorElement
                 (Accessibility.getFieldLabel input fm ++ " is required.")
                 ({[ if String.eqb (type input) "email" then "email-error"
                     else "required-error" ]}
                  ∪ ({["show"]} ∪ {["error-message"]})))
     <$> errors fm !! k).
Proof.
  intros Hn Hreq Hval.
  pose proof (check_field_required input fm Hreq Hval) as Hc.
  destruct (validate_inputs_spec number_lt_string (List.length (inputs fm)) 0
              true fm eq_refl) as (Hok & Hin & Hst).
  destruct (validate_inputs_rest (List.length (inputs fm)) 0 true fm)
    as (Hbtn & Hlab & Hdom & Hsame).
  pose proof (validate_inputs_describes (List.length (inputs fm)) 0 true fm
                n input) as Hdesc.
  rewrite drop_0 in Hok, Hin. rewrite take_0 in Hin. cbn [app andb] in Hok, Hin.
  assert (Hfalse :
    forallb (fun f => (Accessibility.check_field number_lt_string f fm).1)
      (inputs fm) = false).
  { apply not_true_is_false. intros Hall.
    rewrite forallb_forall in Hall.
    specialize (Hall input ltac:(apply list_elem_of_In, list_elem_of_lookup; eauto)).
    rewrite Hc in Hall. discriminate. }
  rewrite Hfalse in Hok.
  unfold Accessibility.submit_listener.
  destruct (Accessibility.validate_inputs number_lt_string
              (List.length (inputs fm)) 0 true fm) as [isValid fm1].
  cbn [fst snd] in *. subst isValid.
  unfold Accessibility.showFormStatus, set_formStatus.
  cbn [inputs formStatus submitButton labels errors].
  split; [exact Hin|]. split.
  { rewrite Hin, list_lookup_fmap, Hn. cbn. rewrite Hc. reflexivity. }
  split; [rewrite Hst; reflexivity|].
  split; [exact Hbtn|]. split; [exact Hlab|]. split; [exact Hdom|]. split.
  - intros k Hk. apply Hsame. intros j f _. apply Hk.
  - intros k Hk Hothers. apply Hdesc; try assumption; try lia.
    intros j f' _. apply Hothers.
Qed.

(** *** The two orders *)

Lemma querySelector_id_map (g : Form.input -> Form.input) i fm fm' :
  inputs fm' = map g (inputs fm) -> (forall f, id (g f) = id f) ->
  querySelector_id i fm' = querySelector_id i fm.
Proof.
  intros Hin Hid. unfold querySelector_id. rewrite Hin. clear Hin.
  induction (inputs fm) as [|x l IH]; [reflexivity|].
  cbn [map list_find]. rewrite Hid.
  destruct (decide (id x = i)); [reflexivity|].
  rewrite <- !option_fmap_compose.
  destruct (list_find (fun x => id x = i) (map g l)) as [[a b]|],
           (list_find (fun x => id x = i) l) as [[a' b']|];
    cbn in *; congruence.
Qed.

Lemma handleSubmit_then_invalid later env v :
  isSubmitting v = false -> (validateForm (form v)).1 = false ->
  handleSubmit_then later env v = on_form later (handleSubmit env v).
Proof.
  intros Hsub Hv. unfold handleSubmit_then, handleSubmit. rewrite Hsub.
  destruct (validateForm (form v)) as [ok fm]. cbn [fst] in Hv. subst ok.
  reflexivity.
Qed.

Lemma same_controls_field fm fm' j f' :
  same_controls fm fm' -> inputs fm' !! j = Some f' ->
  exists f, inputs fm !! j = Some f /\ without_classes f' = without_classes f.
Proof.
  intros (B & _) Hj. specialize (B j). rewrite Hj in B.
  destruct (inputs fm !! j) as [f|]; [|discriminate].
  exists f. split; [reflexivity|]. cbn in B. congruence.
Qed.

Lemma without_classes_fields f f' :
  without_classes f' = without_classes f ->
  id f' = id f /\ name f' = name f /\ type f' = type f /\
  value f' = value f /\ attributes f' = attributes f.
Proof.
  unfold without_classes, set_classList. intros H.
  injection H as H1 H2 H3 H4 H5 H6. auto.
Qed.

(** The listener of accessibility.js first, [handleSubmit] second. *)
Lemma accessibility_then_validator env v i0 r n input :
  isSubmitting v = false ->
  (i0, r) ∈ fields ->
  querySelector_id i0 (form v) = Some n ->
  inputs (form v) !! n = Some input ->
  is_Some (attributes input !! "required") ->
  trim (value input) = "" ->
  is_Some (errors (form v) !! (i0 ++ "-error")) ->
  let v' := submit_event true number_lt_string env v in
  let fm := Accessibility.submit_listener number_lt_string (form v) in
  (validateField (Some n) (Some r) fm).1 = false /\
  (validateForm fm).1 = false /\
  effects v' = effects v /\
  isSubmitting v' = false /\
  submitButton (form v') = submitButton (form v) /\
  formStatus (form v') =
    (fun st => StatusElement "Please fix the validation errors above."
                 "form-status show error"
                 (<["aria-live" := "polite"]> (status_attributes st)))
    <$> formStatus (form v) /\
  (exists input',
     inputs (form v') !! n = Some input' /\
     ("error" ∈ classList input') /\ ("valid" ∉ classList input') /\
     attributes input' !! "aria-invalid" = Some "true" /\
     value input' = value input) /\
  (exists e, errors (form v') !! (i0 ++ "-error") = Some e /\
     textContent e = capitalize (fieldName input) ++ " is required" /\
     ("show" ∈ classes e) /\ ("required-error" ∈ classes e)).
Proof.
  intros Hsub Hin Hq Hn Hreq Hval Herr. cbv zeta. unfold submit_event.
  destruct (submit_listener_blocks (form v) n input Hn Hreq Hval)
    as (Hmap & Hn' & Hst' & Hbtn' & _ & Hdom' & _).
  set (vb := on_form (Accessibility.submit_listener number_lt_string) v).
  change (form vb) with (Accessibility.submit_listener number_lt_string (form v))
    in *.
  assert (Hq' : querySelector_id i0 (form vb) = Some n).
  { rewrite <- Hq. eapply querySelector_id_map; [exact Hmap|].
    intros f. apply marked_facts. }
  destruct (handleSubmit_blocks env vb i0 r n (marked false input))
    as (Hfield & Hform & Heq & Heff & Hsubm & Hbtn & Hst & Hmark & Hsame);
    [exact Hsub|exact Hin|exact Hq'|exact Hn'|exact Hval|apply Hdom', Herr|].
  split; [exact Hfield|]. split; [exact Hform|].
  split; [exact Heff|]. split; [exact Hsubm|].
  split; [rewrite Hbtn; exact Hbtn'|]. split.
  { rewrite Hst. change (form vb)
      with (Accessibility.submit_listener number_lt_string (form v)).
    rewrite Hst'. destruct (formStatus (form v)); reflexivity. }
  destruct Hmark as [(input' & Hi' & He' & Hv') Hmsg]. split; [|exact Hmsg].
  exists input'. split; [exact Hi'|]. split; [exact He'|]. split; [exact Hv'|].
  assert (Hi'' : inputs (validateForm (form vb)).2 !! n = Some input').
  { rewrite Heq in Hi'. exact Hi'. }
  destruct (same_controls_field _ _ n input' Hsame Hi'') as (f & Hf & Hw).
  change (form vb) with (Accessibility.submit_listener number_lt_string (form v))
    in Hf.
  rewrite Hn' in Hf. injection Hf as <-.
  destruct (without_classes_fields _ _ Hw) as (_ & _ & _ & Hval' & Hattr').
  rewrite Hattr', Hval'.
  destruct (marked_facts false input) as (M1 & _ & M3 & _). auto.
Qed.

(** [handleSubmit] first, the listener of accessibility.js second. *)
Lemma validator_then_accessibility env v i0 r n input :
  isSubmitting v = false ->
  (i0, r) ∈ fields ->
  querySelector_id i0 (form v) = Some n ->
  inputs (form v) !! n = Some input ->
  is_Some (attributes input !! "required") ->
  trim (value input) = "" ->
  is_Some (errors (form v) !! (i0 ++ "-error")) ->
  let v' := submit_event false number_lt_string env v in
  (Accessibility.validateField number_lt_string n (form (handleSubmit env v))).1
    = false /\
  effects v' = effects v /\
  isSubmitting v' = false /\
  submitButton (form v') = submitButton (form v) /\
  formStatus (form v') =
    (fun st => StatusElement "Please correct the errors above."
                 "form-status error show"
                 (<["aria-live" := "polite"]> (status_attributes st)))
    <$> formStatus (form v) /\
  (exists input',
     inputs (form v') !! n = Some input' /\
     ("error" ∈ classList input') /\ ("valid" ∉ classList input') /\
     attributes input' !! "aria-invalid" = Some "true" /\
     value input' = value input) /\
  ((forall j f, inputs (form v) !! j = Some f ->
      described_by f <> i0 ++ "-error") ->
   exists e, errors (form v') !! (i0 ++ "-error") = Some e /\
     textContent e = capitalize (fieldName input) ++ " is required" /\
     ("show" ∈ classes e) /\ ("required-error" ∈ classes e)) /\
  (described_by input = i0 ++ "-error" ->
   (forall j f, j <> n -> inputs (form v) !! j = Some f ->
      described_by f <> i0 ++ "-error") ->
   exists e, errors (form v') !! (i0 ++ "-error") = Some e /\
     textContent e =
       Accessibility.getFieldLabel input (form v) ++ " is required." /\
     ("show" ∈ classes e) /\
     ((if String.eqb (type input) "email" then "email-error"
       else "required-error") ∈ classes e)).
Proof.
  intros Hsub Hin Hq Hn Hreq Hval Herr. cbv zeta. unfold submit_event.
  destruct (handleSubmit_blocks env v i0 r n input Hsub Hin Hq Hn Hval Herr)
    as (_ & Hfail & Heq & Heff & Hsubm & Hbtn & Hst & Hmark & Hsame).
  rewrite (handleSubmit_then_invalid _ env v Hsub Hfail).
  remember (handleSubmit env v) as va eqn:Hva in *. clear Hva.
  destruct Hmark as [(input1 & Hn1 & He1 & Hv1) (e & Hek & Het & Hes & Her)].
  assert (Hinputs : inputs (form va) = inputs (validateForm (form v)).2).
  { rewrite Heq. reflexivity. }
  assert (Hlabels : labels (form va) = labels (form v)).
  { rewrite Heq. cbn [on_form form]. unfold showFormStatus, set_formStatus.
    cbn [labels]. apply validate_each_labels. }
  assert (Hfield : forall j f', inputs (form va) !! j = Some f' ->
            exists f, inputs (form v) !! j = Some f /\
                      without_classes f' = without_classes f).
  { intros j f' Hj. rewrite Hinputs in Hj.
    apply (same_controls_field _ _ j f' Hsame Hj). }
  destruct (Hfield n input1 Hn1) as (f & Hf & Hw).
  rewrite Hn in Hf. injection Hf as <-.
  destruct (without_classes_fields _ _ Hw) as (Hid1 & Hname1 & Htype1 & Hval1 & Hattr1).
  assert (Hdesc : forall j f', inputs (form va) !! j = Some f' ->
            exists f, inputs (form v) !! j = Some f /\
                      described_by f' = described_by f).
  { intros j f' Hj. destruct (Hfield j f' Hj) as (f & Hf & Hwf).
    exists f. split; [exact Hf|].
    destruct (without_classes_fields _ _ Hwf) as (_ & _ & _ & _ & Ha).
    unfold described_by. rewrite Ha. reflexivity. }
  destruct (submit_listener_blocks (form va) n input1 Hn1)
    as (_ & Hn' & Hst' & Hbtn' & _ & _ & Hkeep & Hset).
  { rewrite Hattr1. exact Hreq. }
  { rewrite Hval1. exact Hval. }
  cbn [on_form effects isSubmitting form].
  split.
  { apply (accessibility_marks_required _ n input1); [exact Hn1| |].
    - rewrite Hattr1. exact Hreq.
    - rewrite Hval1. exact Hval. }
  split; [exact Heff|]. split; [exact Hsubm|].
  split; [rewrite Hbtn'; exact Hbtn|]. split.
  { rewrite Hst', Hst. destruct (formStatus (form v)); reflexivity. }
  split; [|split].
  - exists (marked false input1). split; [exact Hn'|].
    destruct (marked_facts false input1) as (M1 & M2 & M3 & _).
    split; [apply M2; reflexivity|]. split.
    + unfold marked. cbn [classList set_classList set_attributes negb].
      rewrite elem_of_union, elem_of_singleton.
      intros [H|H]; [discriminate|contradiction].
    + split; [exact M1|]. rewrite M3. exact Hval1.
  - intros Hnone. exists e. rewrite Hkeep; [auto|].
    intros j f' Hj. destruct (Hdesc j f' Hj) as (f & Hf & ->).
    apply (Hnone j f Hf).
  - intros Hself Hothers.
    rewrite (Hset (i0 ++ "-error")).
    + rewrite Hek. cbn [fmap option_fmap option_map].
      eexists. split; [reflexivity|]. cbn [textContent classes].
      split.
      { unfold Accessibility.getFieldLabel. rewrite Hlabels, Hid1, Hname1.
        reflexivity. }
      rewrite Htype1. split; clear; set_solver.
    + unfold described_by. rewrite Hattr1. exact Hself.
    + intros j f' Hjn Hj. destruct (Hdesc j f' Hj) as (f & Hf & ->).
      apply (Hothers j f Hjn Hf).
Qed.

(** With a listener that does nothing, [handleSubmit_then] is
    [handleSubmit]. *)
Lemma handleSubmit_then_alone env v :
  handleSubmit_then (fun fm => fm) env v = handleSubmit env v.
Proof.
  destruct v as [fm sub eff]. unfold handleSubmit_then, handleSubmit.
  cbn [isSubmitting form]. destruct sub; [reflexivity|].
  destruct (validateForm fm) as [ok fm1]. destruct ok; [|reflexivity].
  unfold submitForm_then, submitForm, bind, modify, gets, try_catch.
  cbn [on_form form isSubmitting effects set_isSubmitting].
  destruct (submitButton fm1) as [button|]; [|reflexivity].
  cbn [on_form form isSubmitting effects set_isSubmitting].
  reflexivity.
Qed.

(** C7 (amended).  A [submit] event on the contact form runs the
    listeners of both scripts, in the order in which they were registered.
    When no submission is in progress and one of the fields the validator
    checks (name, email, subject, message) is present with its error
    element, carries the [required] attribute and has a value that is
    empty once trimmed of JavaScript's white space, then in either order:
    validation fails for the field in both scripts, each on the form as
    the listener before it has left it; the submission is blocked (nothing
    is sent, no link is opened, the button and the submitting flag are
    untouched) and the status element shows the error message of the
    listener that ran last; the field ends with the class [error], without
    the class [valid], with [aria-invalid] "true" and with its value.  Its error element shows '<Field> is required' with
    the classes [show] and [required-error] when [handleSubmit] runs last
    or no input names that element in [aria-describedby] (accessibility.js
    writes its messages to the element an input names there); when
    [handleSubmit] runs first and the field alone names the element, it
    shows '<label> is required.' as accessibility.js words it. *)
Theorem empty_required_field_blocks_submission
    (accessibility_first : bool) (env : browser) (v : validator)
    (i0 : string) (r : rules) (n : nat) (input : Form.input) :
  isSubmitting v = false ->
  (i0, r) ∈ fields ->
  querySelector_id i0 (form v) = Some n ->
  inputs (form v) !! n = Some input ->
  is_Some (attributes input !! "required") ->
  trim (value input) = "" ->
  is_Some (errors (form v) !! (i0 ++ "-error")) ->
  let v' := submit_event accessibility_first number_lt_string env v in
  let before_handleSubmit :=
    if accessibility_first
    then Accessibility.submit_listener number_lt_string (form v)
    else form v in
  let before_accessibility :=
    if accessibility_first then form v else form (handleSubmit env v) in
  (validateField (Some n) (Some r) before_handleSubmit).1 = false /\
  (validateForm before_handleSubmit).1 = false /\
  (Accessibility.validateField number_lt_string n before_accessibility).1
    = false /\
  effects v' = effects v /\
  isSubmitting v' = false /\
  submitButton (form v') = submitButton (form v) /\
  formStatus (form v') =
    (fun st =>
       if accessibility_first
       then StatusElement "Please fix the validation errors above."
              "form-status show error"
              (<["aria-live" := "polite"]> (status_attributes st))
       else StatusElement "Please correct the errors above."
              "form-status error show"
              (<["aria-live" := "polite"]> (status_attributes st)))
    <$> formStatus (form v) /\
  (exists input',
     inputs (form v') !! n = Some input' /\
     ("error" ∈ classList input') /\ ("valid" ∉ classList input') /\
     attributes input' !! "aria-invalid" = Some "true" /\
     value input' = value input) /\
  (accessibility_first = true \/
   (forall j f, inputs (form v) !! j = Some f ->
      described_by f <> i0 ++ "-error") ->
   exists e, errors (form v') !! (i0 ++ "-error") = Some e /\
     textContent e = capitalize (fieldName input) ++ " is required" /\
     ("show" ∈ classes e) /\ ("required-error" ∈ classes e)) /\
  (accessibility_first = false ->
   described_by input = i0 ++ "-error" ->
   (forall j f, j <> n -> inputs (form v) !! j = Some f ->
      described_by f <> i0 ++ "-error") ->
   exists e, errors (form v') !! (i0 ++ "-error") = Some e /\
     textContent e =
       Accessibility.getFieldLabel input (form v) ++ " is required." /\
     ("show" ∈ classes e) /\
     ((if String.eqb (type input) "email" then "email-error"
       else "required-error") ∈ classes e)).
Proof.
  intros Hsub Hin Hq Hn Hreq Hval Herr. cbv zeta.
  destruct accessibility_first.
  - destruct (accessibility_then_validator env v i0 r n input
                Hsub Hin Hq Hn Hreq Hval Herr)
      as (Hfield & Hform & A & B & C & D & E & F).
    split; [exact Hfield|]. split; [exact Hform|].
    split; [apply (accessibility_marks_required _ n input); assumption|].
    split; [exact A|]. split; [exact B|]. split; [exact C|].
    split; [exact D|]. split; [exact E|]. split.
    + intros _. exact F.
    + discriminate.
  - destruct (handleSubmit_blocks env v i0 r n input Hsub Hin Hq Hn Hval Herr)
      as (Hfield & Hform & _).
    destruct (validator_then_accessibility env v i0 r n input
                Hsub Hin Hq Hn Hreq Hval Herr)
      as (Hacc & A & B & C & D & E & F & G).
    split; [exact Hfield|]. split; [exact Hform|]. split; [exact Hacc|].
    split; [exact A|]. split; [exact B|]. split; [exact C|].
    split; [exact D|]. split; [exact E|]. split.
    + intros [H|H]; [discriminate|exact (F H)].
    + intros _. exact G.
Qed.

End SubmitEventProperties.

Section SubmitEventOnTheSite.
Import Form ContactFormValidator SubmitEvent.

(** C7, as stated, fails where the code guards.  On a form that lacks the
    error element of a field, here [#name-error], with the name field
    empty (only spaces): [validateField] of the validator passes the
    field, and in either order of the listeners the submission is sent and
    the form ends without an error status.  And while a submission is in
    progress, [handleSubmit] returns at once: in either order the error
    element of the empty field shows no message. *)
Lemma empty_required_field_is_submitted :
  let incomplete := Examples.fresh
             (Examples.contact_form_without_name_error "   " "ada@example.org"
                "Hello there" "A message long enough") in
  let complete := Examples.contact_form "   " "ada@example.org"
                    "Hello there" "A message long enough" in
  let busy := Validator complete true [] in
  let event := fun first v =>
    submit_event first Accessibility.decimal_lt Examples.offline v in
  (exists input, inputs (form incomplete) !! 0 = Some input /\ id input = "name" /\
     is_Some (attributes input !! "required") /\ trim (value input) = "") /\
  isSubmitting incomplete = false /\
  (validateField (Some 0) (Some (Rules true None (Some 2%Z) None))
     (form incomplete)).1 = true /\
  fetched (effects (event true incomplete)) =
    [formspree_endpoint; "https://example.org/contact/"] /\
  fetched (effects (event false incomplete)) =
    [formspree_endpoint; "https://example.org/contact/"] /\
  status_text <$> formStatus (form (event true incomplete)) = Some "" /\
  status_text <$> formStatus (form (event false incomplete)) = Some "" /\
  (exists input, inputs complete !! 0 = Some input /\ id input = "name" /\
     is_Some (attributes input !! "required") /\ trim (value input) = "") /\
  is_Some (errors complete !! "name-error") /\
  textContent <$> errors (form (event true busy)) !! "name-error" = Some "" /\
  textContent <$> errors (form (event false busy)) !! "name-error" = Some "".
Proof.
  cbv zeta. split.
  { eexists. split; [reflexivity|]. split; [reflexivity|].
    split; [|reflexivity]. eexists. vm_compute. reflexivity. }
  split; [reflexivity|].
  split; [vm_compute; reflexivity|].
  split; [vm_compute; reflexivity|].
  split; [vm_compute; reflexivity|].
  split; [vm_compute; reflexivity|].
  split; [vm_compute; reflexivity|].
  split.
  { eexists. split; [reflexivity|]. split; [reflexivity|].
    split; [|reflexivity]. eexists. vm_compute. reflexivity. }
  split; [eexists; vm_compute; reflexivity|].
  split; vm_compute; reflexivity.
Qed.

(** The amended C7 on the contact form of the site with an empty name
    field, when [handleSubmit] runs first. *)
Lemma empty_required_field_blocks_submission_witness :
  let v := Examples.fresh
             (Examples.contact_form "   " "ada@example.org" "Hello there"
                "A message long enough") in
  let v' := submit_event false Accessibility.decimal_lt Examples.offline v in
  effects v' = [] /\
  (exists input',
     inputs (form v') !! 0 = Some input' /\
     ("error" ∈ classList input') /\
     attributes input' !! "aria-invalid" = Some "true") /\
  (exists e, errors (form v') !! "name-error" = Some e /\
     textContent e = "Name is required").
Proof.
  cbv zeta.
  destruct (empty_required_field_blocks_submission Accessibility.decimal_lt
              false Examples.offline
              (Examples.fresh
                 (Examples.contact_form "   " "ada@example.org" "Hello there"
                    "A message long enough"))
              "name" (Rules true None (Some 2%Z) None) 0
              (Examples.contact_input "name" "text" "   "
                 [("minlength", "2"); ("maxlength", "100")]))
    as (_ & _ & _ & He & _ & _ & _ & Hi & Hm & _).
  - reflexivity.
  - unfold fields. apply list_elem_of_here.
  - vm_compute. reflexivity.
  - reflexivity.
  - eexists. vm_compute. reflexivity.
  - reflexivity.
  - eexists. vm_compute. reflexivity.
  - split; [exact He|]. split.
    + destruct Hi as (input' & H1 & H2 & _ & H3 & _). eauto.
    + destruct Hm as (e & H1 & H2 & _).
      * right. intros j f Hj.
        do 4 (destruct j as [|j]; [injection Hj as <-; vm_compute; discriminate|]).
        discriminate.
      * eauto.
Defined.

End SubmitEventOnTheSite.


(* ===================================================================== *)
(** ** The typing animation: what is shown, and when it ends             *)
(* ===================================================================== *)

Section TypingAnimationProperties.
Import TypingAnimation.

Lemma substring_full (s : js_string) : substring_to (List.length s) s = s.
Proof. apply firstn_all. Qed.

Lemma substring_0_0 (s : js_string) : substring_to 0 s = [].
Proof. reflexivity. Qed.

Lemma string_length_0 (s : js_string) : List.length s = 0 -> s = [].
Proof. destruct s; [reflexivity|discriminate]. Qed.

(** *** What the element shows *)

Lemma shows_prefix_type a : shows_prefix a -> shows_prefix (type a).
Proof.
  intros [Hle Hshow]. unfold type, shows_prefix.
  destruct (isDeleting a).
  - destruct (Nat.ltb_spec 0 (currentIndex a)); cbv zeta;
      cbn [currentIndex text textContent setTimeout set_timers set_textContent
           set_currentIndex set_isDeleting].
    + split; [lia|left; reflexivity].
    + split; assumption.
  - destruct (Nat.ltb_spec (currentIndex a) (List.length (text a))); cbv zeta.
    + cbn [currentIndex text textContent setTimeout set_timers set_textContent
           set_currentIndex].
      split; [lia|left; reflexivity].
    + cbn [loop set_isComplete cursorElement].
      destruct (loop a); [|destruct (cursorElement a)]; split; assumption.
Qed.

Lemma shows_prefix_same a a' :
  text a' = text a -> currentIndex a' = currentIndex a ->
  textContent a' = textContent a -> shows_prefix a -> shows_prefix a'.
Proof. unfold shows_prefix. intros -> -> ->. auto. Qed.

Lemma shows_prefix_run_task t a : shows_prefix a -> shows_prefix (run_task t a).
Proof.
  intros Ha. destruct t as [[]| | |]; cbn [run_task].
  - apply shows_prefix_type. revert Ha. apply shows_prefix_same; reflexivity.
  - apply shows_prefix_type, Ha.
  - apply shows_prefix_type, Ha.
  - apply shows_prefix_type. revert Ha. apply shows_prefix_same; reflexivity.
  - revert Ha. apply shows_prefix_same; reflexivity.
Qed.

Lemma shows_prefix_handle ev a : shows_prefix a -> shows_prefix (handle ev a).
Proof.
  intros Ha. destruct ev as [n| | |]; cbn [handle].
  - unfold fire. destruct (timers a !! n) as [[d t]|]; [|exact Ha].
    apply shows_prefix_run_task. revert Ha. apply shows_prefix_same; reflexivity.
  - unfold shows_prefix, reset. cbn. split; [lia|].
    left. rewrite substring_0_0. reflexivity.
  - unfold shows_prefix, start, reset. cbn. split; [lia|].
    left. rewrite substring_0_0. reflexivity.
  - destruct Ha as [Hle _]. unfold shows_prefix, stop. cbn. split; [exact Hle|].
    right. reflexivity.
Qed.

Lemma text_handle ev a : text (handle ev a) = text a.
Proof.
  assert (Htype : forall b, text (type b) = text b).
  { intros b. unfold type.
    repeat match goal with
           | |- context [if ?c then _ else _] => destruct c
           | |- context [match ?c with Some _ => _ | None => _ end] => destruct c
           end; reflexivity. }
  destruct ev as [n| | |]; cbn [handle]; try reflexivity.
  unfold fire. destruct (timers a !! n) as [[d t]|]; [|reflexivity].
  destruct t as [[]| | |]; cbn [run_task]; rewrite ?Htype; reflexivity.
Qed.

(** X24. The element never shows anything but a beginning of its text:
    from construction on, whatever timers fire and whenever [reset],
    [start] or [stop] are called, the text to type stays the same and the
    element's text is its first [k] code units for some [k]. *)
Theorem typing_shows_a_prefix (e : element) (o : options) (evs : list event) :
  let a := run evs (new_TypingAnimation e o) in
  text a = text (new_TypingAnimation e o) /\
  exists k, k <= List.length (text a) /\ textContent a = substring_to k (text a).
Proof.
  cbv zeta.
  assert (H0 : shows_prefix (new_TypingAnimation e o)).
  { unfold shows_prefix, new_TypingAnimation, init. cbn. split; [lia|].
    left. rewrite substring_0_0. reflexivity. }
  revert H0. generalize (new_TypingAnimation e o). intros a0.
  revert a0. induction evs as [|ev evs IH]; intros a0 H0.
  - split; [reflexivity|]. destruct H0 as [Hle [H|H]].
    + eauto.
    + exists (List.length (text a0)). rewrite substring_full. auto.
  - cbn [run]. destruct (IH (handle ev a0) (shows_prefix_handle ev a0 H0))
      as (Ht & k & Hk & Hshow).
    rewrite text_handle in Ht. split; [exact Ht|]. eauto.
Qed.

(** *** Typing to the end *)

Lemma fire_single d t a :
  timers a = [(d, t)] -> fire 0 a = run_task t (set_timers [] a).
Proof. intros H. unfold fire. rewrite H. reflexivity. Qed.

(** One tick of an animation that types. *)
Lemma tick_types i a d :
  isDeleting a = false -> i < List.length (text a) ->
  currentIndex a = i -> timers a = [(d, Tick)] ->
  fire 0 a = typing_at (S i) a.
Proof.
  intros Hd Hi Hidx Ht. rewrite (fire_single _ _ _ Ht). cbn [run_task].
  unfold type. cbn [isDeleting set_timers currentIndex text].
  rewrite Hd, Hidx. destruct (Nat.ltb_spec i (List.length (text a))); [|lia].
  cbv zeta. unfold typing_at, setTimeout.
  cbn [currentIndex text speed timers set_timers set_textContent set_currentIndex].
  rewrite Nat.add_1_r. reflexivity.
Qed.

Lemma typing_at_facts i a :
  text (typing_at i a) = text a /\ isDeleting (typing_at i a) = isDeleting a /\
  currentIndex (typing_at i a) = i /\
  timers (typing_at i a) = [(speed a, Tick)] /\
  speed (typing_at i a) = speed a /\ loop (typing_at i a) = loop a /\
  isComplete (typing_at i a) = isComplete a /\
  cursorElement (typing_at i a) = cursorElement a /\
  textContent (typing_at i a) = substring_to i (text a).
Proof. repeat split. Qed.

Lemma typing_at_twice i j a : typing_at j (typing_at i a) = typing_at j a.
Proof. reflexivity. Qed.

(** [k] ticks of an animation that types, after the first. *)
Lemma ticks_type k : forall i a,
  isDeleting a = false -> i + k <= List.length (text a) ->
  Nat.iter k (fire 0) (typing_at i a) = typing_at (i + k) a.
Proof.
  induction k as [|k IH]; intros i a Hd Hlen.
  - rewrite Nat.add_0_r. reflexivity.
  - rewrite Nat.iter_succ, IH by (assumption || lia).
    rewrite (tick_types (i + k) (typing_at (i + k) a) (speed a));
      try reflexivity; try assumption.
    + rewrite typing_at_twice. f_equal. lia.
    + cbn [text typing_at set_timers set_textContent set_currentIndex]. lia.
Qed.

(** The tick that finds the text typed in full. *)
Lemma tick_completes a d :
  isDeleting a = false -> currentIndex a = List.length (text a) ->
  timers a = [(d, Tick)] ->
  fire 0 a =
  let a1 := set_isComplete true (set_timers [] a) in
  if loop a then setTimeout StartDeleting (deleteDelay a) a1
  else match cursorElement a with
       | Some _ => setTimeout HideCursor 2000 a1
       | None => a1
       end.
Proof.
  intros Hd Hidx Ht. rewrite (fire_single _ _ _ Ht). cbn [run_task].
  unfold type. cbn [isDeleting set_timers currentIndex text].
  rewrite Hd, Hidx, Nat.ltb_irrefl. reflexivity.
Qed.

Lemma new_TypingAnimation_facts e o :
  let a := new_TypingAnimation e o in
  currentIndex a = 0 /\ isDeleting a = false /\ isComplete a = false /\
  textContent a = [] /\ timers a = [(delay a, Begin true)] /\
  loop a = match o_loop o with Some true => true | _ => false end.
Proof. cbv zeta. repeat split. Qed.

(** The first timer of a new animation: the cursor shows and the first
    character is typed. *)
Lemma begin_types e o :
  let a := new_TypingAnimation e o in
  0 < List.length (text a) ->
  fire 0 a =
  typing_at 1 (set_cursorElement (fun c => CursorElement true (opacity c)) a).
Proof.
  cbv zeta. intros Hlen.
  rewrite (fire_single (delay (new_TypingAnimation e o)) (Begin true))
    by reflexivity.
  cbn [run_task]. unfold type.
  cbn [isDeleting currentIndex text new_TypingAnimation init set_timers
       set_cursorElement set_textContent setTimeout] in *.
  destruct (Nat.ltb_spec 0
              (List.length
                 (string_or (o_text o)
                    (string_or (data_typing_text e) (element_text e)))));
    [|lia].
  reflexivity.
Qed.

(** X25. An animation that does not loop types its text and ends: after
    the [k]-th timer the element shows the first [k] UTF-16 code units of
    the text, for [k] up to its [length]; the timer after the last of them
    marks the animation complete with the text shown in full, and what is
    left is at most the timer that hides the cursor, after which nothing
    is pending. *)
Theorem typing_without_loop_ends (e : element) (o : options) :
  o_loop o <> Some true ->
  let a := new_TypingAnimation e o in
  let n := List.length (text a) in
  (forall k, 1 <= k <= n ->
     textContent (Nat.iter k (fire 0) a) = substring_to k (text a) /\
     isComplete (Nat.iter k (fire 0) a) = false) /\
  let a' := Nat.iter (n + 1) (fire 0) a in
  isComplete a' = true /\
  textContent a' = text a /\
  timers a' = match cursor_outside e with
              | Some _ => [(2000, HideCursor)]
              | None => []
              end /\
  timers (fire 0 a') = [] /\
  (forall c, cursorElement (fire 0 a') = Some c -> opacity c = "0").
Proof.
  intros Hloop. cbv zeta.
  set (a := new_TypingAnimation e o).
  set (n := List.length (text a)).
  assert (Hl : loop a = false).
  { unfold a. cbn. destruct (o_loop o) as [[]|]; congruence. }
  set (a1 := set_cursorElement (fun c => CursorElement true (opacity c)) a).
  assert (Hsteps : forall k, 1 <= k <= n ->
            Nat.iter k (fire 0) a = typing_at k a1).
  { intros k Hk. destruct k as [|k]; [lia|].
    rewrite Nat.iter_succ_r. unfold a at 1. rewrite begin_types by (fold a; lia).
    fold a. fold a1. rewrite (ticks_type k 1 a1); [reflexivity|reflexivity|].
    change (text a1) with (text a). fold n. lia. }
  split.
  - intros k Hk. rewrite (Hsteps k Hk). split; reflexivity.
  - assert (Hend : Nat.iter (n + 1) (fire 0) a =
              let a2 := set_isComplete true
                          (set_timers []
                             (set_textContent (text a)
                                (set_currentIndex n a1))) in
              match cursorElement a1 with
              | Some _ => setTimeout HideCursor 2000 a2
              | None => a2
              end).
    { rewrite Nat.add_1_r, Nat.iter_succ. destruct (Nat.eq_dec n 0) as [Hn|Hn].
      - rewrite Hn. change (Nat.iter 0 (fire 0) a) with a.
        rewrite (fire_single (delay a) (Begin true)) by reflexivity.
        cbn [run_task]. unfold type.
        change (isDeleting (set_cursorElement _ (set_timers [] a))) with false.
        change (currentIndex (set_cursorElement _ (set_timers [] a))) with 0.
        change (text (set_cursorElement _ (set_timers [] a))) with (text a).
        fold n. rewrite Hn. cbn [Nat.ltb Nat.leb]. cbv zeta.
        change (loop (set_isComplete true (set_cursorElement _ (set_timers [] a))))
          with (loop a).
        rewrite Hl.
        assert (Ht : text a = []) by (apply string_length_0, Hn).
        rewrite Ht.
        unfold a1, a. cbn. destruct (cursor_outside e); reflexivity.
      - rewrite (Hsteps n) by lia.
        rewrite (tick_completes _ (speed a1)); try reflexivity.
        cbv zeta. change (loop (typing_at n a1)) with (loop a). rewrite Hl.
        change (cursorElement (typing_at n a1)) with (cursorElement a1).
        unfold typing_at. change (text a1) with (text a). unfold n.
        rewrite substring_full.
        destruct (cursorElement a1); reflexivity. }
    rewrite Hend. cbv zeta.
    assert (Hc : cursorElement a1 =
                 (fun c => CursorElement true (opacity c)) <$>
                 ((fun c => CursorElement false (opacity c)) <$> cursor_outside e))
      by reflexivity.
    rewrite Hc. destruct (cursor_outside e) as [c|]; cbn [fmap option_fmap option_map].
    + split; [reflexivity|]. split; [reflexivity|]. split; [reflexivity|].
      split; [reflexivity|]. intros c' Hc'.
      unfold fire, setTimeout in Hc'.
      cbn [timers set_timers set_isComplete app lookup list_lookup run_task
           cursorElement set_cursorElement fmap option_fmap option_map] in Hc'.
      change (cursorElement (set_textContent (text a) (set_currentIndex n a1)))
        with (cursorElement a1) in Hc'.
      rewrite Hc in Hc'. cbn [fmap option_fmap option_map] in Hc'.
      injection Hc' as <-. reflexivity.
    + split; [reflexivity|]. split; [reflexivity|]. split; [reflexivity|].
      split; [reflexivity|]. intros c' Hc'.
      change (cursorElement a1 = Some c') in Hc'. rewrite Hc in Hc'. discriminate.
Qed.

(** X25 on the text "h", U+00E9, "llo": five code units, and complete
    after six timers. *)
Lemma typing_without_loop_ends_witness :
  let hello := [104; 233; 108; 108; 111] in
  let a := new_TypingAnimation
             (Element (Some hello) [] (Some (CursorElement true "")))
             method_options in
  textContent (Nat.iter 2 (fire 0) a) = [104; 233] /\
  isComplete (Nat.iter 6 (fire 0) a) = true /\
  textContent (Nat.iter 6 (fire 0) a) = hello.
Proof.
  cbv zeta.
  destruct (typing_without_loop_ends
              (Element (Some [104; 233; 108; 108; 111]) []
                 (Some (CursorElement true "")))
              method_options) as (H0 & H1 & H2 & _); [discriminate|].
  split; [exact (proj1 (H0 2 ltac:(simpl; lia)))|].
  split; [exact H1|exact H2].
Defined.

(** *** Loops *)

(** One tick of an animation that deletes. *)
Lemma tick_deletes i a d :
  isDeleting a = true -> currentIndex a = S i -> timers a = [(d, Tick)] ->
  fire 0 a = deleting_at i a.
Proof.
  intros Hd Hidx Ht. rewrite (fire_single _ _ _ Ht). cbn [run_task].
  unfold type. cbn [isDeleting set_timers currentIndex text].
  rewrite Hd, Hidx. cbn [Nat.ltb Nat.leb]. cbv zeta.
  unfold deleting_at, setTimeout.
  cbn [currentIndex text deleteSpeed timers set_timers set_textContent
       set_currentIndex].
  rewrite Nat.sub_succ, Nat.sub_0_r. reflexivity.
Qed.

Lemma ticks_delete k : forall i a,
  isDeleting a = true ->
  Nat.iter k (fire 0) (deleting_at (i + k) a) = deleting_at i a.
Proof.
  induction k as [|k IH]; intros i a Hd.
  - rewrite Nat.add_0_r. reflexivity.
  - rewrite Nat.iter_succ_r.
    rewrite (tick_deletes (i + k) (deleting_at (i + S k) a) (deleteSpeed a));
      try reflexivity; try assumption.
    + apply (IH i a Hd).
    + cbn. lia.
Qed.

Lemma type_keeps_a_loop_going a :
  loop a = true -> timers a = [] ->
  loop (type a) = true /\
  exists d t, timers (type a) = [(d, t)] /\ (t = Tick \/ t = StartDeleting).
Proof.
  intros Hl Ht. unfold type.
  destruct (isDeleting a); [destruct (Nat.ltb 0 (currentIndex a))|
    destruct (Nat.ltb (currentIndex a) (List.length (text a)))]; cbv zeta;
    cbn [loop set_isComplete]; rewrite ?Hl;
    unfold setTimeout;
    cbn [loop timers set_timers set_textContent set_currentIndex set_isDeleting
         set_isComplete];
    rewrite Ht; (split; [exact Hl|]); eauto.
Qed.

Lemma fire_keeps_a_loop_going a d t :
  loop a = true -> timers a = [(d, t)] -> t = Tick \/ t = StartDeleting ->
  loop (fire 0 a) = true /\
  exists d' t', timers (fire 0 a) = [(d', t')] /\ (t' = Tick \/ t' = StartDeleting).
Proof.
  intros Hl Ht Hk. rewrite (fire_single _ _ _ Ht).
  destruct Hk as [-> | ->]; cbn [run_task]; apply type_keeps_a_loop_going;
    auto.
Qed.

Lemma animation_eq a b :
  text a = text b -> speed a = speed b -> delay a = delay b ->
  cursor a = cursor b -> loop a = loop b -> deleteSpeed a = deleteSpeed b ->
  deleteDelay a = deleteDelay b -> currentIndex a = currentIndex b ->
  isDeleting a = isDeleting b -> isComplete a = isComplete b ->
  textContent a = textContent b -> cursorElement a = cursorElement b ->
  timers a = timers b -> a = b.
Proof. destruct a, b. cbn. intros. subst. reflexivity. Qed.

Ltac animation_fields :=
  cbn [text speed delay cursor loop deleteSpeed deleteDelay currentIndex
       isDeleting isComplete textContent cursorElement timers
       set_currentIndex set_isDeleting set_isComplete set_textContent
       set_cursorElement set_timers setTimeout typing_at deleting_at app].

(** The timer that starts the deletion. *)
Lemma start_deleting_fires a d :
  timers a = [(d, StartDeleting)] ->
  fire 0 a = type (set_isComplete false (set_isDeleting true (set_timers [] a))).
Proof. intros Ht. rewrite (fire_single _ _ _ Ht). reflexivity. Qed.

(** The tick that finds everything deleted. *)
Lemma tick_restarts a d :
  isDeleting a = true -> currentIndex a = 0 -> timers a = [(d, Tick)] ->
  fire 0 a = setTimeout Tick (speed a) (set_isDeleting false (set_timers [] a)).
Proof.
  intros Hd Hidx Ht. rewrite (fire_single _ _ _ Ht). cbn [run_task].
  unfold type. animation_fields. rewrite Hd, Hidx. reflexivity.
Qed.

(** X26. A looping animation never ends and repeats itself: from the
    state in which nothing is typed and one tick is pending, the text is
    typed, kept, deleted, and after twice its [length] (in UTF-16 code
    units) plus two timers the animation is in the very same state; at
    every moment exactly one timer is pending. *)
Theorem looping_animation_is_periodic (a : animation) :
  loop a = true -> currentIndex a = 0 -> isDeleting a = false ->
  isComplete a = false -> textContent a = [] -> timers a = [(speed a, Tick)] ->
  let n := List.length (text a) in
  textContent (Nat.iter n (fire 0) a) = text a /\
  Nat.iter (2 * n + 2) (fire 0) a = a /\
  forall k, exists d t, timers (Nat.iter k (fire 0) a) = [(d, t)].
Proof.
  intros Hl Hidx Hd Hc Htc Ht. cbv zeta.
  assert (Ha : a = typing_at 0 a).
  { apply animation_eq; animation_fields; rewrite ?substring_0_0; auto. }
  set (n := List.length (text a)).
  assert (Htyped : Nat.iter n (fire 0) a = typing_at n a).
  { rewrite Ha at 1. apply (ticks_type n 0 a Hd). reflexivity. }
  split; [|split].
  - rewrite Htyped. animation_fields. unfold n. apply substring_full.
  - set (kept := setTimeout StartDeleting (deleteDelay a)
                   (set_isComplete true (set_timers [] (typing_at n a)))).
    assert (Hkept : fire 0 (typing_at n a) = kept).
    { rewrite (tick_completes _ (speed a)); try reflexivity; try assumption.
      cbv zeta. change (loop (typing_at n a)) with (loop a). rewrite Hl.
      reflexivity. }
    assert (Hstart : fire 0 kept =
              type (set_isComplete false (set_isDeleting true
                      (set_timers [] (typing_at n a))))).
    { rewrite (start_deleting_fires kept (deleteDelay a)) by reflexivity.
      reflexivity. }
    destruct (Nat.eq_dec n 0) as [Hn|Hn].
    + rewrite Hn. change (2 * 0 + 2) with 2. rewrite !Nat.iter_succ.
      change (Nat.iter 0 (fire 0) a) with a.
      assert (Ha0 : fire 0 a = kept).
      { rewrite <- Hkept, Hn. f_equal. exact Ha. }
      rewrite Ha0, Hstart. unfold type. animation_fields. rewrite Hn.
      cbn [Nat.ltb Nat.leb]. animation_fields.
      apply animation_eq; animation_fields; rewrite ?substring_0_0; auto.
    + replace (2 * n + 2) with (1 + ((n - 1) + (1 + (1 + n)))) by lia.
      assert (Hone : forall x, Nat.iter 1 (fire 0) x = fire 0 x) by reflexivity.
      rewrite !Nat.iter_add, !Hone, Htyped, Hkept, Hstart.
      set (b := set_isComplete false (set_isDeleting true a)).
      assert (Hdel : type (set_isComplete false (set_isDeleting true
                             (set_timers [] (typing_at n a))))
                     = deleting_at (0 + (n - 1)) b).
      { unfold type. animation_fields.
        destruct (Nat.ltb_spec 0 n); [|lia]. cbv zeta. animation_fields.
        apply animation_eq; animation_fields; auto. }
      rewrite Hdel, (ticks_delete (n - 1) 0 b) by reflexivity.
      rewrite (tick_restarts _ (deleteSpeed b)) by reflexivity.
      apply animation_eq; animation_fields; unfold b; animation_fields;
        rewrite ?substring_0_0; auto.
  - intros k.
    assert (H : loop (Nat.iter k (fire 0) a) = true /\
                exists d t, timers (Nat.iter k (fire 0) a) = [(d, t)] /\
                            (t = Tick \/ t = StartDeleting)).
    { induction k as [|k IH].
      - split; [exact Hl|]. exists (speed a), Tick. auto.
      - rewrite Nat.iter_succ. destruct IH as (Hl' & d & t & Ht' & Hk).
        apply (fire_keeps_a_loop_going _ d t); assumption. }
    destruct H as (_ & d & t & H & _). eauto.
Qed.

Lemma looping_animation_is_periodic_witness :
  let a := typing_at 0
             (new_TypingAnimation (Element (Some (units_of "Hi")) [] None)
                (Options None None None None (Some true) None None)) in
  Nat.iter 6 (fire 0) a = a.
Proof.
  cbv zeta.
  exact (proj1 (proj2 (looping_animation_is_periodic
                         (typing_at 0
                            (new_TypingAnimation (Element (Some (units_of "Hi")) [] None)
                               (Options None None None None (Some true) None None)))
                         eq_refl eq_refl eq_refl eq_refl eq_refl eq_refl))).
Defined.

(** X27. [stop()] does not stop: it shows the text in full and marks
    the animation complete, but the pending tick is not cancelled, and when
    it fires on an animation that was typing, the element goes back to the
    next beginning of the text and typing goes on. *)
Theorem stop_leaves_the_pending_tick (a : animation) (d : nat) :
  isDeleting a = false -> currentIndex a < List.length (text a) ->
  timers a = [(d, Tick)] ->
  textContent (stop a) = text a /\
  isComplete (stop a) = true /\
  timers (stop a) = [(d, Tick)] /\
  textContent (fire 0 (stop a)) = substring_to (currentIndex a + 1) (text a) /\
  timers (fire 0 (stop a)) = [(speed a, Tick)].
Proof.
  intros Hd Hidx Ht.
  split; [reflexivity|]. split; [reflexivity|]. split; [exact Ht|].
  rewrite (tick_types (currentIndex a) (stop a) d); try assumption; try reflexivity.
  rewrite Nat.add_1_r. split; reflexivity.
Qed.

Lemma stop_leaves_the_pending_tick_witness :
  let a := Nat.iter 2 (fire 0)
             (new_TypingAnimation (Element (Some (units_of "Main")) [] None) method_options) in
  textContent (stop a) = units_of "Main" /\ textContent (fire 0 (stop a)) = units_of "Mai".
Proof.
  cbv zeta.
  assert (Hidx : currentIndex
                   (Nat.iter 2 (fire 0)
                      (new_TypingAnimation (Element (Some (units_of "Main")) [] None)
                         method_options)) < 4) by (vm_compute; lia).
  destruct (stop_leaves_the_pending_tick
              (Nat.iter 2 (fire 0)
                 (new_TypingAnimation (Element (Some (units_of "Main")) [] None) method_options))
              100 eq_refl Hidx eq_refl) as (H1 & _ & _ & H2 & _).
  split; [exact H1|exact H2].
Defined.

End TypingAnimationProperties.


(* ===================================================================== *)
(** ** The service worker: offline use, stale entries, failed installs   *)
(* ===================================================================== *)

Section ServiceWorkerMore.
Import ServiceWorker ServiceWorkerRuns.
Local Open Scope js_scope.

Lemma install_origin net w e w' :
  install net w = e -> final e = w' -> origin w' = origin w.
Proof.
  intros <- <-. unfold install, bind, modify, gets.
  destruct (fetch_all net _); reflexivity.
Qed.

Lemma resolve_static w u :
  u ∈ STATIC_CACHE_URLS ->
  resolve w u = origin w ++ u /\ String.prefix (origin w) (resolve w u) = true.
Proof.
  intros Hu. assert (H : String.prefix "/" u = true).
  { unfold STATIC_CACHE_URLS in Hu.
    repeat (apply elem_of_cons in Hu as [->|Hu]; [reflexivity|]).
    apply elem_of_nil in Hu as []. }
  unfold resolve. rewrite H. split; [reflexivity|apply prefix_app].
Qed.

(** X28. Installed and activated, the worker serves the site offline:
    when the four static assets could be fetched at installation, then
    whatever the network does later, a request for one of them is answered
    with the response stored at installation, and a navigation to a page
    that is not cached and cannot be fetched is answered with the stored
    "/offline.html"; the worker's state stays as it is. *)
Theorem installed_worker_serves_offline (net : network) (w : worker) :
  well_formed w ->
  (forall u, u ∈ STATIC_CACHE_URLS ->
     exists r, net (resolve w u) = Some r /\ ok r = true) ->
  exists w1 w2,
    install net w = Ret tt w1 /\ activate w1 = Ret tt w2 /\
    (forall later u mode, u ∈ STATIC_CACHE_URLS ->
       on_fetch later (get (resolve w u) mode) w2 =
         (RespondWith (net (resolve w u)), w2)) /\
    (forall later u, String.prefix (origin w) u = true ->
       version_cache w2 !! u = None -> later u = None ->
       on_fetch later (get u "navigate") w2 =
         (RespondWith (net (resolve w "/offline.html")), w2)).
Proof.
  intros Hwf Hnet.
  destruct (install_spec net w Hnet) as (w1 & Hinstall & _ & Hstored & Hwf1).
  destruct (activate_spec w1) as (w2 & Hactivate & _ & Horigin & _ & Hvc & Honly).
  specialize (Hwf1 Hwf). specialize (Honly Hwf1).
  assert (Ho1 : origin w1 = origin w)
    by (apply (install_origin net w _ w1 Hinstall); reflexivity).
  assert (Ho2 : origin w2 = origin w) by congruence.
  exists w1, w2. split; [exact Hinstall|]. split; [exact Hactivate|]. split.
  - intros later u mode Hu.
    destruct (resolve_static w u Hu) as [_ Hprefix].
    pose proof (on_fetch_spec later (get (resolve w u) mode) w2 eq_refl) as H.
    cbn [url get] in H. rewrite Ho2 in H. specialize (H Hprefix Honly).
    rewrite Hvc, (Hstored u Hu) in H.
    destruct (Hnet u Hu) as (r & Hr & _). rewrite Hr in H |- *. exact H.
  - intros later u Hprefix Hmiss Hlater.
    unfold on_fetch. cbn [method url mode get String.eqb Ascii.eqb Bool.eqb negb andb].
    rewrite Ho2, Hprefix. cbn [negb].
    rewrite !(caches_match_version w2 _ Honly), Hmiss, Hlater.
    unfold resolve at 1. rewrite Ho2. fold (resolve w "/offline.html").
    rewrite Hvc, (Hstored "/offline.html"); [reflexivity|].
    unfold STATIC_CACHE_URLS. do 3 apply list_elem_of_further.
    apply list_elem_of_here.
Qed.

Lemma installed_worker_serves_offline_witness :
  exists w1 w2,
    install Examples.network_up Examples.worker_with_old_cache = Ret tt w1 /\
    activate w1 = Ret tt w2 /\
    on_fetch (fun _ => None) (get "https://example.org/blog/" "navigate") w2 =
      (RespondWith
         (Some (Response 200 "basic" "https://example.org/offline.html")), w2).
Proof.
  destruct (installed_worker_serves_offline Examples.network_up
              Examples.worker_with_old_cache)
    as (w1 & w2 & H1 & H2 & _ & H3).
  - unfold well_formed. vm_compute. apply NoDup_singleton.
  - intros u _. eexists. split; [reflexivity|reflexivity].
  - exists w1, w2. split; [exact H1|]. split; [exact H2|].
    apply (H3 (fun _ => None) "https://example.org/blog/"); [reflexivity| |reflexivity].
    revert H1 H2. vm_compute. intros H1 H2.
    injection H1 as <-. injection H2 as <-. vm_compute. reflexivity.
Defined.

(** *** Events that overlap *)

(** An event whose callbacks run with nothing in between is handled as
    [on_fetch] says. *)
Lemma run_alone_is_on_fetch net req w :
  let s := run [Arrive req; Callback 0 net; Callback 0 net; Callback 0 net;
                Callback 0 net] (State w []) in
  sw s = (on_fetch net req w).2 /\
  exists st, events s = [(req, st)] /\
             handling_of st = Some (on_fetch net req w).1.
Proof.
  cbv zeta. unfold on_fetch.
  destruct (negb (String.eqb (method req) "GET")) eqn:Hg;
    [cbn; unfold arrive; cbn; rewrite Hg; cbn; eauto|].
  destruct (negb (String.prefix (origin w) (url req))) eqn:Hp;
    [cbn; unfold arrive; cbn; rewrite Hg, Hp; cbn; eauto|].
  assert (Ha : arrive req (State w []) = State w [(req, Matching)]).
  { unfold arrive. cbn. rewrite Hg, Hp. reflexivity. }
  cbn [run handle]. rewrite Ha. clear Ha.
  destruct (caches_match (url req) (caches w)) as [cached|] eqn:Hm.
  { unfold callback. cbn. rewrite Hm. cbn. eauto. }
  assert (H1 : callback 0 net (State w [(req, Matching)]) =
               State w [(req, Fetching)]).
  { unfold callback. cbn. rewrite Hm. reflexivity. }
  rewrite H1. clear H1.
  destruct (net (url req)) as [response|] eqn:Hn.
  - destruct (negb (Nat.eqb (status response) 200)
              || negb (String.eqb (rtype response) "basic")) eqn:Hs.
    { unfold callback. cbn. rewrite Hn, Hs. cbn. eauto. }
    assert (H2 : callback 0 net (State w [(req, Fetching)]) =
                 State w [(req, Opening response)]).
    { unfold callback. cbn. rewrite Hn, Hs. reflexivity. }
    rewrite H2. unfold callback. cbn. eauto.
  - destruct (String.eqb (mode req) "navigate") eqn:Hmode.
    + assert (H2 : callback 0 net (State w [(req, Fetching)]) =
                   State w [(req, MatchingOffline)]).
      { unfold callback. cbn. rewrite Hn, Hmode. reflexivity. }
      rewrite H2. unfold callback. cbn. eauto.
    + unfold callback. cbn. rewrite Hn, Hmode. cbn. eauto.
Qed.

Lemma version_cache_open w :
  version_cache (set_caches (caches_open CACHE_NAME) w) = version_cache w.
Proof.
  unfold version_cache, set_caches. cbn [caches].
  rewrite lookup_cache_open. reflexivity.
Qed.

Lemma only_version_cache_open w :
  only_version_cache w ->
  only_version_cache (set_caches (caches_open CACHE_NAME) w).
Proof.
  rewrite !only_version_cache_keys. unfold set_caches. cbn [caches].
  intros [H1 H2]. split; [apply keys_open_NoDup, H1|apply keys_open_version, H2].
Qed.

Lemma only_version_cache_update f w :
  only_version_cache w ->
  only_version_cache (set_caches (update_cache CACHE_NAME f) w).
Proof.
  rewrite !only_version_cache_keys. unfold set_caches. cbn [caches].
  rewrite keys_update. auto.
Qed.

Lemma version_cache_put w k v u r :
  version_cache w !! u = Some r ->
  version_cache (set_caches (update_cache CACHE_NAME (<[k := v]>)) w) !! u =
  Some (if decide (k = u) then v else r).
Proof.
  unfold version_cache, set_caches. cbn [caches].
  rewrite lookup_cache_update.
  destruct (lookup_cache CACHE_NAME (caches w)) as [c|]; cbn.
  - intros Hu. destruct (decide (k = u)) as [->|Hne].
    + apply lookup_insert_eq.
    + rewrite lookup_insert_ne by exact Hne. exact Hu.
  - rewrite lookup_empty. discriminate.
Qed.

(** One callback, on a worker whose cache holds [r] for [u]. *)
Lemma advance_keeps net req st w u r :
  only_version_cache w ->
  version_cache w !! u = Some r ->
  (url req = u -> served_from_cache r st) ->
  only_version_cache (advance net req st w).2 /\
  origin (advance net req st w).2 = origin w /\
  version_cache (advance net req st w).2 !! u = Some r /\
  (url req = u -> served_from_cache r (advance net req st w).1).
Proof.
  intros Honly Hu Hst. unfold served_from_cache in *.
  assert (Hne : st <> Ignored -> st <> Matching -> st <> Done (Some r) ->
                url req <> u).
  { intros H1 H2 H3 E. destruct (Hst E) as [H|[H|H]]; contradiction. }
  destruct st as [| | |response|response| |a]; cbn [advance].
  - cbn [fst snd]. auto.
  - rewrite (caches_match_version w (url req) Honly).
    destruct (version_cache w !! url req) as [cached|] eqn:Hc; cbn [fst snd];
      (split; [exact Honly|split; [reflexivity|split; [exact Hu|intros E]]]);
      rewrite E, Hu in Hc; [|discriminate].
    injection Hc as <-. auto.
  - specialize (Hne ltac:(discriminate) ltac:(discriminate) ltac:(discriminate)).
    destruct (net (url req)) as [response|];
      [destruct (negb (Nat.eqb (status response) 200)
                 || negb (String.eqb (rtype response) "basic"))
      |destruct (String.eqb (mode req) "navigate")];
      cbn [fst snd];
      (split; [exact Honly|split; [reflexivity|split; [exact Hu|]]]);
      contradiction.
  - specialize (Hne ltac:(discriminate) ltac:(discriminate) ltac:(discriminate)).
    cbn [fst snd]. split; [apply only_version_cache_open, Honly|].
    split; [reflexivity|]. rewrite version_cache_open.
    split; [exact Hu|contradiction].
  - specialize (Hne ltac:(discriminate) ltac:(discriminate) ltac:(discriminate)).
    cbn [fst snd]. split; [apply only_version_cache_update, Honly|].
    split; [reflexivity|].
    rewrite (version_cache_put w (url req) response u r Hu).
    destruct (decide (url req = u)); [contradiction|].
    split; [reflexivity|contradiction].
  - specialize (Hne ltac:(discriminate) ltac:(discriminate) ltac:(discriminate)).
    cbn [fst snd]. split; [exact Honly|]. split; [reflexivity|].
    split; [exact Hu|contradiction].
  - cbn [fst snd]. auto.
Qed.

Lemma handle_holds_entry u r x s :
  holds_entry u r s ->
  holds_entry u r (handle x s) /\ origin (sw (handle x s)) = origin (sw s).
Proof.
  intros (Honly & Hu & Hev). destruct x as [req|i net]; cbn [handle].
  - unfold arrive, holds_entry. cbn [sw events].
    split; [|reflexivity]. split; [exact Honly|]. split; [exact Hu|].
    intros req' st' Hin E. apply elem_of_app in Hin as [Hin|Hin].
    + apply (Hev req' st' Hin E).
    + apply list_elem_of_singleton in Hin. injection Hin as -> ->.
      unfold served_from_cache.
      destruct (negb (String.eqb (method req) "GET")); [auto|].
      destruct (negb (String.prefix (origin (sw s)) (url req))); auto.
  - unfold callback. destruct (events s !! i) as [[req st]|] eqn:Hi.
    + assert (Hst : url req = u -> served_from_cache r st).
      { apply Hev. apply list_elem_of_lookup. eauto. }
      destruct (advance_keeps net req st (sw s) u r Honly Hu Hst)
        as (A & B & C & D).
      destruct (advance net req st (sw s)) as [st' w'].
      cbn [fst snd] in *. unfold holds_entry. cbn [sw events].
      split; [|exact B]. split; [exact A|]. split; [exact C|].
      intros req' st'' Hin E. apply list_elem_of_lookup in Hin as [j Hj].
      destruct (decide (i = j)) as [<-|Hne].
      * rewrite list_lookup_insert_eq in Hj
          by (apply lookup_lt_Some in Hi; exact Hi).
        injection Hj as <- <-. apply D, E.
      * rewrite list_lookup_insert_ne in Hj by exact Hne.
        apply (Hev req' st''); [|exact E]. apply list_elem_of_lookup. eauto.
    + split; [|reflexivity]. split; [exact Honly|]. split; assumption.
Qed.

Lemma run_holds_entry u r steps : forall s,
  holds_entry u r s ->
  holds_entry u r (run steps s) /\ origin (sw (run steps s)) = origin (sw s).
Proof.
  induction steps as [|x steps IH]; intros s Hs; [auto|].
  cbn [run]. destruct (handle_holds_entry u r x s Hs) as [H1 H2].
  destruct (IH _ H1) as [H3 H4]. split; [exact H3|congruence].
Qed.

Lemma arrive_get u mode s :
  String.prefix (origin (sw s)) u = true ->
  arrive (get u mode) s = State (sw s) (events s ++ [(get u mode, Matching)]).
Proof.
  intros Hp. unfold arrive, get. cbn [method url]. rewrite Hp. reflexivity.
Qed.

Lemma callback_last net w l req st :
  callback (List.length l) net (State w (l ++ [(req, st)])) =
  State (advance net req st w).2 (l ++ [(req, (advance net req st w).1)]).
Proof.
  unfold callback. cbn [events sw].
  rewrite lookup_app_r, Nat.sub_diag by lia. cbn [lookup list_lookup].
  destruct (advance net req st w) as [st' w']. cbn [fst snd]. f_equal.
  replace (List.length l) with (List.length l + 0) by lia.
  rewrite insert_app_r. reflexivity.
Qed.

(** X29. What is cached is replaced only by a write that was already
    under way.  Callbacks of different [fetch] events interleave, and
    [cache.put] is neither guarded nor awaited.  When the version cache of
    an activated worker holds a response for a URL and no request for that
    URL has got past its cache lookup, then after any interleaving of new
    events and callbacks the cache holds the same response, every such
    request that was answered was answered with it, and a new GET request
    for the URL is answered with it at its first callback, whatever the
    network would return.  But a request for the URL that missed the cache
    earlier and whose [cache.put] is still pending overwrites the entry
    with its own response when the write lands. *)
Theorem cached_responses_change_only_by_pending_puts
    (s : state) (u : string) (r : response) :
  only_version_cache (sw s) ->
  version_cache (sw s) !! u = Some r ->
  ((forall req st, (req, st) ∈ events s -> url req = u ->
      st = Ignored \/ st = Matching) ->
   forall steps,
     let s' := run steps s in
     version_cache (sw s') !! u = Some r /\
     (forall req st a, (req, st) ∈ events s' -> url req = u ->
        answer st = Some a -> a = Some r) /\
     (String.prefix (origin (sw s)) u = true ->
      forall net mode,
        events (callback (List.length (events s')) net
                  (arrive (get u mode) s')) !! List.length (events s')
        = Some (get u mode, Done (Some r)))) /\
  (forall i req r' net,
     events s !! i = Some (req, Putting r') -> url req = u ->
     let s' := callback i net s in
     version_cache (sw s') !! u = Some r' /\
     events s' !! i = Some (req, Done (Some r'))).
Proof.
  intros Honly Hu. split.
  - intros Hev steps. cbv zeta.
    assert (Hs : holds_entry u r s).
    { split; [exact Honly|]. split; [exact Hu|].
      intros req st Hin E. unfold served_from_cache.
      destruct (Hev req st Hin E) as [->| ->]; auto. }
    destruct (run_holds_entry u r steps s Hs) as ((A & B & C) & D).
    split; [exact B|]. split.
    + intros req st a Hin E Ha.
      destruct (C req st Hin E) as [->|[->| ->]]; cbn in Ha;
        try discriminate. congruence.
    + intros Hp net mode. rewrite arrive_get by (rewrite D; exact Hp).
      rewrite callback_last. cbn [events advance get url].
      rewrite (caches_match_version _ u A), B. cbn [fst snd].
      rewrite lookup_app_r, Nat.sub_diag by lia. reflexivity.
  - intros i req r' net Hi E. cbv zeta. unfold callback. rewrite Hi.
    cbn [advance sw events]. split.
    + rewrite (version_cache_put (sw s) (url req) r' u r Hu).
      destruct (decide (url req = u)); [reflexivity|contradiction].
    + apply list_lookup_insert_eq. apply lookup_lt_Some in Hi. exact Hi.
Qed.

(** X29 on two requests for the same page that overlap on a worker whose
    cache is empty: both miss, the network answers them differently, the
    first response is cached and then replaced by the second. *)
Lemma cached_responses_change_only_by_pending_puts_witness :
  let u := "https://example.org/about/" in
  let first := fun _ : string => Some (Response 200 "basic" "first") in
  let second := fun _ : string => Some (Response 200 "basic" "second") in
  let s := run [Arrive (get u "navigate"); Arrive (get u "navigate");
                Callback 0 first; Callback 1 first;
                Callback 0 first; Callback 1 second;
                Callback 0 first; Callback 0 first; Callback 1 second]
             (State (Worker "https://example.org" [(CACHE_NAME, ∅)] true true) []) in
  version_cache (sw s) !! u = Some (Response 200 "basic" "first") /\
  version_cache (sw (callback 1 second s)) !! u =
    Some (Response 200 "basic" "second").
Proof.
  cbv zeta. split; [reflexivity|].
  refine (proj1 (proj2 (cached_responses_change_only_by_pending_puts
            (run [Arrive (get "https://example.org/about/" "navigate");
                  Arrive (get "https://example.org/about/" "navigate");
                  Callback 0 (fun _ => Some (Response 200 "basic" "first"));
                  Callback 1 (fun _ => Some (Response 200 "basic" "first"));
                  Callback 0 (fun _ => Some (Response 200 "basic" "first"));
                  Callback 1 (fun _ => Some (Response 200 "basic" "second"));
                  Callback 0 (fun _ => Some (Response 200 "basic" "first"));
                  Callback 0 (fun _ => Some (Response 200 "basic" "first"));
                  Callback 1 (fun _ => Some (Response 200 "basic" "second"))]
               (State (Worker "https://example.org" [(CACHE_NAME, ∅)] true true) []))
            "https://example.org/about/" (Response 200 "basic" "first") _ _)
          1 (get "https://example.org/about/" "navigate")
          (Response 200 "basic" "second")
          (fun _ => Some (Response 200 "basic" "second")) _ _)).
  - split; [apply NoDup_singleton|]. repeat constructor.
  - reflexivity.
  - reflexivity.
  - reflexivity.
Defined.

(** *** Failed installs *)

Lemma fetch_all_fails net urls u :
  u ∈ urls ->
  match net u with Some r => ok r = false | None => True end ->
  fetch_all net urls = None.
Proof.
  intros Hin Hbad. induction urls as [|u' urls IH]; [apply elem_of_nil in Hin as []|].
  cbn [fetch_all]. apply elem_of_cons in Hin as [<-|Hin].
  - destruct (net u) as [r|]; [rewrite Hbad|]; reflexivity.
  - rewrite (IH Hin). destruct (net u') as [r|]; [destruct (ok r)|]; reflexivity.
Qed.

(** X30. Installation is all or nothing: when one of the static assets
    cannot be fetched, or is answered with a status outside of 200-299, the
    promise of the [install] listener is rejected, [skipWaiting] is not
    called, and the entries of the version cache are what they were. *)
Theorem failed_install_stores_nothing (net : network) (w : worker) :
  asset_missing net w ->
  exists e w',
    install net w = Throw e w' /\
    skippedWaiting w' = skippedWaiting w /\
    version_cache w' = version_cache w /\
    forall name, name <> CACHE_NAME ->
      lookup_cache name (caches w') = lookup_cache name (caches w).
Proof.
  intros (u & Hu & Hbad). unfold install, bind, modify, gets.
  change (resolve (set_caches (caches_open CACHE_NAME) w)) with (resolve w).
  rewrite (fetch_all_fails net _ (resolve w u)); [| |exact Hbad].
  - eexists _, _. split; [reflexivity|]. cbn [skippedWaiting caches set_caches].
    split; [reflexivity|]. split.
    + unfold version_cache. cbn [caches set_caches].
      rewrite lookup_cache_open. reflexivity.
    + intros name Hne. unfold caches_open.
      destruct (lookup_cache CACHE_NAME (caches w)); [reflexivity|].
      rewrite lookup_cache_app.
      destruct (lookup_cache name (caches w)); [reflexivity|].
      cbn [lookup_cache]. apply String.eqb_neq in Hne.
      rewrite String.eqb_sym, Hne. reflexivity.
  - apply list_elem_of_fmap. eauto.
Qed.

Lemma failed_install_stores_nothing_witness :
  exists e w',
    install (fun u => if String.eqb u "https://example.org/offline.html"
                      then Some (Response 404 "basic" "")
                      else Examples.network_up u)
      Examples.worker_with_old_cache = Throw e w' /\
    skippedWaiting w' = false.
Proof.
  destruct (failed_install_stores_nothing
              (fun u => if String.eqb u "https://example.org/offline.html"
                        then Some (Response 404 "basic" "")
                        else Examples.network_up u)
              Examples.worker_with_old_cache)
    as (e & w' & H1 & H2 & _).
  - exists "/offline.html". split; [|reflexivity].
    unfold STATIC_CACHE_URLS. do 3 apply list_elem_of_further.
    apply list_elem_of_here.
  - exists e, w'. split; [exact H1|exact H2].
Defined.

End ServiceWorkerMore.
